(** * Playlist updater: track collection, deduplication and playlist sync

    A shallow embedding of [spotipy_utils.py] and of [update_playlists] from
    [update_spotify_playlists.py], followed by the properties of the
    specification that were checked against it.

    Layout: Python values and exceptions; calendar dates; the date parser the
    fetcher calls; the release fetcher; the deduplicator; the provider client
    and the synchronizer; then the theorems. *)

From Stdlib Require Import ZArith List String Ascii Bool Lia.
From Stdlib Require Import OrderedTypeEx Permutation Sorted.
Import ListNotations.

Open Scope string_scope.
Open Scope list_scope.
Open Scope Z_scope.

(* ================================================================== *)
(** * Python values, exceptions, results *)

(** The values that occur in the fields of a track tuple, in the artist and
    album dictionaries and as playlist ids: a [str] or [None]. *)
Inductive pyval : Type :=
| PNone
| PStr (s : string).

Definition pyval_eqb (a b : pyval) : bool :=
  match a, b with
  | PNone, PNone => true
  | PStr x, PStr y => String.eqb x y
  | _, _ => false
  end.

(** A Python tuple of such values; a track is the tuple
    [(track_id, name, release_date, artist_threads, artist_name)]. *)
Definition pytuple := list pyval.

(** The exception classes that the modelled code can meet.  [ParserError] is
    dateutil's subclass of [ValueError]; [SpotifyException] stands for any
    error reported by the provider. *)
Inductive exn : Type :=
| KeyError
| TypeError
| ValueError
| IndexError
| OverflowError
| ParserError
| SpotifyException.

Definition exn_eqb (a b : exn) : bool :=
  match a, b with
  | KeyError, KeyError | TypeError, TypeError | ValueError, ValueError
  | IndexError, IndexError | OverflowError, OverflowError
  | ParserError, ParserError | SpotifyException, SpotifyException => true
  | _, _ => false
  end.

(** The outcome of a call: a value or a raised exception. *)
Inductive result (A : Type) : Type :=
| Ok (a : A)
| Raise (e : exn).
Arguments Ok {A} a.
Arguments Raise {A} e.

Definition rbind {A B} (r : result A) (k : A -> result B) : result B :=
  match r with
  | Ok a => k a
  | Raise e => Raise e
  end.

Declare Scope result_scope.
Delimit Scope result_scope with result.
Notation "'do' x <- r ; k" := (rbind r (fun x => k))
  (at level 10, x name, r at level 100, k at level 200) : result_scope.

(** [x in l] and [x not in l] on lists of values. *)
Definition py_in (x : pyval) (l : list pyval) : bool := existsb (pyval_eqb x) l.

(** [t[i]]: raises [IndexError] past the end of the tuple. *)
Definition tuple_index (t : pytuple) (i : nat) : result pyval :=
  match nth_error t i with
  | Some v => Ok v
  | None => Raise IndexError
  end.

(** [a > b] and [a < b] on field values: strings compare lexicographically by
    code point, and any comparison that involves [None] raises [TypeError]. *)
Definition py_gt (a b : pyval) : result bool :=
  match a, b with
  | PStr x, PStr y => Ok (String.ltb y x)
  | _, _ => Raise TypeError
  end.

Definition py_lt (a b : pyval) : result bool := py_gt b a.

(** A list comprehension [[f x for x in l]] whose element expression may
    raise: evaluated left to right, the first exception ends it. *)
Fixpoint map_result {A B} (f : A -> result B) (l : list A) : result (list B) :=
  match l with
  | [] => Ok []
  | x :: xs =>
      (do y <- f x; do ys <- map_result f xs; Ok (y :: ys))%result
  end.

(** A list comprehension [[x for x in l if p x]] whose condition may raise. *)
Fixpoint filter_result {A} (p : A -> result bool) (l : list A) : result (list A) :=
  match l with
  | [] => Ok []
  | x :: xs =>
      (do b <- p x; do ys <- filter_result p xs;
       Ok (if b then x :: ys else ys))%result
  end.

(* ================================================================== *)
(** * Calendar dates

    A [datetime.date] is represented by its proleptic Gregorian ordinal, the
    number [date.toordinal()] returns (0001-01-01 is day 1).  Date comparison
    is comparison of ordinals and [d - timedelta(days=n)] is subtraction on
    ordinals; the conversions below follow [datetime.py]. *)

Definition date := Z.

Definition MAXORDINAL : Z := 3652059.
Definition MAX_DELTA_DAYS : Z := 999999999.

Definition is_leap (year : Z) : bool :=
  (year mod 4 =? 0) && (negb (year mod 100 =? 0) || (year mod 400 =? 0)).

Definition DAYS_IN_MONTH (month : Z) : Z :=
  match month with
  | 1 => 31 | 2 => 28 | 3 => 31 | 4 => 30 | 5 => 31 | 6 => 30
  | 7 => 31 | 8 => 31 | 9 => 30 | 10 => 31 | 11 => 30 | 12 => 31
  | _ => -1
  end.

Definition DAYS_BEFORE_MONTH (month : Z) : Z :=
  match month with
  | 1 => 0 | 2 => 31 | 3 => 59 | 4 => 90 | 5 => 120 | 6 => 151
  | 7 => 181 | 8 => 212 | 9 => 243 | 10 => 273 | 11 => 304 | 12 => 334
  | _ => -1
  end.

Definition days_before_year (year : Z) : Z :=
  let y := year - 1 in
  y * 365 + y / 4 - y / 100 + y / 400.

Definition days_in_month (year month : Z) : Z :=
  if (month =? 2) && is_leap year then 29 else DAYS_IN_MONTH month.

Definition days_before_month (year month : Z) : Z :=
  DAYS_BEFORE_MONTH month + (if (2 <? month) && is_leap year then 1 else 0).

Definition ymd2ord (year month day : Z) : Z :=
  days_before_year year + days_before_month year month + day.

(** [_ord2ymd]: the year, month and day of an ordinal. *)
Definition ord2ymd (n0 : Z) : Z * Z * Z :=
  let n := n0 - 1 in
  let n400 := n / 146097 in
  let n := n mod 146097 in
  let year := n400 * 400 + 1 in
  let n100 := n / 36524 in
  let n := n mod 36524 in
  let n4 := n / 1461 in
  let n := n mod 1461 in
  let n1 := n / 365 in
  let n := n mod 365 in
  let year := year + n100 * 100 + n4 * 4 + n1 in
  if (n1 =? 4) || (n100 =? 4) then (year - 1, 12, 31)
  else
    let leapyear := (n1 =? 3) && (negb (n4 =? 24) || (n100 =? 3)) in
    let month := Z.shiftr (n + 50) 5 in
    let preceding :=
      DAYS_BEFORE_MONTH month + (if (2 <? month) && leapyear then 1 else 0) in
    if n <? preceding then
      let month := month - 1 in
      let preceding :=
        preceding
        - (DAYS_IN_MONTH month + (if (month =? 2) && leapyear then 1 else 0)) in
      (year, month, n - preceding + 1)
    else (year, month, n - preceding + 1).

Definition date_year (d : date) : Z := fst (fst (ord2ymd d)).
Definition date_month (d : date) : Z := snd (fst (ord2ymd d)).
Definition date_day (d : date) : Z := snd (ord2ymd d).

(** [datetime.date(year, month, day)], which checks its fields. *)
Definition mk_date (year month day : Z) : result date :=
  if (1 <=? year) && (year <=? 9999) && (1 <=? month) && (month <=? 12)
     && (1 <=? day) && (day <=? days_in_month year month)
  then Ok (ymd2ord year month day)
  else Raise ValueError.

(** [d - datetime.timedelta(days=n)]: both the construction of the
    [timedelta] and the subtraction raise [OverflowError] out of range. *)
Definition date_sub_days (d : date) (n : Z) : result date :=
  if (- MAX_DELTA_DAYS <=? n) && (n <=? MAX_DELTA_DAYS)
     && (0 <? d - n) && (d - n <=? MAXORDINAL)
  then Ok (d - n)
  else Raise OverflowError.

(** [datetime.date(today.year, 1, 1)]. *)
Definition first_day_of_year (today : date) : date :=
  ymd2ord (date_year today) 1 1.

(* ================================================================== *)
(** * The date parser: [dateutil.parser.parse]

    The fetcher calls [dateutil.parser.parse(album['release_date'])] with no
    [default] argument.  Two facts about that call hold for every argument:
    a value that is not a string raises [TypeError], and a string that cannot
    be parsed raises [ParserError], a [ValueError].  Which strings parse, and
    to what, is kept as a parameter of the fetcher ([str_parser] below);
    [dateutil_parse_str] models it on the provider's three formats. *)

Definition str_parser := string -> result date.

Definition parse_release_date (parse_str : str_parser) (v : pyval) : result date :=
  match v with
  | PNone => Raise TypeError
  | PStr s => parse_str s
  end.

Definition digit_value (c : ascii) : option Z :=
  let n := Z.of_N (N_of_ascii c) in
  if (48 <=? n) && (n <=? 57) then Some (n - 48) else None.

Definition number2 (a b : ascii) : option Z :=
  match digit_value a, digit_value b with
  | Some x, Some y => Some (10 * x + y)
  | _, _ => None
  end.

Definition number4 (a b c d : ascii) : option Z :=
  match number2 a b, number2 c d with
  | Some x, Some y => Some (100 * x + y)
  | _, _ => None
  end.

(** The provider sends [YYYY], [YYYY-MM] or [YYYY-MM-DD]. *)
Inductive date_tokens : Type :=
| YearOnly (y : Z)
| YearMonth (y m : Z)
| YearMonthDay (y m d : Z).

Definition tokenize (s : string) : option date_tokens :=
  match s with
  | String a (String b (String c (String d rest))) =>
      match number4 a b c d with
      | None => None
      | Some y =>
          match rest with
          | EmptyString => Some (YearOnly y)
          | String "-" (String e (String f rest2)) =>
              match number2 e f with
              | None => None
              | Some m =>
                  match rest2 with
                  | EmptyString => Some (YearMonth y m)
                  | String "-" (String g (String h EmptyString)) =>
                      match number2 g h with
                      | Some dd => Some (YearMonthDay y m dd)
                      | None => None
                      end
                  | _ => None
                  end
              end
          | _ => None
          end
      end
  | _ => None
  end.

(** [parserinfo.convertyear] for a year given without its century. *)
Definition convertyear (this_year year : Z) : Z :=
  if year <? 100 then
    let year := year + this_year / 100 * 100 in
    if this_year + 50 <=? year then year - 100
    else if year <? this_year - 50 then year + 100
    else year
  else year.

(** [_ymd.resolve_ymd]: which of year, month and day the numbers stand for.
    A lone number is a year above 31 and a day otherwise; of two numbers the
    first is the year when it is above 31; three numbers that start with a
    four-digit token are year, month, day. *)
Definition resolve_ymd (this_year : Z) (t : date_tokens)
  : option Z * option Z * option Z :=
  match t with
  | YearOnly y =>
      if 100 <? y then (Some y, None, None)
      else if 31 <? y then (Some (convertyear this_year y), None, None)
      else (None, None, Some y)
  | YearMonth y m =>
      if 31 <? y then (Some y, Some m, None)
      else if 31 <? m then (Some m, Some y, None)
      else (None, Some y, Some m)
  | YearMonthDay y m d => (Some y, Some m, Some d)
  end.

(** [_build_naive]: the fields the string did not give are taken from the
    default, which is today at midnight since the fetcher passes none; a
    default day past the end of the month falls back to the month's last day.
    Every failure on the way surfaces as [ParserError]. *)
Definition build_naive (today : date) (r : option Z * option Z * option Z)
  : result date :=
  let '(ry, rm, rd) := r in
  let cyear := match ry with Some y => y | None => date_year today end in
  let cmonth := match rm with Some m => m | None => date_month today end in
  let day :=
    match rd with
    | Some d => d
    | None =>
        let cday := date_day today in
        if days_in_month cyear cmonth <? cday
        then days_in_month cyear cmonth else cday
    end in
  match mk_date cyear cmonth day with
  | Ok d => Ok d
  | Raise _ => Raise ParserError
  end.

(** [dateutil.parser.parse(s).date()] on the day [today].  Strings outside
    the three provider formats are answered with [ParserError]; dateutil
    accepts more formats than these, so the model is exact on the provider's
    formats and on strings without any date, and is used only on those. *)
Definition dateutil_parse_str (today : date) : str_parser :=
  fun s =>
    match tokenize s with
    | None => Raise ParserError
    | Some t => build_naive today (resolve_ymd (date_year today) t)
    end.

(* ================================================================== *)
(** * The release fetcher: [get_recent_track] *)

(** An artist dictionary of the roster; an absent key is [None] here. *)
Record artist : Type := {
  artist_spotify_id : option pyval;
  artist_name : option pyval;
  artist_threads : option pyval
}.

(** [d.get(key)]. *)
Definition dict_get (v : option pyval) : pyval :=
  match v with
  | Some x => x
  | None => PNone
  end.

(** A release as the provider lists it; the keys ['id'], ['name'] and
    ['release_date'] are present in every one. *)
Record album : Type := {
  album_id : pyval;
  album_name : pyval;
  album_release_date : pyval
}.

(** An item of an album's track listing; ['id'] and ['name'] are present in
    every one, so that the body of the inner loops does not raise. *)
Record track_item : Type := {
  item_id : pyval;
  item_name : pyval
}.

(** The read side of the provider client, as the fetcher uses it:
    [sp.artist_albums(id, album_type='album,single', country='US')['items']]
    and [sp.album_tracks(id)['items']]. *)
Record catalog : Type := {
  artist_albums : pyval -> result (list album);
  album_tracks : pyval -> result (list track_item)
}.

(** The three ways the fetcher treats a release. *)
Inductive window : Type :=
| Recent
| YearToDate
| Ignored.

(** The [if]/[elif] on the release date in the loop body. *)
Definition classify (today day_n_days_ago beginning_of_year release_date : date)
  : window :=
  if (day_n_days_ago <=? release_date) && (release_date <=? today) then Recent
  else if (beginning_of_year <=? release_date)
          && (release_date <=? day_n_days_ago) then YearToDate
  else Ignored.

Definition track_info (art : artist) (al : album) (track : track_item) : pytuple :=
  [item_id track; item_name track; album_release_date al;
   dict_get (artist_threads art); dict_get (artist_name art)].

(** Truth value of [latest_track]: [None] and the empty tuple are false. *)
Definition truthy_track (t : option pytuple) : bool :=
  match t with
  | None => false
  | Some [] => false
  | Some (_ :: _) => true
  end.

(** The state the loop over the albums carries. *)
Definition fetch_state : Type := list pytuple * option pytuple.

(** The inner loop over the tracks of a release in the recent window. *)
Definition recent_track_step (art : artist) (al : album)
    (st : fetch_state) (track : track_item) : fetch_state :=
  let '(all_tracks, latest_track) := st in
  let info := track_info art al track in
  let latest_track :=
    if negb (truthy_track latest_track) then Some info else latest_track in
  (all_tracks ++ [info], latest_track).

(** The inner loop over the tracks of a release earlier in the year. *)
Definition year_track_step (art : artist) (al : album)
    (st : fetch_state) (track : track_item) : fetch_state :=
  let '(all_tracks, latest_track) := st in
  (all_tracks ++ [track_info art al track], latest_track).

(** One iteration of [for album in albums['items']].  Only a [TypeError] of
    the parser is caught; a failure of the track listing is caught whatever
    its class. *)
Definition album_step (parse_str : str_parser) (sp : catalog) (art : artist)
    (today day_n_days_ago beginning_of_year : date)
    (st : fetch_state) (al : album) : result fetch_state :=
  match parse_release_date parse_str (album_release_date al) with
  | Raise TypeError => Ok st
  | Raise e => Raise e
  | Ok release_date =>
      match classify today day_n_days_ago beginning_of_year release_date with
      | Recent =>
          match album_tracks sp (album_id al) with
          | Ok tracks => Ok (fold_left (recent_track_step art al) tracks st)
          | Raise _ => Ok st
          end
      | YearToDate =>
          match album_tracks sp (album_id al) with
          | Ok tracks => Ok (fold_left (year_track_step art al) tracks st)
          | Raise _ => Ok st
          end
      | Ignored => Ok st
      end
  end.

Fixpoint albums_loop (step : fetch_state -> album -> result fetch_state)
    (albums : list album) (st : fetch_state) : result fetch_state :=
  match albums with
  | [] => Ok st
  | al :: rest =>
      match step st al with
      | Ok st' => albums_loop step rest st'
      | Raise e => Raise e
      end
  end.

(** [l.sort(key=lambda x: x[2])], with [reverse=True] when [reverse] is set.
    The keys are computed first; with two elements or more the sort compares
    them, which raises [TypeError] as soon as one key is [None].  The sort is
    stable, also in reverse. *)
Definition key_before (reverse : bool) (a b : pyval) : bool :=
  match a, b with
  | PStr x, PStr y => if reverse then String.ltb y x else String.ltb x y
  | _, _ => false
  end.

Fixpoint insert_by_key (reverse : bool) (x : pyval * pytuple)
    (l : list (pyval * pytuple)) : list (pyval * pytuple) :=
  match l with
  | [] => [x]
  | y :: ys =>
      if key_before reverse (fst y) (fst x)
      then y :: insert_by_key reverse x ys
      else x :: y :: ys
  end.

Definition is_none (v : pyval) : bool :=
  match v with
  | PNone => true
  | PStr _ => false
  end.

Definition sort_by_release_date (reverse : bool) (l : list pytuple)
  : result (list pytuple) :=
  (do keys <- map_result (fun t => tuple_index t 2) l;
   if (2 <=? List.length l)%nat && existsb is_none keys then Raise TypeError
   else Ok (map snd (fold_right (insert_by_key reverse) [] (combine keys l))))%result.

(** [get_recent_track(sp, artist, n_days_ago)], run on the day [today]. *)
Definition get_recent_track (parse_str : str_parser) (sp : catalog)
    (today : date) (art : artist) (n_days_ago : Z)
  : result (list pytuple * option pytuple) :=
  match artist_spotify_id art with
  | None => Raise KeyError
  | Some spotify_id =>
      match artist_albums sp spotify_id with
      | Raise _ => Ok ([], None)
      | Ok albums =>
          (do day_n_days_ago <- date_sub_days today n_days_ago;
           let beginning_of_year := first_day_of_year today in
           do st <- albums_loop
                      (album_step parse_str sp art today day_n_days_ago
                                  beginning_of_year)
                      albums ([], None);
           do all_tracks <- sort_by_release_date true (fst st);
           Ok (all_tracks, snd st))%result
      end
  end.

(* ================================================================== *)
(** * The deduplicator: [deduplicate_track_list] *)

(** [track_dict]: a dictionary from track name to track.  A Python dictionary
    keeps its keys in the order of their first insertion, and [values()]
    follows it, so it is an association list here. *)
Definition track_dict := list (pyval * pytuple).

Fixpoint dict_lookup (k : pyval) (d : track_dict) : option pytuple :=
  match d with
  | [] => None
  | (k', v) :: rest => if pyval_eqb k k' then Some v else dict_lookup k rest
  end.

(** [d[k] = v]: replaces the value in place, or appends a new key. *)
Fixpoint dict_set (k : pyval) (v : pytuple) (d : track_dict) : track_dict :=
  match d with
  | [] => [(k, v)]
  | (k', v') :: rest =>
      if pyval_eqb k k' then (k', v) :: rest else (k', v') :: dict_set k v rest
  end.

Definition dict_values (d : track_dict) : list pytuple := map snd d.

(** One iteration of [for track in tracks].  Unpacking a tuple of more than
    five fields raises [ValueError]. *)
Definition dedup_step (d : track_dict) (track : pytuple) : result track_dict :=
  if (List.length track <? 5)%nat then Ok d
  else
    match track with
    | [_; name; release_date; _; _] =>
        match dict_lookup name d with
        | None => Ok (dict_set name track d)
        | Some current =>
            (do current_date <- tuple_index current 2;
             do newer <- py_gt release_date current_date;
             Ok (if newer then dict_set name track d else d))%result
        end
    | _ => Raise ValueError
    end.

Fixpoint dedup_loop (tracks : list pytuple) (d : track_dict) : result track_dict :=
  match tracks with
  | [] => Ok d
  | track :: rest =>
      match dedup_step d track with
      | Ok d' => dedup_loop rest d'
      | Raise e => Raise e
      end
  end.

Definition deduplicate_track_list (tracks : list pytuple) : result (list pytuple) :=
  (do d <- dedup_loop tracks [];
   sort_by_release_date false (dict_values d))%result.

(* ================================================================== *)
(** * The provider client, as the synchronizer uses it *)

(** A paging object: the items of one page and what its [next] link leads
    to.  [LastPage] has [next] unset; [sp.next] on a [MorePages] answers with
    the following page, and on a [BrokenLink] it raises.  An item stands for
    [item['track']['id']]. *)
Inductive paging : Type :=
| LastPage (items : list pyval)
| MorePages (items : list pyval) (rest : paging)
| BrokenLink (items : list pyval) (e : exn).

Definition page_items (p : paging) : list pyval :=
  match p with
  | LastPage items | MorePages items _ | BrokenLink items _ => items
  end.

(** The calls a run issues to the provider, in order. *)
Inductive call : Type :=
| CallPlaylistTracks (playlist_id : pyval)
| CallNext
| CallRemove (playlist_id : pyval) (ids : list pyval)
| CallAdd (playlist_id : pyval) (ids : list pyval) (position : Z).

Definition is_mutation (c : call) : bool :=
  match c with
  | CallRemove _ _ | CallAdd _ _ _ => true
  | CallPlaylistTracks _ | CallNext => false
  end.

(** The client over a provider state [St]: each method answers or raises and
    leaves a new provider state. *)
Record client (St : Type) : Type := {
  playlist_tracks : pyval -> St -> result paging * St;
  playlist_remove_all_occurrences_of_items :
    pyval -> list pyval -> St -> result unit * St;
  playlist_add_items : pyval -> list pyval -> Z -> St -> result unit * St
}.
Arguments playlist_tracks {St} _ _ _.
Arguments playlist_remove_all_occurrences_of_items {St} _ _ _ _.
Arguments playlist_add_items {St} _ _ _ _ _.

(** A program over the provider: it threads the provider state and the log
    of the calls issued so far; both survive an exception. *)
Definition prog (St A : Type) : Type :=
  St * list call -> result A * (St * list call).

Definition ret {St A} (a : A) : prog St A := fun w => (Ok a, w).

Definition raise {St A} (e : exn) : prog St A := fun w => (Raise e, w).

Definition bind {St A B} (m : prog St A) (k : A -> prog St B) : prog St B :=
  fun w =>
    match m w with
    | (Ok a, w') => k a w'
    | (Raise e, w') => (Raise e, w')
    end.

Definition lift {St A} (r : result A) : prog St A := fun w => (r, w).

Declare Scope prog_scope.
Delimit Scope prog_scope with prog.
Notation "x <- m ;; k" := (bind m (fun x => k))
  (at level 61, m at next level, right associativity) : prog_scope.
Notation "m ;; k" := (bind m (fun _ => k))
  (at level 61, right associativity) : prog_scope.

Definition issue {St A} (c : call) (op : St -> result A * St) : prog St A :=
  fun w =>
    let '(s, log) := w in
    let '(r, s') := op s in
    (r, (s', log ++ [c])).

Definition sp_playlist_tracks {St} (sp : client St) (playlist_id : pyval)
  : prog St paging :=
  issue (CallPlaylistTracks playlist_id) (playlist_tracks sp playlist_id).

(** [sp.next(results)], called only when [results['next']] is set. *)
Definition sp_next {St} (results : paging) : prog St paging :=
  issue CallNext
        (fun s =>
           match results with
           | LastPage _ => (Raise SpotifyException, s)
           | MorePages _ rest => (Ok rest, s)
           | BrokenLink _ e => (Raise e, s)
           end).

Definition sp_remove {St} (sp : client St) (playlist_id : pyval)
    (ids : list pyval) : prog St unit :=
  issue (CallRemove playlist_id ids)
        (playlist_remove_all_occurrences_of_items sp playlist_id ids).

Definition sp_add {St} (sp : client St) (playlist_id : pyval)
    (ids : list pyval) (position : Z) : prog St unit :=
  issue (CallAdd playlist_id ids position)
        (playlist_add_items sp playlist_id ids position).

(* ================================================================== *)
(** * [get_playlist_tracks] and [update_playlists] *)

(** Truth value of a playlist id: [None] and the empty string are false. *)
Definition truthy (v : pyval) : bool :=
  match v with
  | PNone => false
  | PStr EmptyString => false
  | PStr (String _ _) => true
  end.

(** [while results['next']: results = sp.next(results); tracks.extend(...)]. *)
Fixpoint drain_pages {St} (results : paging) (tracks : list pyval)
  : prog St (list pyval) :=
  match results with
  | LastPage _ => ret tracks
  | MorePages _ rest =>
      (results' <- sp_next results ;;
       drain_pages rest (tracks ++ page_items results'))%prog
  | BrokenLink _ e =>
      (results' <- sp_next results ;;
       ret (tracks ++ page_items results'))%prog
  end.

Definition get_playlist_tracks {St} (sp : client St) (playlist_id : pyval)
  : prog St (list pyval) :=
  if negb (truthy playlist_id) then raise ValueError
  else
    (results <- sp_playlist_tracks sp playlist_id ;;
     drain_pages results (page_items results))%prog.

Record config : Type := {
  rr_playlist_id : pyval;
  all_playlist_id : pyval;
  dry_run : bool
}.

(** [[track for track in tracks if track[0] not in existing]]. *)
Definition new_tracks (tracks : list pytuple) (existing : list pyval)
  : result (list pytuple) :=
  filter_result
    (fun track => (do id <- tuple_index track 0; Ok (negb (py_in id existing)))%result)
    tracks.

(** [[track[0] for track in tracks]]. *)
Definition track_ids (tracks : list pytuple) : result (list pyval) :=
  map_result (fun track => tuple_index track 0) tracks.

(** [[id for id in existing if id not in [track[0] for track in tracks]]]. *)
Definition old_track_ids (existing : list pyval) (tracks : list pytuple)
  : result (list pyval) :=
  filter_result
    (fun id => (do ids <- track_ids tracks; Ok (negb (py_in id ids)))%result)
    existing.

(** [range(0, stop, step)] for a positive step. *)
Definition py_range (stop step : nat) : list nat :=
  map (fun k => (k * step)%nat) (seq 0 ((stop + step - 1) / step)).

(** [l[i:j]]. *)
Definition slice {A} (l : list A) (i j : nat) : list A :=
  firstn (j - i) (skipn i l).

Fixpoint for_each {St A} (l : list A) (body : A -> prog St unit) : prog St unit :=
  match l with
  | [] => ret tt
  | x :: xs => (body x ;; for_each xs body)%prog
  end.

(** The batch size of the addition loop. *)
Definition BATCH : nat := 50.

(** [update_playlists(sp, config, rr_playlist_tracks, all_playlist_tracks)].
    The recent playlist is read with one call to [sp.playlist_tracks], whose
    answer is the first page; the yearly playlist with [get_playlist_tracks]. *)
Definition update_playlists {St} (sp : client St) (cfg : config)
    (rr_playlist_tracks all_playlist_tracks : list pytuple)
  : prog St (list pytuple * list pytuple) :=
  (results <- sp_playlist_tracks sp (rr_playlist_id cfg) ;;
   let existing_rr_playlist_tracks := page_items results in
   existing_all_playlist_tracks <- get_playlist_tracks sp (all_playlist_id cfg) ;;
   new_rr_tracks <- lift (new_tracks rr_playlist_tracks existing_rr_playlist_tracks) ;;
   new_all_tracks <- lift (new_tracks all_playlist_tracks existing_all_playlist_tracks) ;;
   if dry_run cfg then ret (new_rr_tracks, new_all_tracks)
   else
     old_rr_track_ids <-
       lift (old_track_ids existing_rr_playlist_tracks rr_playlist_tracks) ;;
     match old_rr_track_ids with
     | [] => ret tt
     | _ :: _ => sp_remove sp (rr_playlist_id cfg) old_rr_track_ids
     end ;;
     match new_rr_tracks with
     | [] => ret tt
     | _ :: _ =>
         ids <- lift (track_ids new_rr_tracks) ;;
         sp_add sp (rr_playlist_id cfg) ids 0
     end ;;
     match new_all_tracks with
     | [] => ret tt
     | _ :: _ =>
         for_each (py_range (List.length new_all_tracks) BATCH)
                  (fun i =>
                     ids <- lift (track_ids (slice new_all_tracks i (i + BATCH))) ;;
                     sp_add sp (all_playlist_id cfg) ids 0)
     end ;;
     ret (new_rr_tracks, new_all_tracks))%prog.

Definition run {St A} (m : prog St A) (s : St) : result A * (St * list call) :=
  m (s, []).

(* ================================================================== *)
(** * An in-memory provider

    The playlists of the provider as a table from playlist id to the ids of
    the tracks stored, read back in pages of [limit] items. *)

Definition store := list (pyval * list pyval).

Fixpoint store_lookup (playlist_id : pyval) (s : store) : option (list pyval) :=
  match s with
  | [] => None
  | (k, v) :: rest =>
      if pyval_eqb playlist_id k then Some v else store_lookup playlist_id rest
  end.

Fixpoint store_update (playlist_id : pyval) (f : list pyval -> list pyval)
    (s : store) : store :=
  match s with
  | [] => []
  | (k, v) :: rest =>
      if pyval_eqb playlist_id k then (k, f v) :: rest
      else (k, v) :: store_update playlist_id f rest
  end.

Fixpoint pages_of (chunks : list (list pyval)) : paging :=
  match chunks with
  | [] => LastPage []
  | [c] => LastPage c
  | c :: cs => MorePages c (pages_of cs)
  end.

Definition paginate (limit : nat) (l : list pyval) : paging :=
  pages_of (map (fun i => slice l i (i + limit)) (py_range (List.length l) limit)).

(** The page size of [sp.playlist_tracks] when no [limit] is passed. *)
Definition PAGE_LIMIT : nat := 100.

Definition mem_client (limit : nat) : client store := {|
  playlist_tracks := fun playlist_id s =>
    match store_lookup playlist_id s with
    | Some l => (Ok (paginate limit l), s)
    | None => (Raise SpotifyException, s)
    end;
  playlist_remove_all_occurrences_of_items := fun playlist_id ids s =>
    match store_lookup playlist_id s with
    | Some _ =>
        (Ok tt, store_update playlist_id (filter (fun x => negb (py_in x ids))) s)
    | None => (Raise SpotifyException, s)
    end;
  playlist_add_items := fun playlist_id ids position s =>
    match store_lookup playlist_id s with
    | Some _ =>
        (Ok tt,
         store_update playlist_id
           (fun l => firstn (Z.to_nat position) l ++ ids
                     ++ skipn (Z.to_nat position) l) s)
    | None => (Raise SpotifyException, s)
    end
|}.

(* ================================================================== *)
(** * Collecting the tracks of the roster: [collect_tracks] *)

(** One iteration of [for artist in artists].  An artist whose
    ['spotify_id'] is absent, [None] or empty is skipped; any exception of
    [get_recent_track] is caught and the artist contributes nothing.  The
    state is the pair of [all_playlist_tracks] and [rr_playlist_tracks]. *)
Definition collect_step (parse_str : str_parser) (sp : catalog) (today : date)
    (n_days_ago : Z) (st : list pytuple * list pytuple) (art : artist)
  : list pytuple * list pytuple :=
  let '(all_playlist_tracks, rr_playlist_tracks) := st in
  if negb (truthy (dict_get (artist_spotify_id art))) then st
  else
    match get_recent_track parse_str sp today art n_days_ago with
    | Ok (all_tracks, recent_track) =>
        let rr_playlist_tracks :=
          match recent_track with
          | Some t =>
              if truthy_track recent_track then rr_playlist_tracks ++ [t]
              else rr_playlist_tracks
          | None => rr_playlist_tracks
          end in
        (all_playlist_tracks ++ all_tracks, rr_playlist_tracks)
    | Raise _ => st
    end.

(** [collect_tracks(sp, artists, n_days_ago)], run on the day [today].  It
    returns [rr_playlist_tracks] first and [all_playlist_tracks] second; the
    two sorts and the deduplication stand outside the [try]. *)
Definition collect_tracks (parse_str : str_parser) (sp : catalog) (today : date)
    (artists : list artist) (n_days_ago : Z)
  : result (list pytuple * list pytuple) :=
  let '(all_playlist_tracks, rr_playlist_tracks) :=
    fold_left (collect_step parse_str sp today n_days_ago) artists ([], []) in
  (do rr_playlist_tracks <- sort_by_release_date true rr_playlist_tracks;
   do all_playlist_tracks <- sort_by_release_date true all_playlist_tracks;
   do all_playlist_tracks <- deduplicate_track_list all_playlist_tracks;
   Ok (rr_playlist_tracks, all_playlist_tracks))%result.

(* ================================================================== *)
(** * Configuration and roster: [get_config] and [load_artists] *)

(** The process environment: [os.environ.get(name)] is [None] for a variable
    that is not set. *)
Definition environ := string -> option string.

Definition environ_get (env : environ) (name : string) : pyval :=
  match env name with
  | Some s => PStr s
  | None => PNone
  end.

(** The value of ['exclude_ai']: [os.environ.get('EXCLUDE_AI', True)] is the
    string of the variable when it is set and [True] otherwise. *)
Inductive flag : Type :=
| FlagTrue
| FlagStr (s : string).

(** Truth value of a flag: only the empty string is false. *)
Definition truthy_flag (f : flag) : bool :=
  match f with
  | FlagTrue => true
  | FlagStr EmptyString => false
  | FlagStr (String _ _) => true
  end.

(** The configuration dictionary.  The keys [update_playlists] reads are the
    record [config]. *)
Record settings : Type := {
  client_id : pyval;
  client_secret : pyval;
  n_days_ago : Z;
  artists_file : string;
  exclude_ai : flag;
  playlists : config
}.

(** How a start-up function ends: with a value, with [exit(code)], or with an
    exception. *)
Inductive startup (A : Type) : Type :=
| Started (a : A)
| Exit (code : Z)
| Crash (e : exn).
Arguments Started {A} a.
Arguments Exit {A} code.
Arguments Crash {A} e.

(** [get_config(args)].  [int_of_str] stands for the builtin [int] on a
    string: the number it denotes, or [ValueError].  The dictionary is built
    first, so that a malformed [DAYS_LOOKBACK] raises before anything is
    checked; then the keys whose value is [None] are collected, ['dry_run']
    apart, and a non-empty list ends the process with [exit(1)]. *)
Definition get_config (int_of_str : string -> result Z) (env : environ)
    (args_dry_run : bool) : startup settings :=
  match (match env "DAYS_LOOKBACK" with
         | Some s => int_of_str s
         | None => Ok 13
         end) with
  | Raise e => Crash e
  | Ok lookback =>
      let cfg := {|
        client_id := environ_get env "SPOTIFY_CLIENT_ID";
        client_secret := environ_get env "SPOTIFY_CLIENT_SECRET";
        n_days_ago := lookback;
        artists_file :=
          match env "ARTISTS_FILE" with
          | Some s => s
          | None => "artists.json"
          end;
        exclude_ai :=
          match env "EXCLUDE_AI" with
          | Some s => FlagStr s
          | None => FlagTrue
          end;
        playlists := {|
          rr_playlist_id := environ_get env "SPOTIFY_RR_PLAYLIST_ID";
          all_playlist_id := environ_get env "SPOTIFY_ALL_PLAYLIST_ID";
          dry_run := args_dry_run
        |}
      |} in
      let items :=
        [("client_id", is_none (client_id cfg));
         ("client_secret", is_none (client_secret cfg));
         ("rr_playlist_id", is_none (rr_playlist_id (playlists cfg)));
         ("all_playlist_id", is_none (all_playlist_id (playlists cfg)));
         ("n_days_ago", false);
         ("artists_file", false);
         ("dry_run", false);
         ("exclude_ai", false)] in
      let missing_config :=
        map fst
            (filter (fun kv => snd kv && negb (String.eqb (fst kv) "dry_run"))
                    items) in
      match missing_config with
      | [] => Started cfg
      | _ :: _ => Exit 1
      end
  end.

(** An entry of the artists file: the keys the fetcher reads, and
    ['ai_usage'] (absent is [None] here). *)
Record roster_entry : Type := {
  entry : artist;
  ai_usage : option pyval
}.

(** What opening and decoding the artists file gives. *)
Inductive file_outcome : Type :=
| JsonList (entries : list roster_entry)
| FileNotFoundError
| JSONDecodeError.

(** [not artist.get('ai_usage') or artist['ai_usage'] != 'heavy']. *)
Definition light_ai (e : roster_entry) : bool :=
  negb (truthy (dict_get (ai_usage e)))
  || negb (pyval_eqb (dict_get (ai_usage e)) (PStr "heavy")).

(** [load_artists(file_path, exclude_ai)], over a file system that answers
    [read_json file_path]. *)
Definition load_artists (read_json : string -> file_outcome)
    (file_path : string) (exclude : flag) : startup (list roster_entry) :=
  match read_json file_path with
  | JsonList artists =>
      Started (if truthy_flag exclude then filter light_ai artists else artists)
  | FileNotFoundError => Exit 1
  | JSONDecodeError => Exit 1
  end.

(* ================================================================== *)
(** * Vocabulary of the properties *)

(** A tuple whose third field is a string. *)
Definition has_date_string (t : pytuple) : Prop :=
  exists s, nth_error t 2 = Some (PStr s).

(** The name and the release date of a track tuple. *)
Definition track_name (t : pytuple) : pyval := nth 1 t PNone.
Definition track_date (t : pytuple) : pyval := nth 2 t PNone.

(** A well-formed track record: five fields, the release date a string. *)
Definition well_formed (t : pytuple) : bool :=
  match t with
  | [_; _; PStr _; _; _] => true
  | _ => false
  end.

(** The records [deduplicate_track_list] is declared for: tuples of at most
    five fields, those of five fields well formed. *)
Definition track_record (t : pytuple) : bool :=
  (List.length t <? 5)%nat || well_formed t.

(** [a] is released strictly later than [b], by the comparison of the code. *)
Definition released_after (a b : pytuple) : Prop :=
  py_gt (track_date a) (track_date b) = Ok true.

(** [a] is released no later than [b]. *)
Definition released_no_later (a b : pytuple) : Prop :=
  py_gt (track_date a) (track_date b) = Ok false.

(** [r] is, among the well-formed records of [tracks] that share its name,
    the first one that carries the latest release date. *)
Definition first_latest (r : pytuple) (tracks : list pytuple) : Prop :=
  exists before after,
    tracks = before ++ r :: after
    /\ (forall u, In u before -> well_formed u = true ->
                  track_name u = track_name r -> released_after r u)
    /\ (forall u, In u after -> well_formed u = true ->
                  track_name u = track_name r -> released_no_later u r).

Definition window_eqb (a b : window) : bool :=
  match a, b with
  | Recent, Recent | YearToDate, YearToDate | Ignored, Ignored => true
  | _, _ => false
  end.

(** The track tuples a release yields: those of its listing, none when the
    listing fails. *)
Definition release_tracks (sp : catalog) (art : artist) (al : album)
  : list pytuple :=
  match album_tracks sp (album_id al) with
  | Ok tracks => map (track_info art al) tracks
  | Raise _ => []
  end.

(** The window of a release, when its date parses. *)
Definition release_window (parse_str : str_parser)
    (today day_n_days_ago beginning_of_year : date) (al : album) : option window :=
  match parse_release_date parse_str (album_release_date al) with
  | Ok d => Some (classify today day_n_days_ago beginning_of_year d)
  | Raise _ => None
  end.

(** The tracks of the releases of window [w], in the provider's order. *)
Definition tracks_in_window (w : window) (parse_str : str_parser) (sp : catalog)
    (art : artist) (today day_n_days_ago beginning_of_year : date)
    (albums : list album) : list pytuple :=
  flat_map
    (fun al =>
       match release_window parse_str today day_n_days_ago beginning_of_year al with
       | Some w' => if window_eqb w w' then release_tracks sp art al else []
       | None => []
       end)
    albums.

(** Every tuple the fetcher emits for the releases of the year, recent or
    not, in the provider's order. *)
Definition emitted_tracks (parse_str : str_parser) (sp : catalog)
    (art : artist) (today day_n_days_ago beginning_of_year : date)
    (albums : list album) : list pytuple :=
  flat_map
    (fun al =>
       match release_window parse_str today day_n_days_ago beginning_of_year al with
       | Some Recent | Some YearToDate => release_tracks sp art al
       | Some Ignored | None => []
       end)
    albums.

(** The latest track after more candidates have been met: the one already
    held when there is one, else the first candidate. *)
Definition first_candidate (held : option pytuple) (candidates : list pytuple)
  : option pytuple :=
  if truthy_track held then held
  else match candidates with
       | [] => held
       | t :: _ => Some t
       end.

(** The release's date parses, or the parser raises the one exception the
    loop catches, [TypeError]. *)
Definition date_parses_or_is_skipped (parse_str : str_parser) (al : album) : Prop :=
  forall e, parse_release_date parse_str (album_release_date al) = Raise e ->
            e = TypeError.

(** What the loop of the deduplicator maintains between the records met so
    far and the dictionary: the keys are distinct, each entry is a well-formed
    record filed under its name that is first and latest among the records
    met, and each well-formed record met has its name among the keys. *)
Definition dedup_invariant (met : list pytuple) (d : track_dict) : Prop :=
  NoDup (map fst d)
  /\ (forall k v, In (k, v) d ->
        well_formed v = true /\ track_name v = k /\ first_latest v met)
  /\ (forall t, In t met -> well_formed t = true ->
        In (track_name t) (map fst d)).

(** The exception the paging runs into, if any, when every [next] link is
    followed. *)
Fixpoint page_failure (p : paging) : option exn :=
  match p with
  | LastPage _ => None
  | MorePages _ rest => page_failure rest
  | BrokenLink _ e => Some e
  end.

(** The items of the pages after the first one. *)
Fixpoint later_items (p : paging) : list pyval :=
  match p with
  | LastPage _ => []
  | MorePages _ rest => page_items rest ++ later_items rest
  | BrokenLink _ _ => []
  end.

(** The items of every page, in order. *)
Definition all_items (p : paging) : list pyval := page_items p ++ later_items p.

(** The number of [next] links followed to drain the paging. *)
Fixpoint page_links (p : paging) : nat :=
  match p with
  | LastPage _ => 0
  | MorePages _ rest => S (page_links rest)
  | BrokenLink _ _ => 1
  end.

(** The calls that only read. *)
Definition reads_only (log : list call) : Prop :=
  Forall (fun c => is_mutation c = false) log.

(** The calls whose additions stay within the batch size. *)
Definition within_batch (c : call) : Prop :=
  match c with
  | CallAdd _ ids _ => (List.length ids <= BATCH)%nat
  | _ => True
  end.

(** [track[0] not in existing], for a track that has a first field. *)
Definition absent_from (existing : list pyval) (track : pytuple) : bool :=
  negb (py_in (hd PNone track) existing).

(** Every id of [to_remove] can be read off the value [out] that
    [update_playlists] returns. *)
Definition returns_removals (out : list pytuple * list pytuple)
    (to_remove : list pyval) : Prop :=
  forall id, In id to_remove ->
             exists t, In t (fst out ++ snd out) /\ In id t.

(** [m] only appends to the log, and every call it appends satisfies [Q]. *)
Definition issues {St A} (Q : call -> Prop) (m : prog St A) : Prop :=
  forall s log, exists extra,
    snd (snd (m (s, log))) = log ++ extra /\ Forall Q extra.

(** In the order of the sort, a key [a] may stand before a key [b]: [b] is
    not strictly before [a]. *)
Definition may_precede (reverse : bool) (a b : pyval) : Prop :=
  key_before reverse b a = false.

(** Every record is released no later than every record after it. *)
Definition oldest_first (l : list pytuple) : Prop :=
  StronglySorted released_no_later l.

(** Every record is released no earlier than every record after it. *)
Definition newest_first (l : list pytuple) : Prop :=
  StronglySorted (fun a b => released_no_later b a) l.

(** A release that adds nothing to the fetch: its date is [None], or it is
    outside both windows, or its track listing fails or is empty. *)
Definition silent_release (parse_str : str_parser) (sp : catalog)
    (today day_n_days_ago beginning_of_year : date) (al : album) : Prop :=
  parse_release_date parse_str (album_release_date al) = Raise TypeError
  \/ exists d,
       parse_release_date parse_str (album_release_date al) = Ok d
       /\ (classify today day_n_days_ago beginning_of_year d = Ignored
           \/ album_tracks sp (album_id al) = Ok []
           \/ exists e, album_tracks sp (album_id al) = Raise e).

(** The catalog [sp] with another list of releases for every artist. *)
Definition with_albums (sp : catalog) (albums : list album) : catalog := {|
  artist_albums := fun _ => Ok albums;
  album_tracks := album_tracks sp
|}.

(** What an artist of the roster brings to [collect_tracks]: the result of
    the fetch when the artist has a usable id and the fetch returns. *)
Definition fetch_of (parse_str : str_parser) (sp : catalog) (today : date)
    (n_days_ago : Z) (art : artist) : option (list pytuple * option pytuple) :=
  if truthy (dict_get (artist_spotify_id art)) then
    match get_recent_track parse_str sp today art n_days_ago with
    | Ok r => Some r
    | Raise _ => None
    end
  else None.

Definition contributes (parse_str : str_parser) (sp : catalog) (today : date)
    (n_days_ago : Z) (art : artist) : bool :=
  match fetch_of parse_str sp today n_days_ago art with
  | Some _ => true
  | None => false
  end.

(** The tracks of the year of the whole roster, artist after artist. *)
Definition collected_all (parse_str : str_parser) (sp : catalog) (today : date)
    (n_days_ago : Z) (artists : list artist) : list pytuple :=
  flat_map
    (fun art =>
       match fetch_of parse_str sp today n_days_ago art with
       | Some (all_tracks, _) => all_tracks
       | None => []
       end)
    artists.

(** The latest tracks of the roster, artist after artist. *)
Definition collected_latest (parse_str : str_parser) (sp : catalog)
    (today : date) (n_days_ago : Z) (artists : list artist) : list pytuple :=
  flat_map
    (fun art =>
       match fetch_of parse_str sp today n_days_ago art with
       | Some (_, Some t) => if truthy_track (Some t) then [t] else []
       | Some (_, None) | None => []
       end)
    artists.

(** [m] only appends to the log, and what it appends satisfies [P]. *)
Definition emits {St A} (P : list call -> Prop) (m : prog St A) : Prop :=
  forall s log, exists extra,
    snd (snd (m (s, log))) = log ++ extra /\ P extra.

(** At most one call, of the given kind. *)
Definition at_most_one (kind : call -> Prop) (l : list call) : Prop :=
  l = [] \/ exists c, l = [c] /\ kind c.

(** A removal from playlist [playlist_id]. *)
Definition removal_from (playlist_id : pyval) (c : call) : Prop :=
  exists ids, c = CallRemove playlist_id ids.

(** An addition at the head of playlist [playlist_id]. *)
Definition addition_to (playlist_id : pyval) (c : call) : Prop :=
  exists ids, c = CallAdd playlist_id ids 0.

(** An addition at the head of playlist [playlist_id] of at most [BATCH]
    ids. *)
Definition batch_to (playlist_id : pyval) (c : call) : Prop :=
  exists ids, c = CallAdd playlist_id ids 0 /\ (List.length ids <= BATCH)%nat.

(** The shape of the log of a run: the reads, then at most one removal from
    the recent playlist, then at most one addition to it, then the batches
    for the yearly playlist. *)
Definition run_log (cfg : config) (log : list call) : Prop :=
  exists reads removal recent_addition batches,
    log = reads ++ removal ++ recent_addition ++ batches
    /\ reads_only reads
    /\ at_most_one (removal_from (rr_playlist_id cfg)) removal
    /\ at_most_one (addition_to (rr_playlist_id cfg)) recent_addition
    /\ Forall (batch_to (all_playlist_id cfg)) batches.

(** The in-memory provider for a client that may read and not write: both
    mutations raise. *)
Definition read_only_client (limit : nat) : client store := {|
  playlist_tracks := playlist_tracks (mem_client limit);
  playlist_remove_all_occurrences_of_items := fun _ _ s =>
    (Raise SpotifyException, s);
  playlist_add_items := fun _ _ _ s => (Raise SpotifyException, s)
|}.

(** The batches of the addition loop: [l[0:50]], [l[50:100]], ... *)
Definition batches {A} (l : list A) : list (list A) :=
  map (fun i => slice l i (i + BATCH)) (py_range (List.length l) BATCH).

(** The day a provider date string stands for when a missing month or day is
    read as the 1st: the reading of the specification, to compare with what
    [dateutil_parse_str] does. *)
Definition spec_release_day (s : string) : option date :=
  match tokenize s with
  | Some (YearOnly y) => Some (ymd2ord y 1 1)
  | Some (YearMonth y m) => Some (ymd2ord y m 1)
  | Some (YearMonthDay y m d) => Some (ymd2ord y m d)
  | None => None
  end.

(** A parser that reads the provider's strings that way. *)
Definition spec_parse_str : str_parser :=
  fun s =>
    match spec_release_day s with
    | Some d => Ok d
    | None => Raise ParserError
    end.

(** ** Sample data *)

Definition sample_today : date := ymd2ord 2024 6 20.

Definition sample_artist : artist := {|
  artist_spotify_id := Some (PStr "artist-1");
  artist_name := Some (PStr "Ada");
  artist_threads := Some (PStr "ada.music")
|}.

Definition sample_album (id release_date : string) : album := {|
  album_id := PStr id;
  album_name := PStr id;
  album_release_date := PStr release_date
|}.

(** In the provider's order: a release of February, two releases of the last
    days (the older of the two first), and a release of last year. *)
Definition sample_albums : list album :=
  [sample_album "winter" "2024-02-10";
   sample_album "june-a" "2024-06-10";
   sample_album "june-b" "2024-06-18";
   sample_album "past" "2023-05-05"].

(** A catalog that lists [albums] for every artist and two tracks for every
    album. *)
Definition sample_catalog (albums : list album) : catalog := {|
  artist_albums := fun _ => Ok albums;
  album_tracks := fun id =>
    match id with
    | PStr s =>
        Ok [ {| item_id := PStr (s ++ "/1"); item_name := PStr (s ++ " one") |};
             {| item_id := PStr (s ++ "/2"); item_name := PStr (s ++ " two") |} ]
    | PNone => Raise SpotifyException
    end
|}.

Definition sample_track (id name release_date : string) : pytuple :=
  [PStr id; PStr name; PStr release_date; PStr "ada.music"; PStr "Ada"].

(** Two releases of one song, a record cut short, a second song, and a
    re-release of the first song on the date of its latest release. *)
Definition sample_tracks : list pytuple :=
  [sample_track "id1" "Song A" "2024-05-01";
   sample_track "id2" "Song A" "2024-06-01";
   [PStr "id3"; PStr "Song A"];
   sample_track "id4" "Song B" "2024-03-15";
   sample_track "id5" "Song A" "2024-06-01"].

Definition digit_char (n : nat) : ascii := ascii_of_nat (48 + n).

(** Track ids ["t000"], ["t001"], ... *)
Definition numbered_id (k : nat) : string :=
  String "t" (String (digit_char (k / 100))
    (String (digit_char (k / 10 mod 10)) (String (digit_char (k mod 10)) ""))).

Definition numbered_track (k : nat) : pytuple :=
  sample_track (numbered_id k) (numbered_id k) "2024-06-10".

Definition numbered_tracks (first count : nat) : list pytuple :=
  map numbered_track (seq first count).

Definition numbered_ids (first count : nat) : list pyval :=
  map (fun k => PStr (numbered_id k)) (seq first count).

Definition sample_config (dry : bool) : config := {|
  rr_playlist_id := PStr "recent";
  all_playlist_id := PStr "year";
  dry_run := dry
|}.

(** A provider that holds the two playlists of [sample_config]. *)
Definition sample_store (recent year : list pyval) : store :=
  [(PStr "recent", recent); (PStr "year", year)].

(** An environment given by the list of its variables. *)
Fixpoint environ_of (vars : list (string * string)) : environ :=
  fun name =>
    match vars with
    | [] => None
    | (k, v) :: rest =>
        if String.eqb name k then Some v else environ_of rest name
    end.

(** The four required variables set, and [EXCLUDE_AI] set to ["false"]. *)
Definition sample_environ : environ :=
  environ_of
    [("SPOTIFY_CLIENT_ID", "client"); ("SPOTIFY_CLIENT_SECRET", "secret");
     ("SPOTIFY_RR_PLAYLIST_ID", "recent"); ("SPOTIFY_ALL_PLAYLIST_ID", "year");
     ("EXCLUDE_AI", "false")].

(** A stand-in for [int] on the strings used below. *)
Definition sample_int (s : string) : result Z :=
  if String.eqb s "7" then Ok 7 else Raise ValueError.

Definition sample_entry (name : string) (usage : option pyval) : roster_entry := {|
  entry := {| artist_spotify_id := Some (PStr name);
              artist_name := Some (PStr name);
              artist_threads := None |};
  ai_usage := usage
|}.

Definition sample_roster : list roster_entry :=
  [sample_entry "a" None;
   sample_entry "b" (Some (PStr "heavy"));
   sample_entry "c" (Some (PStr "light"));
   sample_entry "d" (Some PNone);
   sample_entry "e" (Some (PStr ""))].

(* ================================================================== *)
(** * Properties *)

(** ** Values and the order on strings *)

Lemma pyval_eqb_eq (a b : pyval) : pyval_eqb a b = true <-> a = b.
Proof.
  destruct a as [|x], b as [|y]; simpl; split; intro H;
    try reflexivity; try discriminate.
  - apply String.eqb_eq in H. now subst.
  - injection H as ->. apply String.eqb_refl.
Qed.

Lemma pyval_eqb_refl (a : pyval) : pyval_eqb a a = true.
Proof. now apply pyval_eqb_eq. Qed.

Lemma pyval_eqb_neq (a b : pyval) : pyval_eqb a b = false <-> a <> b.
Proof.
  split.
  - intros H E. apply pyval_eqb_eq in E. congruence.
  - intro H. destruct (pyval_eqb a b) eqn:E; [|reflexivity].
    apply pyval_eqb_eq in E. contradiction.
Qed.

Lemma py_in_In (x : pyval) (l : list pyval) : py_in x l = true <-> In x l.
Proof.
  unfold py_in. rewrite existsb_exists. split.
  - intros [y [Hy E]]. apply pyval_eqb_eq in E. now subst.
  - intro H. exists x. split; [assumption | apply pyval_eqb_refl].
Qed.

Lemma string_ltb_lt (x y : string) :
  String.ltb x y = true <-> String_as_OT.lt x y.
Proof.
  unfold String.ltb. rewrite <- String_as_OT.cmp_lt. unfold String_as_OT.cmp.
  destruct (String.compare x y); split; intro H; congruence.
Qed.

Lemma string_ltb_irrefl (x : string) : String.ltb x x = false.
Proof.
  destruct (String.ltb x x) eqn:E; [|reflexivity].
  apply string_ltb_lt in E. exfalso.
  now apply (String_as_OT.lt_not_eq _ _ E).
Qed.

Lemma string_ltb_trans (x y z : string) :
  String.ltb x y = true -> String.ltb y z = true -> String.ltb x z = true.
Proof.
  rewrite !string_ltb_lt. apply String_as_OT.lt_trans.
Qed.

(** [x <= y] and [y < z] give [x < z], with [x <= y] read as "not [y < x]". *)
Lemma string_le_lt_trans (x y z : string) :
  String.ltb y x = false -> String.ltb y z = true -> String.ltb x z = true.
Proof.
  intros Hle Hlt.
  destruct (String.compare x y) eqn:C.
  - apply String.compare_eq_iff in C. now subst.
  - apply string_ltb_trans with y; [|assumption].
    unfold String.ltb. now rewrite C.
  - exfalso. unfold String.ltb in Hle.
    rewrite String.compare_antisym, C in Hle. discriminate.
Qed.

(** ** The window partition (C4) *)

Lemma date_sub_days_ok (today n r : Z) :
  date_sub_days today n = Ok r -> r = today - n.
Proof.
  unfold date_sub_days.
  destruct (_ && _); intro H; [now injection H | discriminate].
Qed.

(** C4.  With a lookback of [n >= 0] days, [recentStart = today - n] and
    [yearStart] January 1 of today's year, the fetcher's test puts a release
    dated [d] in exactly one of three classes: recent iff
    [recentStart <= d <= today], year-to-date-not-recent iff
    [yearStart <= d < recentStart], ignored otherwise. *)
Theorem window_partition (today n recentStart d : Z) :
  0 <= n ->
  date_sub_days today n = Ok recentStart ->
  let yearStart := first_day_of_year today in
  let w := classify today recentStart yearStart d in
  (w = Recent <-> recentStart <= d <= today)
  /\ (w = YearToDate <-> yearStart <= d < recentStart)
  /\ (w = Ignored <->
      ~ (recentStart <= d <= today) /\ ~ (yearStart <= d < recentStart)).
Proof.
  intros Hn Hsub yearStart w.
  apply date_sub_days_ok in Hsub.
  subst w. unfold classify.
  destruct (recentStart <=? d) eqn:E1; destruct (d <=? today) eqn:E2;
    destruct (yearStart <=? d) eqn:E3; destruct (d <=? recentStart) eqn:E4;
    simpl;
    rewrite ?Z.leb_le, ?Z.leb_gt in *;
    repeat split; intros; try discriminate; try lia.
Qed.

(** The example of the specification: today 2024-06-20, a lookback of 13
    days. *)
Lemma window_partition_witness :
  let today := ymd2ord 2024 6 20 in
  date_sub_days today 13 = Ok (ymd2ord 2024 6 7)
  /\ first_day_of_year today = ymd2ord 2024 1 1
  /\ classify today (ymd2ord 2024 6 7) (first_day_of_year today)
       (ymd2ord 2024 6 7) = Recent
  /\ classify today (ymd2ord 2024 6 7) (first_day_of_year today)
       (ymd2ord 2024 6 6) = YearToDate
  /\ classify today (ymd2ord 2024 6 7) (first_day_of_year today)
       (ymd2ord 2023 12 31) = Ignored.
Proof.
  assert (H0 : 0 <= 13) by lia.
  assert (Hs : date_sub_days (ymd2ord 2024 6 20) 13 = Ok (ymd2ord 2024 6 7))
    by reflexivity.
  split; [exact Hs|]. split; [reflexivity|].
  split; [|split].
  - apply (proj1 (window_partition (ymd2ord 2024 6 20) 13 (ymd2ord 2024 6 7)
                    (ymd2ord 2024 6 7) H0 Hs)).
    vm_compute. split; discriminate.
  - apply (proj1 (proj2 (window_partition (ymd2ord 2024 6 20) 13
                           (ymd2ord 2024 6 7) (ymd2ord 2024 6 6) H0 Hs))).
    vm_compute. split; [discriminate | reflexivity].
  - apply (proj2 (proj2 (window_partition (ymd2ord 2024 6 20) 13
                           (ymd2ord 2024 6 7) (ymd2ord 2023 12 31) H0 Hs))).
    vm_compute. split; intros [H1 H2]; [apply H1 | apply H1]; reflexivity.
Defined.

(** ** The sort by release date *)

Lemma map_result_length {A B} (f : A -> result B) (l : list A) (ys : list B) :
  map_result f l = Ok ys -> List.length ys = List.length l.
Proof.
  revert ys. induction l as [|x xs IH]; simpl; intros ys H.
  - injection H as <-. reflexivity.
  - destruct (f x) as [y|e]; simpl in H; [|discriminate].
    destruct (map_result f xs) as [zs|e]; simpl in H; [|discriminate].
    injection H as <-. simpl. f_equal. now apply IH.
Qed.

Lemma map_result_total {A B} (f : A -> result B) (g : A -> B) (l : list A) :
  Forall (fun x => f x = Ok (g x)) l -> map_result f l = Ok (map g l).
Proof.
  induction 1 as [|x xs Hx _ IH]; simpl; [reflexivity|].
  now rewrite Hx, IH.
Qed.

Lemma insert_by_key_perm (reverse : bool) (x : pyval * pytuple)
    (l : list (pyval * pytuple)) :
  Permutation (x :: l) (insert_by_key reverse x l).
Proof.
  induction l as [|y ys IH]; simpl; [apply Permutation_refl|].
  destruct (key_before reverse (fst y) (fst x)).
  - eapply perm_trans; [apply perm_swap|]. now apply perm_skip.
  - apply Permutation_refl.
Qed.

Lemma insertion_sort_perm (reverse : bool) (l : list (pyval * pytuple)) :
  Permutation l (fold_right (insert_by_key reverse) [] l).
Proof.
  induction l as [|x xs IH]; simpl; [apply perm_nil|].
  eapply perm_trans; [|apply insert_by_key_perm]. now apply perm_skip.
Qed.

Lemma map_snd_combine {A B} (ks : list A) (l : list B) :
  List.length ks = List.length l -> map snd (combine ks l) = l.
Proof.
  revert l. induction ks as [|k ks IH]; intros [|x l] H; simpl in *;
    try reflexivity; try discriminate.
  f_equal. apply IH. now injection H.
Qed.

(** Whenever the sort returns, its result is a rearrangement of its input. *)
Lemma sort_by_release_date_perm (reverse : bool) (l l' : list pytuple) :
  sort_by_release_date reverse l = Ok l' -> Permutation l l'.
Proof.
  unfold sort_by_release_date. intro H.
  destruct (map_result (fun t => tuple_index t 2) l) as [keys|e] eqn:K;
    simpl in H; [|discriminate].
  destruct (_ && _); [discriminate|]. injection H as <-.
  apply map_result_length in K.
  rewrite <- (map_snd_combine keys l K) at 1.
  apply Permutation_map, insertion_sort_perm.
Qed.

(** The sort returns when every tuple carries a date string. *)
Lemma sort_by_release_date_total (reverse : bool) (l : list pytuple) :
  Forall has_date_string l ->
  exists l', sort_by_release_date reverse l = Ok l'.
Proof.
  intro H. unfold sort_by_release_date.
  rewrite (map_result_total _ (fun t => nth 2 t PNone)).
  - simpl.
    assert (E : existsb is_none (map (fun t => nth 2 t PNone) l) = false).
    { induction H as [|t ts [s Hs] _ IH]; simpl; [reflexivity|].
      rewrite (nth_error_nth _ _ _ Hs). simpl. exact IH. }
    rewrite E, andb_false_r. eauto.
  - eapply Forall_impl; [|exact H]. intros t [s Hs]. unfold tuple_index.
    rewrite Hs. now rewrite (nth_error_nth _ _ _ Hs).
Qed.

(** ** The release fetcher (C9) *)

Lemma fold_recent_track_step (art : artist) (al : album)
    (tracks : list track_item) (all_tracks : list pytuple)
    (latest : option pytuple) :
  fold_left (recent_track_step art al) tracks (all_tracks, latest)
  = (all_tracks ++ map (track_info art al) tracks,
     first_candidate latest (map (track_info art al) tracks)).
Proof.
  revert all_tracks latest.
  induction tracks as [|t ts IH]; intros all_tracks latest; simpl.
  - rewrite app_nil_r. unfold first_candidate.
    now destruct (truthy_track latest).
  - rewrite IH, <- app_assoc. simpl. f_equal.
    unfold first_candidate.
    destruct (truthy_track latest) eqn:E; simpl; [now rewrite E|].
    now destruct ts.
Qed.

Lemma fold_year_track_step (art : artist) (al : album)
    (tracks : list track_item) (all_tracks : list pytuple)
    (latest : option pytuple) :
  fold_left (year_track_step art al) tracks (all_tracks, latest)
  = (all_tracks ++ map (track_info art al) tracks, latest).
Proof.
  revert all_tracks.
  induction tracks as [|t ts IH]; intros all_tracks; simpl.
  - now rewrite app_nil_r.
  - now rewrite IH, <- app_assoc.
Qed.

Lemma first_candidate_nil (held : option pytuple) :
  first_candidate held [] = held.
Proof. unfold first_candidate. now destruct (truthy_track held). Qed.

Lemma first_candidate_app (held : option pytuple) (c1 c2 : list pytuple) :
  Forall (fun t => t <> []) c1 ->
  first_candidate (first_candidate held c1) c2 = first_candidate held (c1 ++ c2).
Proof.
  intro H. unfold first_candidate at 2 3.
  destruct (truthy_track held) eqn:E.
  - unfold first_candidate. now rewrite E.
  - destruct c1 as [|t c1]; simpl.
    + unfold first_candidate. now rewrite E.
    + inversion H as [|? ? Ht _]; subst.
      unfold first_candidate. destruct t; [contradiction|reflexivity].
Qed.

Lemma release_tracks_nonempty (sp : catalog) (art : artist) (al : album) :
  Forall (fun t => t <> []) (release_tracks sp art al).
Proof.
  unfold release_tracks. destruct (album_tracks sp (album_id al)); [|constructor].
  apply Forall_forall. intros t Ht. apply in_map_iff in Ht.
  destruct Ht as [x [<- _]]. discriminate.
Qed.

Section FetcherLoop.
Variable parse_str : str_parser.
Variable sp : catalog.
Variable art : artist.
Variables today day_n_days_ago beginning_of_year : date.

Let step := album_step parse_str sp art today day_n_days_ago beginning_of_year.
Let recent :=
  tracks_in_window Recent parse_str sp art today day_n_days_ago beginning_of_year.
Let emitted :=
  emitted_tracks parse_str sp art today day_n_days_ago beginning_of_year.

Let parses_or_skips := date_parses_or_is_skipped parse_str.

Lemma album_step_ok (al : album) (all_tracks : list pytuple)
    (latest : option pytuple) :
  parses_or_skips al ->
  step (all_tracks, latest)  al
  = Ok (all_tracks ++ emitted [al], first_candidate latest (recent [al])).
Proof.
  intro Hp. unfold step, album_step, emitted, recent, emitted_tracks,
    tracks_in_window, release_window, release_tracks. simpl.
  destruct (parse_release_date parse_str (album_release_date al)) as [d|e] eqn:P.
  - destruct (classify today day_n_days_ago beginning_of_year d); simpl.
    + destruct (album_tracks sp (album_id al)) as [tracks|e']; simpl.
      * now rewrite fold_recent_track_step, !app_nil_r.
      * now rewrite app_nil_r, first_candidate_nil.
    + destruct (album_tracks sp (album_id al)) as [tracks|e']; simpl.
      * now rewrite fold_year_track_step, !app_nil_r, first_candidate_nil.
      * now rewrite app_nil_r, first_candidate_nil.
    + now rewrite app_nil_r, first_candidate_nil.
  - rewrite (Hp e P). simpl.
    now rewrite app_nil_r, first_candidate_nil.
Qed.

Lemma recent_nonempty (albums : list album) :
  Forall (fun t => t <> []) (recent albums).
Proof.
  unfold recent, tracks_in_window. apply Forall_forall. intros t Ht.
  apply in_flat_map in Ht. destruct Ht as [al [_ Ht]].
  destruct (release_window _ _ _ _ al) as [w|]; [|contradiction].
  destruct (window_eqb Recent w); [|contradiction].
  pose proof (release_tracks_nonempty sp art al) as F.
  rewrite Forall_forall in F. now apply F.
Qed.

Lemma albums_loop_ok (albums : list album) :
  Forall parses_or_skips albums ->
  forall all_tracks latest,
    albums_loop step albums (all_tracks, latest)
    = Ok (all_tracks ++ emitted albums, first_candidate latest (recent albums)).
Proof.
  induction 1 as [|al rest Hal _ IH]; intros all_tracks latest; simpl.
  - now rewrite app_nil_r, first_candidate_nil.
  - rewrite (album_step_ok al all_tracks latest Hal), IH.
    rewrite <- app_assoc. f_equal. f_equal.
    + unfold emitted, emitted_tracks. simpl. now rewrite app_nil_r.
    + rewrite first_candidate_app by apply recent_nonempty.
      unfold recent, tracks_in_window. simpl. now rewrite app_nil_r.
Qed.

(** An unparseable date string ends the loop: the exception of the parser
    leaves it whatever follows in the list. *)
Lemma albums_loop_aborts (albums : list album) (al : album) (e : exn)
    (st : fetch_state) :
  In al albums ->
  parse_release_date parse_str (album_release_date al) = Raise e ->
  e <> TypeError ->
  exists e', albums_loop step albums st = Raise e'.
Proof.
  intros Hin Hp He. revert st.
  induction albums as [|a rest IH]; intro st; [contradiction|].
  simpl. destruct Hin as [->|Hin].
  - unfold step at 1, album_step. rewrite Hp.
    destruct e; try contradiction; eauto.
  - destruct (step st a) as [st'|e']; [now apply IH | eauto].
Qed.

Lemma emitted_has_date_string (albums : list album) :
  Forall has_date_string (emitted albums).
Proof.
  unfold emitted, emitted_tracks. apply Forall_forall. intros t Ht.
  apply in_flat_map in Ht. destruct Ht as [al [_ Ht]].
  unfold release_window, parse_release_date in Ht.
  destruct (album_release_date al) as [|s] eqn:D; simpl in Ht;
    [contradiction|].
  assert (Hin : In t (release_tracks sp art al)).
  { destruct (parse_str s) as [d|]; [|contradiction].
    destruct (classify today day_n_days_ago beginning_of_year d);
      [assumption | assumption | contradiction]. }
  unfold release_tracks in Hin.
  destruct (album_tracks sp (album_id al)); [|contradiction].
  apply in_map_iff in Hin. destruct Hin as [x [<- _]].
  exists s. unfold track_info. simpl. now rewrite D.
Qed.

Lemma emitted_iff (albums : list album) (t : pytuple) :
  In t (emitted albums) <->
  In t (recent albums)
  \/ In t (tracks_in_window YearToDate parse_str sp art today day_n_days_ago
             beginning_of_year albums).
Proof.
  unfold emitted, recent, emitted_tracks, tracks_in_window.
  rewrite !in_flat_map. split.
  - intros [al [Hal Ht]].
    destruct (release_window _ _ _ _ al) as [[| |]|] eqn:W; try contradiction.
    + left. exists al. split; [assumption|]. now rewrite W.
    + right. exists al. split; [assumption|]. now rewrite W.
  - intros [[al [Hal Ht]]|[al [Hal Ht]]]; exists al; (split; [assumption|]);
      destruct (release_window _ _ _ _ al) as [[| |]|]; simpl in Ht;
      try assumption; try contradiction.
Qed.
End FetcherLoop.

Lemma first_candidate_none (candidates : list pytuple) :
  first_candidate None candidates = hd_error candidates.
Proof. now destruct candidates. Qed.

(** C9.  When no release date fails to parse with anything but the caught
    [TypeError], the fetch returns; its [latest_track] is the first track of
    the recent-window releases in the provider's order ([None] when they
    yield no track), and its [all_tracks] holds exactly the tracks of the
    recent and of the year-to-date-not-recent releases. *)
Theorem latest_track_is_first_recent
    (parse_str : str_parser) (sp : catalog) (today : date) (art : artist)
    (n : Z) (spotify_id : pyval) (albums : list album) (recentStart : date) :
  artist_spotify_id art = Some spotify_id ->
  artist_albums sp spotify_id = Ok albums ->
  date_sub_days today n = Ok recentStart ->
  Forall (date_parses_or_is_skipped parse_str) albums ->
  let yearStart := first_day_of_year today in
  let recent :=
    tracks_in_window Recent parse_str sp art today recentStart yearStart albums in
  let year_to_date :=
    tracks_in_window YearToDate parse_str sp art today recentStart yearStart
      albums in
  exists all_tracks,
    get_recent_track parse_str sp today art n = Ok (all_tracks, hd_error recent)
    /\ (forall t, In t all_tracks <-> In t recent \/ In t year_to_date).
Proof.
  intros Hid Halbums Hsub Hparse yearStart recent year_to_date.
  subst recent year_to_date yearStart.
  unfold get_recent_track. rewrite Hid, Halbums, Hsub. simpl.
  rewrite (albums_loop_ok parse_str sp art today recentStart _ albums Hparse).
  simpl. rewrite first_candidate_none.
  destruct (sort_by_release_date_total true
              (emitted_tracks parse_str sp art today recentStart
                 (first_day_of_year today) albums)
              (emitted_has_date_string _ _ _ _ _ _ _)) as [sorted Hs].
  exists sorted. rewrite Hs. simpl. split; [reflexivity|].
  intro t. apply sort_by_release_date_perm in Hs.
  rewrite <- emitted_iff. split; intro H.
  - eapply Permutation_in; [apply Permutation_sym; exact Hs | exact H].
  - eapply Permutation_in; [exact Hs | exact H].
Qed.

(** On the sample catalog the latest track is the first track of the release
    of June 10, which the provider lists before the release of June 18. *)
Lemma latest_track_is_first_recent_witness :
  exists all_tracks,
    get_recent_track (dateutil_parse_str sample_today)
      (sample_catalog sample_albums) sample_today sample_artist 13
    = Ok (all_tracks,
          Some [PStr "june-a/1"; PStr "june-a one"; PStr "2024-06-10";
                PStr "ada.music"; PStr "Ada"])
    /\ (forall t, In t all_tracks <->
          In t (tracks_in_window Recent (dateutil_parse_str sample_today)
                  (sample_catalog sample_albums) sample_artist sample_today
                  (ymd2ord 2024 6 7) (first_day_of_year sample_today)
                  sample_albums)
          \/ In t (tracks_in_window YearToDate (dateutil_parse_str sample_today)
                     (sample_catalog sample_albums) sample_artist sample_today
                     (ymd2ord 2024 6 7) (first_day_of_year sample_today)
                     sample_albums)).
Proof.
  apply (latest_track_is_first_recent (dateutil_parse_str sample_today)
           (sample_catalog sample_albums) sample_today sample_artist 13
           (PStr "artist-1") sample_albums (ymd2ord 2024 6 7)).
  - reflexivity.
  - reflexivity.
  - reflexivity.
  - repeat constructor; intros e H; vm_compute in H; discriminate.
Defined.

(** ** A release date that does not parse (C5) *)

(** For any parser: once the albums are listed and the window is computed, a
    single release whose date string the parser rejects makes the whole call
    raise, so none of the artist's releases is returned. *)
Lemma unparseable_date_is_fatal
    (parse_str : str_parser) (sp : catalog) (today : date) (art : artist)
    (n : Z) (spotify_id : pyval) (albums : list album) (recentStart : date)
    (al : album) (e : exn) :
  artist_spotify_id art = Some spotify_id ->
  artist_albums sp spotify_id = Ok albums ->
  date_sub_days today n = Ok recentStart ->
  In al albums ->
  parse_release_date parse_str (album_release_date al) = Raise e ->
  e <> TypeError ->
  exists e', get_recent_track parse_str sp today art n = Raise e'.
Proof.
  intros Hid Halbums Hsub Hin Hp He.
  unfold get_recent_track. rewrite Hid, Halbums, Hsub. simpl.
  destruct (albums_loop_aborts parse_str sp art today recentStart
              (first_day_of_year today) albums al e ([], None) Hin Hp He)
    as [e' He'].
  rewrite He'. simpl. eauto.
Qed.

(** C5, at a failing input.  The artist has the four sample releases and,
    listed first, one whose date string is ["unknown"].  The parser raises
    [ParserError], the loop catches [TypeError] only, and the fetch of the
    artist raises instead of returning the tracks of the four other
    releases; without that release the same fetch returns them. *)
Theorem unparseable_date_aborts_fetch :
  get_recent_track (dateutil_parse_str sample_today)
    (sample_catalog (sample_album "broken" "unknown" :: sample_albums))
    sample_today sample_artist 13
  = Raise ParserError
  /\ exists all_tracks,
       get_recent_track (dateutil_parse_str sample_today)
         (sample_catalog sample_albums) sample_today sample_artist 13
       = Ok (all_tracks,
             Some [PStr "june-a/1"; PStr "june-a one"; PStr "2024-06-10";
                   PStr "ada.music"; PStr "Ada"])
       /\ List.length all_tracks = 6%nat.
Proof.
  split; [vm_compute; reflexivity|].
  eexists. split; [vm_compute; reflexivity | reflexivity].
Qed.

(** A release whose date is [None] is the case the loop does survive. *)
Lemma missing_date_is_skipped :
  get_recent_track (dateutil_parse_str sample_today)
    (sample_catalog
       ({| album_id := PStr "undated"; album_name := PStr "undated";
           album_release_date := PNone |} :: sample_albums))
    sample_today sample_artist 13
  = get_recent_track (dateutil_parse_str sample_today)
      (sample_catalog sample_albums) sample_today sample_artist 13.
Proof. vm_compute. reflexivity. Qed.

(** ** Dates of year or month precision (C6) *)

Lemma digit_value_range (c : ascii) (v : Z) :
  digit_value c = Some v -> 0 <= v <= 9.
Proof.
  unfold digit_value.
  destruct ((48 <=? Z.of_N (N_of_ascii c)) && (Z.of_N (N_of_ascii c) <=? 57)) eqn:E;
    [|discriminate].
  intro H. injection H as <-.
  apply andb_true_iff in E. destruct E as [E1 E2].
  apply Z.leb_le in E1, E2. lia.
Qed.

Lemma number2_range (a b : ascii) (v : Z) :
  number2 a b = Some v -> 0 <= v <= 99.
Proof.
  unfold number2.
  destruct (digit_value a) as [x|] eqn:A; [|discriminate].
  destruct (digit_value b) as [y|] eqn:B; [|discriminate].
  intro H. assert (E : v = 10 * x + y) by (injection H; auto).
  apply digit_value_range in A, B. lia.
Qed.

Lemma number4_range (a b c d : ascii) (v : Z) :
  number4 a b c d = Some v -> 0 <= v <= 9999.
Proof.
  unfold number4.
  destruct (number2 a b) as [x|] eqn:A; [|discriminate].
  destruct (number2 c d) as [y|] eqn:B; [|discriminate].
  intro H. assert (E : v = 100 * x + y) by (injection H; auto).
  apply number2_range in A, B. lia.
Qed.

Lemma days_in_month_range (year month : Z) :
  1 <= month <= 12 -> 28 <= days_in_month year month <= 31.
Proof.
  intro H. unfold days_in_month.
  destruct ((month =? 2) && is_leap year); [lia|].
  assert (C : month = 1 \/ month = 2 \/ month = 3 \/ month = 4 \/ month = 5
              \/ month = 6 \/ month = 7 \/ month = 8 \/ month = 9
              \/ month = 10 \/ month = 11 \/ month = 12) by lia.
  repeat (destruct C as [->|C]; [cbv [DAYS_IN_MONTH]; lia|]).
  subst. cbv [DAYS_IN_MONTH]. lia.
Qed.

(** What the parser builds when the day, or the month and the day, come from
    today. *)
Lemma build_naive_default_day (today : date) (ry rm : option Z) (y m : Z) :
  y = match ry with Some v => v | None => date_year today end ->
  m = match rm with Some v => v | None => date_month today end ->
  1 <= y <= 9999 -> 1 <= m <= 12 -> 1 <= date_day today ->
  build_naive today (ry, rm, None)
  = Ok (ymd2ord y m (Z.min (date_day today) (days_in_month y m))).
Proof.
  intros Hy Hm Ry Rm Rd. unfold build_naive. rewrite <- Hy, <- Hm.
  pose proof (days_in_month_range y m Rm) as Rdim.
  assert (E : (if days_in_month y m <? date_day today
               then days_in_month y m else date_day today)
              = Z.min (date_day today) (days_in_month y m)).
  { destruct (days_in_month y m <? date_day today) eqn:C;
      [apply Z.ltb_lt in C | apply Z.ltb_ge in C]; lia. }
  rewrite E. unfold mk_date.
  assert (T : (1 <=? y) && (y <=? 9999) && (1 <=? m) && (m <=? 12)
              && (1 <=? Z.min (date_day today) (days_in_month y m))
              && (Z.min (date_day today) (days_in_month y m)
                  <=? days_in_month y m) = true).
  { rewrite !andb_true_iff, !Z.leb_le. lia. }
  now rewrite T.
Qed.

(** What the parser does with the fields a string lacks.  A date string of
    year precision (year above 100) takes its month and its day from today,
    and one of year-month precision (year above 31) takes its day from today;
    in both the day is capped at the last day of the resulting month. *)
Theorem missing_fields_come_from_today
    (today : date) (a b c d e f : ascii) (y m : Z) :
  number4 a b c d = Some y ->
  number2 e f = Some m ->
  1 <= date_month today <= 12 ->
  1 <= date_day today ->
  (100 < y ->
   parse_release_date (dateutil_parse_str today)
     (PStr (String a (String b (String c (String d EmptyString)))))
   = Ok (ymd2ord y (date_month today)
           (Z.min (date_day today) (days_in_month y (date_month today)))))
  /\ (31 < y -> 1 <= m <= 12 ->
      parse_release_date (dateutil_parse_str today)
        (PStr (String a (String b (String c (String d
           (String "-" (String e (String f EmptyString))))))))
      = Ok (ymd2ord y m (Z.min (date_day today) (days_in_month y m)))).
Proof.
  intros Hy Hm Rmonth Rday.
  pose proof (number4_range _ _ _ _ _ Hy) as Ry.
  split.
  - intro Hbig. unfold parse_release_date, dateutil_parse_str, tokenize.
    rewrite Hy. unfold resolve_ymd.
    assert (E : (100 <? y) = true) by (apply Z.ltb_lt; lia).
    rewrite E.
    apply (build_naive_default_day today (Some y) None); try reflexivity; lia.
  - intros Hbig Rm. unfold parse_release_date, dateutil_parse_str, tokenize.
    rewrite Hy, Hm. unfold resolve_ymd.
    assert (E : (31 <? y) = true) by (apply Z.ltb_lt; lia).
    rewrite E.
    apply (build_naive_default_day today (Some y) (Some m)); try reflexivity; lia.
Qed.

(** On 2024-06-20, ["2024"] is read as 2024-06-20 and ["2024-02"] as
    2024-02-20. *)
Lemma missing_fields_come_from_today_witness :
  parse_release_date (dateutil_parse_str sample_today) (PStr "2024")
  = Ok (ymd2ord 2024 6 20)
  /\ parse_release_date (dateutil_parse_str sample_today) (PStr "2024-02")
     = Ok (ymd2ord 2024 2 20).
Proof.
  assert (Hy : number4 "2" "0" "2" "4" = Some 2024) by reflexivity.
  assert (Hm : number2 "0" "2" = Some 2) by reflexivity.
  assert (Rm : 1 <= date_month sample_today <= 12) by (vm_compute; split; discriminate).
  assert (Rd : 1 <= date_day sample_today) by (vm_compute; discriminate).
  destruct (missing_fields_come_from_today sample_today "2" "0" "2" "4" "0" "2"
              2024 2 Hy Hm Rm Rd) as [H1 H2].
  split.
  - apply H1. lia.
  - apply H2; lia.
Defined.

(** On 2024-06-20 the string ["2024"] is not read as 2024-01-01 nor
    ["2024-06"] as 2024-06-01; both are read as 2024-06-20, which puts the
    release in the recent window where January 1 and June 1 would be
    year-to-date-not-recent. *)
Lemma missing_fields_are_not_the_first :
  parse_release_date (dateutil_parse_str sample_today) (PStr "2024")
    <> Ok (ymd2ord 2024 1 1)
  /\ parse_release_date (dateutil_parse_str sample_today) (PStr "2024-06")
     <> Ok (ymd2ord 2024 6 1)
  /\ release_window (dateutil_parse_str sample_today) sample_today
       (ymd2ord 2024 6 7) (first_day_of_year sample_today)
       (sample_album "year-only" "2024") = Some Recent
  /\ classify sample_today (ymd2ord 2024 6 7) (first_day_of_year sample_today)
       (ymd2ord 2024 1 1) = YearToDate
  /\ classify sample_today (ymd2ord 2024 6 7) (first_day_of_year sample_today)
       (ymd2ord 2024 6 1) = YearToDate.
Proof.
  repeat split; try (vm_compute; reflexivity); vm_compute; discriminate.
Qed.

(** C6.  The code does not read a missing month or day as the 1st.  The
    fetcher calls [parse] without a default, so the fields the string lacks
    come from the day of the run.  With a lookback of 13 days, on 2024-06-20
    a release dated ["2024"] is read as 2024-06-20, not as 2024-01-01, and
    its first track is the [latest_track]; read as January 1 the release is
    outside the recent window and there is no [latest_track].  The same
    release is the latest again on March 1 and on December 31: it is recent
    on every run of the year.  A release dated ["2024-06"] is read as
    2024-06-20 where the claim reads June 1, and is recent as well. *)
Theorem year_precision_release_is_dated_by_the_run :
  let fetch parse_str today release_date :=
    get_recent_track parse_str
      (sample_catalog [sample_album "single" release_date]) today
      sample_artist 13 in
  let both release_date :=
    [[PStr "single/1"; PStr "single one"; PStr release_date;
      PStr "ada.music"; PStr "Ada"];
     [PStr "single/2"; PStr "single two"; PStr release_date;
      PStr "ada.music"; PStr "Ada"]] in
  let first release_date :=
    [PStr "single/1"; PStr "single one"; PStr release_date;
     PStr "ada.music"; PStr "Ada"] in
  spec_release_day "2024" = Some (ymd2ord 2024 1 1)
  /\ spec_release_day "2024-06" = Some (ymd2ord 2024 6 1)
  /\ parse_release_date (dateutil_parse_str (ymd2ord 2024 6 20)) (PStr "2024")
     = Ok (ymd2ord 2024 6 20)
  /\ parse_release_date (dateutil_parse_str (ymd2ord 2024 6 20))
       (PStr "2024-06")
     = Ok (ymd2ord 2024 6 20)
  /\ fetch (dateutil_parse_str (ymd2ord 2024 6 20)) (ymd2ord 2024 6 20) "2024"
     = Ok (both "2024", Some (first "2024"))
  /\ fetch spec_parse_str (ymd2ord 2024 6 20) "2024"
     = Ok (both "2024", None)
  /\ fetch (dateutil_parse_str (ymd2ord 2024 3 1)) (ymd2ord 2024 3 1) "2024"
     = Ok (both "2024", Some (first "2024"))
  /\ fetch (dateutil_parse_str (ymd2ord 2024 12 31)) (ymd2ord 2024 12 31)
       "2024"
     = Ok (both "2024", Some (first "2024"))
  /\ fetch (dateutil_parse_str (ymd2ord 2024 6 20)) (ymd2ord 2024 6 20)
       "2024-06"
     = Ok (both "2024-06", Some (first "2024-06"))
  /\ fetch spec_parse_str (ymd2ord 2024 6 20) "2024-06"
     = Ok (both "2024-06", None).
Proof.
  cbv zeta. repeat split; vm_compute; reflexivity.
Qed.

(** ** The deduplicator (C3) *)

Lemma dict_lookup_none (k : pyval) (d : track_dict) :
  dict_lookup k d = None <-> ~ In k (map fst d).
Proof.
  induction d as [|[k' v'] rest IH]; simpl.
  - split; [intros _ [] | reflexivity].
  - destruct (pyval_eqb k k') eqn:E.
    + apply pyval_eqb_eq in E. subst. split; [discriminate|].
      intro H. exfalso. apply H. now left.
    + apply pyval_eqb_neq in E. rewrite IH. split.
      * intros H [H'|H']; [congruence | contradiction].
      * intros H H'. apply H. now right.
Qed.

Lemma dict_lookup_some (k : pyval) (v : pytuple) (d : track_dict) :
  dict_lookup k d = Some v -> In (k, v) d.
Proof.
  induction d as [|[k' v'] rest IH]; simpl; [discriminate|].
  destruct (pyval_eqb k k') eqn:E.
  - apply pyval_eqb_eq in E. subst. intro H. injection H as ->. now left.
  - intro H. right. now apply IH.
Qed.

Lemma dict_set_new (k : pyval) (v : pytuple) (d : track_dict) :
  dict_lookup k d = None -> dict_set k v d = d ++ [(k, v)].
Proof.
  induction d as [|[k' v'] rest IH]; simpl; [reflexivity|].
  destruct (pyval_eqb k k'); [discriminate|].
  intro H. now rewrite IH.
Qed.

Lemma dict_set_keys (k : pyval) (v v0 : pytuple) (d : track_dict) :
  dict_lookup k d = Some v0 -> map fst (dict_set k v d) = map fst d.
Proof.
  induction d as [|[k' v'] rest IH]; simpl; [discriminate|].
  destruct (pyval_eqb k k'); simpl; [reflexivity|].
  intro H. now rewrite IH.
Qed.

(** After [d[k] = v] on a key already present, an entry is the new one or an
    old one under another key. *)
Lemma dict_set_entries (k : pyval) (v v0 : pytuple) (d : track_dict)
    (k1 : pyval) (v1 : pytuple) :
  NoDup (map fst d) ->
  dict_lookup k d = Some v0 ->
  In (k1, v1) (dict_set k v d) ->
  (k1 = k /\ v1 = v) \/ (k1 <> k /\ In (k1, v1) d).
Proof.
  induction d as [|[k' v'] rest IH]; simpl; [discriminate|].
  intros Hnd. inversion Hnd as [|? ? Hnotin Hnd']; subst.
  destruct (pyval_eqb k k') eqn:E.
  - apply pyval_eqb_eq in E. subst k'. intros _ [H|H].
    + injection H as <- <-. now left.
    + right. split; [|now right].
      intros ->. apply Hnotin. apply in_map_iff. now exists (k, v1).
  - apply pyval_eqb_neq in E. intros Hl [H|H].
    + injection H as <- <-. right. split; [congruence | now left].
    + destruct (IH Hnd' Hl H) as [?|[? ?]]; [now left | right; split; auto].
Qed.

Lemma dict_set_has (k : pyval) (v : pytuple) (d : track_dict) :
  In (k, v) (dict_set k v d).
Proof.
  induction d as [|[k' v'] rest IH]; simpl; [now left|].
  destruct (pyval_eqb k k') eqn:E.
  - apply pyval_eqb_eq in E. subst. now left.
  - now right.
Qed.

Lemma well_formed_inv (t : pytuple) :
  well_formed t = true ->
  exists i n ds a b, t = [i; n; PStr ds; a; b].
Proof.
  destruct t as [|i [|n [|[|ds] [|a [|b [|c t]]]]]]; simpl; try discriminate.
  intros _. now exists i, n, ds, a, b.
Qed.

Lemma track_record_cases (t : pytuple) :
  track_record t = true ->
  ((List.length t <? 5)%nat = true /\ well_formed t = false)
  \/ ((List.length t <? 5)%nat = false /\ well_formed t = true).
Proof.
  unfold track_record. intro H.
  destruct (well_formed t) eqn:W.
  - right. split; [|reflexivity].
    destruct (well_formed_inv t W) as (i & n & ds & a & b & ->). reflexivity.
  - left. rewrite orb_false_r in H. now split.
Qed.

(** The comparison of the release dates of two well-formed records is the
    order on their date strings. *)
Lemma released_after_wf (i n a b i' n' a' b' : pyval) (ds ds' : string) :
  released_after [i; n; PStr ds; a; b] [i'; n'; PStr ds'; a'; b']
  <-> String.ltb ds' ds = true.
Proof.
  unfold released_after, track_date. simpl. split; intro H; congruence.
Qed.

Lemma released_no_later_wf (i n a b i' n' a' b' : pyval) (ds ds' : string) :
  released_no_later [i; n; PStr ds; a; b] [i'; n'; PStr ds'; a'; b']
  <-> String.ltb ds' ds = false.
Proof.
  unfold released_no_later, track_date. simpl. split; intro H; congruence.
Qed.

Lemma released_after_trans (r c u : pytuple) :
  well_formed r = true -> well_formed c = true -> well_formed u = true ->
  released_after r c ->
  released_after c u \/ u = c \/ released_no_later u c ->
  released_after r u.
Proof.
  intros Wr Wc Wu.
  destruct (well_formed_inv r Wr) as (i1 & n1 & d1 & a1 & b1 & ->).
  destruct (well_formed_inv c Wc) as (i2 & n2 & d2 & a2 & b2 & ->).
  destruct (well_formed_inv u Wu) as (i3 & n3 & d3 & a3 & b3 & ->).
  rewrite !released_after_wf, released_no_later_wf.
  intros Hrc [Hcu|[Heq|Hle]].
  - now apply string_ltb_trans with d2.
  - injection Heq as -> -> -> -> ->. assumption.
  - now apply string_le_lt_trans with d2.
Qed.

(** A record met after [r] leaves [r] first and latest when it is malformed,
    bears another name, or is released no later. *)
Lemma first_latest_snoc (r t : pytuple) (pre : list pytuple) :
  first_latest r pre ->
  (well_formed t = true -> track_name t = track_name r -> released_no_later t r) ->
  first_latest r (pre ++ [t]).
Proof.
  intros (l1 & l2 & -> & H1 & H2) Ht.
  exists l1, (l2 ++ [t]). split; [now rewrite <- app_assoc|].
  split; [assumption|].
  intros u Hu Wu Nu. apply in_app_or in Hu. destruct Hu as [Hu|[<-|[]]].
  - now apply H2.
  - now apply Ht.
Qed.

Lemma first_latest_last (t : pytuple) (pre : list pytuple) :
  (forall u, In u pre -> well_formed u = true ->
             track_name u = track_name t -> released_after t u) ->
  first_latest t (pre ++ [t]).
Proof.
  intro H. exists pre, []. split; [reflexivity|]. split; [assumption|].
  intros u [].
Qed.

Lemma first_latest_bounds (c : pytuple) (pre : list pytuple) (u : pytuple) :
  first_latest c pre -> In u pre -> well_formed u = true ->
  track_name u = track_name c ->
  released_after c u \/ u = c \/ released_no_later u c.
Proof.
  intros (l1 & l2 & -> & H1 & H2) Hu Wu Nu.
  apply in_app_or in Hu. destruct Hu as [Hu|[Hu|Hu]].
  - left. now apply H1.
  - right. left. now symmetry.
  - right. right. now apply H2.
Qed.

Lemma dict_lookup_unique (k : pyval) (v : pytuple) (d : track_dict) :
  NoDup (map fst d) -> In (k, v) d -> dict_lookup k d = Some v.
Proof.
  induction d as [|[k' v'] rest IH]; simpl; [intros _ []|].
  intros Hnd. inversion Hnd as [|? ? Hnotin Hnd']; subst.
  intros [H|H].
  - injection H as -> ->. now rewrite pyval_eqb_refl.
  - destruct (pyval_eqb k k') eqn:E.
    + apply pyval_eqb_eq in E. subst k'. exfalso. apply Hnotin.
      apply in_map_iff. now exists (k, v).
    + now apply IH.
Qed.

Lemma dedup_step_invariant (met : list pytuple) (d : track_dict) (t : pytuple) :
  dedup_invariant met d ->
  track_record t = true ->
  exists d', dedup_step d t = Ok d' /\ dedup_invariant (met ++ [t]) d'.
Proof.
  intros (Hnd & Hent & Hcov) Ht.
  destruct (track_record_cases t Ht) as [[Hlen Hwf]|[Hlen Hwf]].
  - (* fewer than five fields: skipped *)
    exists d. unfold dedup_step. rewrite Hlen. split; [reflexivity|].
    split; [assumption|]. split.
    + intros k v Hkv. destruct (Hent k v Hkv) as (W & N & F).
      repeat split; try assumption.
      apply first_latest_snoc; [assumption | congruence].
    + intros u Hu Wu. apply in_app_or in Hu. destruct Hu as [Hu|[<-|[]]].
      * now apply Hcov.
      * congruence.
  - destruct (well_formed_inv t Hwf) as (i & n & ds & a & b & ->).
    unfold dedup_step. rewrite Hlen.
    destruct (dict_lookup n d) as [cur|] eqn:L.
    + (* the name is known *)
      pose proof (dict_lookup_some _ _ _ L) as Hin.
      destruct (Hent n cur Hin) as (Wc & Nc & Fc).
      destruct (well_formed_inv cur Wc) as (i' & n' & dc & a' & b' & ->).
      simpl. destruct (String.ltb dc ds) eqn:Cmp.
      * (* strictly later: the entry is replaced *)
        eexists. split; [reflexivity|]. split; [|split].
        -- now rewrite (dict_set_keys _ _ _ _ L).
        -- intros k v Hkv.
           destruct (dict_set_entries _ _ _ _ _ _ Hnd L Hkv) as [[-> ->]|[Hk Hkv']].
           ++ repeat split; try reflexivity.
              apply first_latest_last. intros u Hu Wu Nu.
              apply released_after_trans
                with (c := [i'; n'; PStr dc; a'; b']); try assumption.
              ** now apply released_after_wf.
              ** apply first_latest_bounds with met; try assumption.
                 rewrite Nu. unfold track_name in *. simpl in *. congruence.
           ++ destruct (Hent k v Hkv') as (W & N & F).
              repeat split; try assumption.
              apply first_latest_snoc; [assumption|].
              intros _ E. exfalso. apply Hk. rewrite <- N, <- E. reflexivity.
        -- rewrite (dict_set_keys _ _ _ _ L).
           intros u Hu Wu. apply in_app_or in Hu. destruct Hu as [Hu|[<-|[]]].
           ++ now apply Hcov.
           ++ apply in_map_iff. now exists (n, [i'; n'; PStr dc; a'; b']).
      * (* not later: the entry stays *)
        exists d. split; [reflexivity|]. split; [assumption|]. split.
        -- intros k v Hkv. destruct (Hent k v Hkv) as (W & N & F).
           repeat split; try assumption.
           apply first_latest_snoc; [assumption|].
           intros _ E.
           assert (Hk : k = n) by (rewrite <- N, <- E; reflexivity).
           rewrite Hk in Hkv.
           pose proof (dict_lookup_unique _ _ _ Hnd Hkv) as U.
           rewrite L in U. injection U as <-.
           now apply released_no_later_wf.
        -- intros u Hu Wu. apply in_app_or in Hu. destruct Hu as [Hu|[<-|[]]].
           ++ now apply Hcov.
           ++ apply in_map_iff. now exists (n, [i'; n'; PStr dc; a'; b']).
    + (* a new name: the record is appended *)
      pose proof (proj1 (dict_lookup_none _ _) L) as Hnew.
      eexists. split; [reflexivity|]. rewrite (dict_set_new _ _ _ L).
      split; [|split].
      * rewrite map_app. apply NoDup_app; [assumption | repeat constructor; intros [] |].
        intros k Hk [<-|[]]. contradiction.
      * intros k v Hkv. apply in_app_or in Hkv. destruct Hkv as [Hkv|[E|[]]].
        -- destruct (Hent k v Hkv) as (W & N & F).
           repeat split; try assumption.
           apply first_latest_snoc; [assumption|].
           intros _ E. exfalso. apply Hnew. apply in_map_iff.
           exists (k, v). split; [|assumption].
           unfold track_name in *. simpl in *. congruence.
        -- injection E as <- <-. repeat split; try reflexivity.
           apply first_latest_last. intros u Hu Wu Nu. exfalso. apply Hnew.
           change (track_name u = n) in Nu. rewrite <- Nu. now apply Hcov.
      * intros u Hu Wu. rewrite map_app. apply in_or_app.
        apply in_app_or in Hu. destruct Hu as [Hu|[<-|[]]].
        -- left. now apply Hcov.
        -- right. now left.
Qed.

Lemma dedup_loop_invariant (tracks met : list pytuple) (d : track_dict) :
  dedup_invariant met d ->
  Forall (fun t => track_record t = true) tracks ->
  exists d', dedup_loop tracks d = Ok d' /\ dedup_invariant (met ++ tracks) d'.
Proof.
  intros Hinv Hall. revert met d Hinv.
  induction Hall as [|t rest Ht _ IH]; intros met d Hinv; simpl.
  - exists d. now rewrite app_nil_r.
  - destruct (dedup_step_invariant met d t Hinv Ht) as (d1 & -> & Hinv1).
    destruct (IH (met ++ [t]) d1 Hinv1) as (d' & Hd' & Hinv').
    exists d'. split; [assumption|]. now rewrite <- app_assoc in Hinv'.
Qed.

Lemma dedup_invariant_empty : dedup_invariant [] [].
Proof.
  split; [constructor|]. split; [intros k v [] | intros t []].
Qed.

Lemma names_of_values (d : track_dict) :
  (forall k v, In (k, v) d -> track_name v = k) ->
  map track_name (dict_values d) = map fst d.
Proof.
  unfold dict_values. induction d as [|[k v] rest IH]; intro H; simpl;
    [reflexivity|].
  rewrite (H k v (or_introl eq_refl)). f_equal.
  apply IH. intros k' v' Hin. apply H. now right.
Qed.

(** What the deduplicator keeps, in the order of the date strings, the
    comparison the code makes.  On a list of track records (tuples of at
    most five fields, those of five fields carrying a date string) the
    deduplicator returns; its output has at most one record per name; each
    record it keeps is a well-formed input whose date string is strictly
    greater than that of every same-named well-formed input before it and no
    smaller than that of every one after it; every name of a well-formed
    input is kept; records of fewer than five fields are passed over. *)
Theorem deduplicate_keeps_first_latest (tracks : list pytuple) :
  Forall (fun t => track_record t = true) tracks ->
  exists out,
    deduplicate_track_list tracks = Ok out
    /\ NoDup (map track_name out)
    /\ (forall r, In r out -> well_formed r = true /\ first_latest r tracks)
    /\ (forall t, In t tracks -> well_formed t = true ->
          exists r, In r out /\ track_name r = track_name t).
Proof.
  intro Hall.
  destruct (dedup_loop_invariant tracks [] [] dedup_invariant_empty Hall)
    as (d & Hloop & Hnd & Hent & Hcov).
  simpl in Hent, Hcov.
  assert (Hdates : Forall has_date_string (dict_values d)).
  { apply Forall_forall. intros v Hv. unfold dict_values in Hv.
    apply in_map_iff in Hv. destruct Hv as [[k v'] [E Hin]]. simpl in E. subst v'.
    destruct (Hent k v Hin) as (W & _ & _).
    destruct (well_formed_inv v W) as (i & n & ds & a & b & ->).
    now exists ds. }
  destruct (sort_by_release_date_total false _ Hdates) as [out Hsort].
  exists out. unfold deduplicate_track_list. rewrite Hloop. simpl.
  split; [assumption|].
  apply sort_by_release_date_perm in Hsort.
  assert (Hval : forall r, In r out -> exists k, In (k, r) d).
  { intros r Hr. apply (Permutation_in _ (Permutation_sym Hsort)) in Hr.
    unfold dict_values in Hr. apply in_map_iff in Hr.
    destruct Hr as [[k v] [E Hin]]. simpl in E. subst v. now exists k. }
  split; [|split].
  - apply (Permutation_NoDup (Permutation_map track_name Hsort)).
    rewrite names_of_values; [assumption|].
    intros k v Hin. now destruct (Hent k v Hin) as (_ & N & _).
  - intros r Hr. destruct (Hval r Hr) as [k Hin].
    destruct (Hent k r Hin) as (W & _ & F). now split.
  - intros t Ht Wt. specialize (Hcov t Ht Wt).
    apply in_map_iff in Hcov. destruct Hcov as [[k v] [E Hin]]. simpl in E.
    exists v. split.
    + apply (Permutation_in _ Hsort). unfold dict_values.
      apply in_map_iff. now exists (k, v).
    + destruct (Hent k v Hin) as (_ & N & _). congruence.
Qed.

(** On the sample records the first of the two releases of June 1 is kept
    for Song A, after Song B in the order of the dates. *)
Lemma deduplicate_keeps_first_latest_witness :
  exists out,
    deduplicate_track_list sample_tracks = Ok out
    /\ NoDup (map track_name out)
    /\ (forall r, In r out -> well_formed r = true /\ first_latest r sample_tracks)
    /\ (forall t, In t sample_tracks -> well_formed t = true ->
          exists r, In r out /\ track_name r = track_name t).
Proof.
  apply (deduplicate_keeps_first_latest sample_tracks).
  repeat constructor.
Defined.

Example deduplicate_sample :
  deduplicate_track_list sample_tracks
  = Ok [sample_track "id4" "Song B" "2024-03-15";
        sample_track "id2" "Song A" "2024-06-01"].
Proof. reflexivity. Qed.

(** The example of the specification. *)
Example deduplicate_spec_example :
  deduplicate_track_list
    [sample_track "id1" "Song A" "2024-05-01";
     sample_track "id2" "Song A" "2024-06-01"]
  = Ok [sample_track "id2" "Song A" "2024-06-01"].
Proof. reflexivity. Qed.

(** C3.  The deduplicator compares the release dates as strings, and two
    strings of different precision differ where the dates do not.  Of two
    releases of one song, the first dated ["2024-06"] and the second
    ["2024-06-01"], it keeps the second: the strings differ, the longer one
    being the greater, although the dates are the same day when a missing
    day is the 1st, so that the first-seen record should stay.  Read as the
    fetcher reads them on 2024-06-20 the first is even the later of the
    two. *)
Theorem mixed_precision_replaces_first_seen :
  let first_seen := sample_track "id1" "Song A" "2024-06" in
  let second := sample_track "id2" "Song A" "2024-06-01" in
  deduplicate_track_list [first_seen; second] = Ok [second]
  /\ deduplicate_track_list [first_seen; second] <> Ok [first_seen]
  /\ spec_release_day "2024-06" = spec_release_day "2024-06-01"
  /\ released_after second first_seen
  /\ exists d1 d2,
       dateutil_parse_str (ymd2ord 2024 6 20) "2024-06" = Ok d1
       /\ dateutil_parse_str (ymd2ord 2024 6 20) "2024-06-01" = Ok d2
       /\ d2 < d1.
Proof.
  cbv zeta. split; [reflexivity|]. split; [discriminate|].
  split; [reflexivity|]. split; [reflexivity|].
  exists (ymd2ord 2024 6 20), (ymd2ord 2024 6 1).
  split; [vm_compute; reflexivity|]. split; [vm_compute; reflexivity|].
  vm_compute. reflexivity.
Qed.

(** ** Reading a playlist (C10) *)

Lemma repeat_snoc {A} (x : A) (n : nat) : x :: repeat x n = repeat x n ++ [x].
Proof. induction n as [|n IH]; simpl; [reflexivity | now rewrite <- IH]. Qed.

(** What the [while] loop returns and which calls it issues. *)
Lemma drain_pages_spec {St} (results : paging) (tracks : list pyval)
    (s : St) (log : list call) :
  drain_pages results tracks (s, log)
  = (match page_failure results with
     | None => Ok (tracks ++ later_items results)
     | Some e => Raise e
     end,
     (s, log ++ repeat CallNext (page_links results))).
Proof.
  revert tracks log.
  induction results as [items|items rest IH|items e]; intros tracks log; simpl.
  - unfold ret. now rewrite !app_nil_r.
  - unfold bind, sp_next, issue. simpl. rewrite IH.
    rewrite <- !app_assoc. reflexivity.
  - unfold bind, sp_next, issue. reflexivity.
Qed.

(** [get_playlist_tracks] on an id that is neither [None] nor empty: one call
    for the first page, one per [next] link, and the items of every page. *)
Lemma get_playlist_tracks_spec {St} (sp : client St) (playlist_id : pyval)
    (s : St) (log : list call) :
  truthy playlist_id = true ->
  get_playlist_tracks sp playlist_id (s, log)
  = match playlist_tracks sp playlist_id s with
    | (Ok results, s1) =>
        (match page_failure results with
         | None => Ok (all_items results)
         | Some e => Raise e
         end,
         (s1, log ++ CallPlaylistTracks playlist_id
                       :: repeat CallNext (page_links results)))
    | (Raise e, s1) => (Raise e, (s1, log ++ [CallPlaylistTracks playlist_id]))
    end.
Proof.
  intro T. unfold get_playlist_tracks. rewrite T. simpl.
  unfold bind, sp_playlist_tracks, issue.
  destruct (playlist_tracks sp playlist_id s) as [[results|e] s1]; [|reflexivity].
  rewrite drain_pages_spec, <- app_assoc. reflexivity.
Qed.

Lemma truthy_false (v : pyval) :
  truthy v = false <-> v = PNone \/ v = PStr EmptyString.
Proof.
  destruct v as [|[|c s]]; simpl; split; intro H; auto; try discriminate;
    destruct H as [H|H]; discriminate.
Qed.

(** C10.  With a playlist id that is [None] or the empty string,
    [get_playlist_tracks] raises [ValueError] and issues no call, the
    provider state and the log being as before.  With any other id the call
    for the first page is issued, and an exception, if any, is the one the
    provider raised for that page or behind a [next] link. *)
Theorem get_playlist_tracks_rejects_empty_id
    {St} (sp : client St) (playlist_id : pyval) (s : St) (log : list call) :
  (playlist_id = PNone \/ playlist_id = PStr EmptyString ->
   get_playlist_tracks sp playlist_id (s, log) = (Raise ValueError, (s, log)))
  /\ (playlist_id <> PNone -> playlist_id <> PStr EmptyString ->
      exists r s' rest,
        get_playlist_tracks sp playlist_id (s, log)
        = (r, (s', log ++ CallPlaylistTracks playlist_id :: rest))
        /\ (forall e, r = Raise e ->
              fst (playlist_tracks sp playlist_id s) = Raise e
              \/ exists results,
                   fst (playlist_tracks sp playlist_id s) = Ok results
                   /\ page_failure results = Some e)
        /\ (forall results,
              fst (playlist_tracks sp playlist_id s) = Ok results ->
              page_failure results = None ->
              r = Ok (all_items results))).
Proof.
  split.
  - intro H. apply truthy_false in H. unfold get_playlist_tracks.
    now rewrite H.
  - intros H1 H2.
    assert (T : truthy playlist_id = true).
    { destruct (truthy playlist_id) eqn:E; [reflexivity|].
      apply truthy_false in E. tauto. }
    rewrite (get_playlist_tracks_spec sp playlist_id s log T).
    destruct (playlist_tracks sp playlist_id s) as [[results|e] s1]; simpl.
    + do 3 eexists. split; [reflexivity|]. split.
      * intros e He. right. exists results. split; [reflexivity|].
        destruct (page_failure results); [congruence | discriminate].
      * intros results' E F. injection E as <-. now rewrite F.
    + do 3 eexists. split; [reflexivity|]. split.
      * intros e' He. left. congruence.
      * intros results E. discriminate.
Qed.

(** The id [None] is refused before any call; the id ["year"] is read. *)
Lemma get_playlist_tracks_rejects_empty_id_witness :
  get_playlist_tracks (mem_client PAGE_LIMIT) PNone
    (sample_store [] [PStr "t1"], [])
  = (Raise ValueError, (sample_store [] [PStr "t1"], []))
  /\ exists r s' rest,
       get_playlist_tracks (mem_client PAGE_LIMIT) (PStr "year")
         (sample_store [] [PStr "t1"], [])
       = (r, (s', [] ++ CallPlaylistTracks (PStr "year") :: rest))
       /\ r = Ok [PStr "t1"].
Proof.
  split.
  - apply (proj1 (get_playlist_tracks_rejects_empty_id (mem_client PAGE_LIMIT)
                    PNone (sample_store [] [PStr "t1"]) [])).
    left. reflexivity.
  - destruct (proj2 (get_playlist_tracks_rejects_empty_id
                       (mem_client PAGE_LIMIT) (PStr "year")
                       (sample_store [] [PStr "t1"]) []))
      as (r & s' & rest & E & _ & Hok); try discriminate.
    exists r, s', rest. split; [exact E|].
    apply (Hok (paginate PAGE_LIMIT [PStr "t1"])); reflexivity.
Defined.


(** ** Dry run (C7) *)

Lemma new_tracks_filter (tracks : list pytuple) (existing : list pyval) :
  Forall (fun t => t <> []) tracks ->
  new_tracks tracks existing = Ok (filter (absent_from existing) tracks).
Proof.
  unfold new_tracks. induction 1 as [|t ts Ht _ IH]; simpl; [reflexivity|].
  destruct t as [|id t]; [contradiction|]. simpl. rewrite IH. reflexivity.
Qed.

Lemma reads_only_next (n : nat) : reads_only (repeat CallNext n).
Proof. induction n; simpl; constructor; auto. Qed.

(** Reading a playlist extends the log with reading calls only. *)
Lemma get_playlist_tracks_reads {St} (sp : client St) (playlist_id : pyval)
    (s : St) (log : list call) :
  exists extra,
    snd (snd (get_playlist_tracks sp playlist_id (s, log))) = log ++ extra
    /\ reads_only extra.
Proof.
  destruct (truthy playlist_id) eqn:T.
  - rewrite (get_playlist_tracks_spec sp playlist_id s log T).
    destruct (playlist_tracks sp playlist_id s) as [[results|e] s1]; simpl.
    + eexists. split; [reflexivity|]. constructor; [reflexivity|].
      apply reads_only_next.
    + eexists. split; [reflexivity|]. repeat constructor.
  - unfold get_playlist_tracks. rewrite T. simpl. exists [].
    split; [now rewrite app_nil_r | constructor].
Qed.

(** In a dry run the synchronizer is the two reads followed by the two
    filters. *)
Lemma update_playlists_dry_run {St} (sp : client St) (cfg : config)
    (rr_playlist_tracks all_playlist_tracks : list pytuple)
    (s : St) (log : list call) :
  dry_run cfg = true ->
  Forall (fun t => t <> []) rr_playlist_tracks ->
  Forall (fun t => t <> []) all_playlist_tracks ->
  update_playlists sp cfg rr_playlist_tracks all_playlist_tracks (s, log)
  = match playlist_tracks sp (rr_playlist_id cfg) s with
    | (Raise e, s1) =>
        (Raise e, (s1, log ++ [CallPlaylistTracks (rr_playlist_id cfg)]))
    | (Ok results, s1) =>
        match get_playlist_tracks sp (all_playlist_id cfg)
                (s1, log ++ [CallPlaylistTracks (rr_playlist_id cfg)]) with
        | (Raise e, w2) => (Raise e, w2)
        | (Ok existing_all, w2) =>
            (Ok (filter (absent_from (page_items results)) rr_playlist_tracks,
                 filter (absent_from existing_all) all_playlist_tracks), w2)
        end
    end.
Proof.
  intros Hdry Hrr Hall.
  unfold update_playlists, bind, sp_playlist_tracks, issue, lift, ret.
  rewrite Hdry.
  destruct (playlist_tracks sp (rr_playlist_id cfg) s) as [[results|e] s1];
    [|reflexivity].
  destruct (get_playlist_tracks sp (all_playlist_id cfg) _)
    as [[existing_all|e] w2]; [|reflexivity].
  now rewrite !new_tracks_filter by assumption.
Qed.

(** C7, as the code has it.  In a dry run, on track tuples that have a first
    field, the synchronizer issues reading calls only, and when the two
    playlists are read without error it returns the tracks to add to the
    recent playlist and to the yearly playlist, leaving the provider in the
    state the reads left it in.  The ids to remove are neither computed nor
    returned. *)
Theorem dry_run_returns_additions_without_mutation
    {St} (sp : client St) (cfg : config)
    (rr_playlist_tracks all_playlist_tracks : list pytuple) (s : St) :
  dry_run cfg = true ->
  Forall (fun t => t <> []) rr_playlist_tracks ->
  Forall (fun t => t <> []) all_playlist_tracks ->
  reads_only
    (snd (snd (run (update_playlists sp cfg rr_playlist_tracks
                      all_playlist_tracks) s)))
  /\ (forall results s1 existing_all s2 log2,
        playlist_tracks sp (rr_playlist_id cfg) s = (Ok results, s1) ->
        get_playlist_tracks sp (all_playlist_id cfg)
          (s1, [CallPlaylistTracks (rr_playlist_id cfg)])
        = (Ok existing_all, (s2, log2)) ->
        run (update_playlists sp cfg rr_playlist_tracks all_playlist_tracks) s
        = (Ok (filter (absent_from (page_items results)) rr_playlist_tracks,
               filter (absent_from existing_all) all_playlist_tracks),
           (s2, log2))).
Proof.
  intros Hdry Hrr Hall. unfold run.
  rewrite (update_playlists_dry_run sp cfg _ _ s [] Hdry Hrr Hall). simpl.
  split.
  - destruct (playlist_tracks sp (rr_playlist_id cfg) s) as [[results|e] s1].
    + destruct (get_playlist_tracks_reads sp (all_playlist_id cfg) s1
                  [CallPlaylistTracks (rr_playlist_id cfg)])
        as (extra & E & R).
      destruct (get_playlist_tracks sp (all_playlist_id cfg) _)
        as [[existing_all|e] [s2 log2]]; simpl in *; subst log2;
        (constructor; [reflexivity | exact R]).
    + repeat constructor.
  - intros results s1 existing_all s2 log2 P G. now rewrite P, G.
Qed.

(** A dry run over a recent playlist that holds [t1] and [t2] and a yearly
    playlist that holds [t001]. *)
Lemma dry_run_returns_additions_without_mutation_witness :
  run (update_playlists (mem_client PAGE_LIMIT) (sample_config true)
         (numbered_tracks 2 2) (numbered_tracks 1 3))
      (sample_store (numbered_ids 1 2) (numbered_ids 1 1))
  = (Ok ([numbered_track 3], [numbered_track 2; numbered_track 3]),
     (sample_store (numbered_ids 1 2) (numbered_ids 1 1),
      [CallPlaylistTracks (PStr "recent"); CallPlaylistTracks (PStr "year")])).
Proof.
  assert (N1 : Forall (fun t : pytuple => t <> []) (numbered_tracks 2 2))
    by (repeat constructor; discriminate).
  assert (N2 : Forall (fun t : pytuple => t <> []) (numbered_tracks 1 3))
    by (repeat constructor; discriminate).
  apply (proj2 (dry_run_returns_additions_without_mutation
                  (mem_client PAGE_LIMIT) (sample_config true)
                  (numbered_tracks 2 2) (numbered_tracks 1 3)
                  (sample_store (numbered_ids 1 2) (numbered_ids 1 1))
                  eq_refl N1 N2)
               (paginate PAGE_LIMIT (numbered_ids 1 2))
               (sample_store (numbered_ids 1 2) (numbered_ids 1 1))
               (numbered_ids 1 1)).
  - reflexivity.
  - reflexivity.
Defined.

(** C7 as stated fails.  In a dry run over a recent playlist that holds
    [t001] while no track is desired, the id [t001] is due for removal, and
    the value returned holds no id at all. *)
Lemma dry_run_does_not_return_removals :
  run (update_playlists (mem_client PAGE_LIMIT) (sample_config true) [] [])
      (sample_store (numbered_ids 1 1) [])
  = (Ok ([], []),
     (sample_store (numbered_ids 1 1) [],
      [CallPlaylistTracks (PStr "recent"); CallPlaylistTracks (PStr "year")]))
  /\ old_track_ids (numbered_ids 1 1) [] = Ok [PStr "t001"]
  /\ ~ returns_removals ([], []) [PStr "t001"].
Proof.
  split; [vm_compute; reflexivity|]. split; [vm_compute; reflexivity|].
  intro H. destruct (H (PStr "t001") (or_introl eq_refl)) as [t [[] _]].
Qed.

(** ** The calls a program issues *)

Lemma issues_ret {St A} (Q : call -> Prop) (a : A) : issues Q (@ret St A a).
Proof. intros s log. exists []. simpl. now rewrite app_nil_r. Qed.

Lemma issues_raise {St A} (Q : call -> Prop) (e : exn) :
  issues Q (@raise St A e).
Proof. intros s log. exists []. simpl. now rewrite app_nil_r. Qed.

Lemma issues_lift {St A} (Q : call -> Prop) (r : result A) :
  issues Q (@lift St A r).
Proof. intros s log. exists []. simpl. now rewrite app_nil_r. Qed.

Lemma issues_issue {St A} (Q : call -> Prop) (c : call)
    (op : St -> result A * St) :
  Q c -> issues Q (issue c op).
Proof.
  intros Hc s log. exists [c]. unfold issue. destruct (op s) as [r s'].
  simpl. split; [reflexivity | now constructor].
Qed.

Lemma issues_bind {St A B} (Q : call -> Prop) (m : prog St A)
    (k : A -> prog St B) :
  issues Q m -> (forall a, issues Q (k a)) -> issues Q (bind m k).
Proof.
  intros Hm Hk s log. unfold bind.
  destruct (Hm s log) as (e1 & E1 & Q1).
  destruct (m (s, log)) as [[a|e] [s' log']]; simpl in E1; subst log'.
  - destruct (Hk a s' (log ++ e1)) as (e2 & E2 & Q2).
    exists (e1 ++ e2). rewrite E2, app_assoc. split; [reflexivity|].
    apply Forall_app. now split.
  - exists e1. now split.
Qed.

Create HintDb calls.
#[local] Hint Resolve issues_ret issues_raise issues_lift : calls.

Lemma issues_for_each {St A} (Q : call -> Prop) (l : list A)
    (body : A -> prog St unit) :
  (forall x, issues Q (body x)) -> issues Q (for_each l body).
Proof.
  intro Hb. induction l as [|x xs IH]; simpl; auto with calls.
  apply issues_bind; [apply Hb | intros _; exact IH].
Qed.

Lemma issues_drain_pages {St} (Q : call -> Prop) (results : paging)
    (tracks : list pyval) :
  Q CallNext -> issues Q (@drain_pages St results tracks).
Proof.
  intro Hq. revert tracks.
  induction results as [items|items rest IH|items e]; intro tracks; simpl.
  - apply issues_ret.
  - apply issues_bind; [now apply issues_issue | intros a; apply IH].
  - apply issues_bind; [now apply issues_issue | intros a; apply issues_ret].
Qed.

Lemma issues_get_playlist_tracks {St} (Q : call -> Prop) (sp : client St)
    (playlist_id : pyval) :
  Q CallNext -> Q (CallPlaylistTracks playlist_id) ->
  issues Q (get_playlist_tracks sp playlist_id).
Proof.
  intros Hn Hp. unfold get_playlist_tracks.
  destruct (negb (truthy playlist_id)); [apply issues_raise|].
  apply issues_bind; [now apply issues_issue|].
  intro results. now apply issues_drain_pages.
Qed.

Lemma track_ids_length (tracks : list pytuple) (ids : list pyval) :
  track_ids tracks = Ok ids -> List.length ids = List.length tracks.
Proof. apply map_result_length. Qed.

Lemma slice_length {A} (l : list A) (i n : nat) :
  (List.length (slice l i (i + n)) <= n)%nat.
Proof.
  unfold slice. replace (i + n - i)%nat with n by lia.
  apply firstn_le_length.
Qed.

(** The additions to the yearly playlist carry at most [BATCH] ids each. *)
Lemma yearly_additions_within_batch {St} (sp : client St) (playlist_id : pyval)
    (tracks : list pytuple) (offsets : list nat) :
  issues within_batch
    (for_each offsets
       (fun i =>
          (ids <- lift (track_ids (slice tracks i (i + BATCH))) ;;
           sp_add sp playlist_id ids 0)%prog)).
Proof.
  apply issues_for_each. intros i s log.
  unfold bind, lift.
  destruct (track_ids (slice tracks i (i + BATCH))) as [ids|e] eqn:E.
  - apply (issues_issue within_batch). simpl.
    rewrite (track_ids_length _ _ E). apply slice_length.
  - exists []. simpl. now rewrite app_nil_r.
Qed.

(** Of all the calls of a run, only the addition to the recent playlist can
    carry more than [BATCH] ids. *)
Lemma only_recent_addition_unbatched {St} (sp : client St) (cfg : config)
    (rr_playlist_tracks all_playlist_tracks : list pytuple) :
  issues (fun c => within_batch c
                   \/ exists ids, c = CallAdd (rr_playlist_id cfg) ids 0)
    (update_playlists sp cfg rr_playlist_tracks all_playlist_tracks).
Proof.
  unfold update_playlists.
  apply issues_bind; [apply issues_issue; now left|]. intro results.
  apply issues_bind; [apply issues_get_playlist_tracks; now left|].
  intro existing_all.
  apply issues_bind; auto with calls. intro new_rr.
  apply issues_bind; auto with calls. intro new_all.
  destruct (dry_run cfg); auto with calls.
  apply issues_bind; auto with calls. intro old.
  apply issues_bind.
  { destruct old; [auto with calls | apply issues_issue; now left]. }
  intros _. apply issues_bind.
  { destruct new_rr; auto with calls.
    apply issues_bind; auto with calls. intro ids.
    apply issues_issue. right. now exists ids. }
  intros _. apply issues_bind; auto with calls.
  destruct new_all as [|t ts]; auto with calls.
  intros s log.
  destruct (yearly_additions_within_batch sp (all_playlist_id cfg) (t :: ts)
              (py_range (List.length (t :: ts)) BATCH) s log) as (extra & E & W).
  exists extra. split; [exact E|].
  eapply Forall_impl; [|exact W]. intros c Hc. now left.
Qed.

(** ** Pages of the in-memory provider *)

Lemma firstn_add {A} (a b : nat) (l : list A) :
  firstn (a + b) l = firstn a l ++ firstn b (skipn a l).
Proof.
  revert l. induction a as [|a IH]; intro l; simpl; [reflexivity|].
  destruct l as [|x l]; simpl.
  - now rewrite firstn_nil.
  - now rewrite IH.
Qed.

Lemma concat_slices {A} (l : list A) (step m : nat) :
  List.concat (map (fun i => slice l i (i + step))
              (map (fun k => (k * step)%nat) (seq 0 m)))
  = firstn (m * step) l.
Proof.
  induction m as [|m IH]; [reflexivity|].
  rewrite seq_S, !map_app, List.concat_app, IH. simpl.
  rewrite app_nil_r. unfold slice.
  replace (m * step + step - m * step)%nat with step by lia.
  replace (step + m * step)%nat with (m * step + step)%nat by lia.
  now rewrite firstn_add.
Qed.

Lemma py_range_covers (n step : nat) :
  (0 < step)%nat -> (n <= (n + step - 1) / step * step)%nat.
Proof.
  intro H.
  pose proof (Nat.div_mod_eq (n + step - 1) step) as E.
  pose proof (Nat.mod_upper_bound (n + step - 1) step) as B.
  nia.
Qed.

Lemma concat_chunks {A} (l : list A) (step : nat) :
  (0 < step)%nat ->
  List.concat (map (fun i => slice l i (i + step)) (py_range (List.length l) step))
  = l.
Proof.
  intro H. unfold py_range. rewrite concat_slices.
  apply firstn_all2. now apply py_range_covers.
Qed.

Lemma pages_of_all_items (chunks : list (list pyval)) :
  all_items (pages_of chunks) = List.concat chunks
  /\ page_failure (pages_of chunks) = None.
Proof.
  induction chunks as [|c cs [IH1 IH2]]; [now split|].
  destruct cs as [|c' cs].
  - simpl. unfold all_items. simpl. now rewrite !app_nil_r.
  - change (pages_of (c :: c' :: cs)) with (MorePages c (pages_of (c' :: cs))).
    remember (pages_of (c' :: cs)) as rest eqn:R in *.
    split; [|exact IH2].
    unfold all_items in *. simpl. now rewrite IH1.
Qed.

(** The pages of a playlist hold, together, the whole playlist. *)
Lemma paginate_all_items (limit : nat) (l : list pyval) :
  (0 < limit)%nat ->
  all_items (paginate limit l) = l /\ page_failure (paginate limit l) = None.
Proof.
  intro H. unfold paginate.
  destruct (pages_of_all_items
              (map (fun i => slice l i (i + limit))
                   (py_range (List.length l) limit))) as [E F].
  split; [|exact F]. rewrite E. now apply concat_chunks.
Qed.

(** [get_playlist_tracks] reads the whole playlist, whatever the number of
    its pages. *)
Lemma get_playlist_tracks_exhaustive (limit : nat) (playlist_id : pyval)
    (s : store) (l : list pyval) (log : list call) :
  (0 < limit)%nat ->
  truthy playlist_id = true ->
  store_lookup playlist_id s = Some l ->
  fst (get_playlist_tracks (mem_client limit) playlist_id (s, log)) = Ok l.
Proof.
  intros Hl T L. rewrite (get_playlist_tracks_spec _ _ _ _ T). simpl.
  rewrite L. destruct (paginate_all_items limit l Hl) as [E F].
  simpl. now rewrite F, E.
Qed.

(** ** Runs on the in-memory provider *)

Lemma track_ids_total (tracks : list pytuple) :
  Forall (fun t => t <> []) tracks ->
  track_ids tracks = Ok (map (hd PNone) tracks).
Proof.
  intro H. unfold track_ids. apply map_result_total.
  eapply Forall_impl; [|exact H]. intros [|x t] Ht; [contradiction|reflexivity].
Qed.

Lemma filter_result_total {A} (p : A -> result bool) (q : A -> bool)
    (l : list A) :
  (forall x, p x = Ok (q x)) -> filter_result p l = Ok (filter q l).
Proof.
  intro H. induction l as [|x xs IH]; simpl; [reflexivity|].
  rewrite H, IH. simpl. now destruct (q x).
Qed.

Lemma old_track_ids_total (existing : list pyval) (tracks : list pytuple) :
  Forall (fun t => t <> []) tracks ->
  old_track_ids existing tracks
  = Ok (filter (fun id => negb (py_in id (map (hd PNone) tracks))) existing).
Proof.
  intro H. unfold old_track_ids. apply filter_result_total.
  intro id. now rewrite (track_ids_total tracks H).
Qed.

Lemma store_lookup_update_same (k : pyval) (f : list pyval -> list pyval)
    (s : store) (v : list pyval) :
  store_lookup k s = Some v ->
  store_lookup k (store_update k f s) = Some (f v).
Proof.
  induction s as [|[k' v'] rest IH]; simpl; [discriminate|].
  destruct (pyval_eqb k k') eqn:E; simpl; rewrite E.
  - intro H. now injection H as ->.
  - exact IH.
Qed.

Lemma store_lookup_update_other (k k' : pyval) (f : list pyval -> list pyval)
    (s : store) :
  k <> k' ->
  store_lookup k' (store_update k f s) = store_lookup k' s.
Proof.
  intro N. induction s as [|[k0 v0] rest IH]; simpl; [reflexivity|].
  destruct (pyval_eqb k k0) eqn:E; simpl.
  - apply pyval_eqb_eq in E. subst k0.
    destruct (pyval_eqb k' k) eqn:E'; [|reflexivity].
    apply pyval_eqb_eq in E'. congruence.
  - now rewrite IH.
Qed.

Lemma page_items_paginate (limit : nat) (l : list pyval) :
  (0 < limit)%nat -> page_items (paginate limit l) = firstn limit l.
Proof.
  intro H. unfold paginate, py_range.
  destruct l as [|x l]; simpl List.length.
  - replace ((0 + limit - 1) / limit)%nat with 0%nat; [now rewrite firstn_nil|].
    symmetry. apply Nat.div_small. lia.
  - pose proof (py_range_covers (S (List.length l)) limit H) as C.
    destruct ((S (List.length l) + limit - 1) / limit)%nat as [|m] eqn:E;
      [simpl in C; lia|].
    simpl seq. simpl map. unfold slice at 1. simpl skipn.
    rewrite Nat.sub_0_r.
    destruct (map _ (map _ (seq 1 m))); reflexivity.
Qed.

Lemma bind_ok {St A B} (m : prog St A) (k : A -> prog St B)
    (w w' : St * list call) (a : A) :
  m w = (Ok a, w') -> bind m k w = k a w'.
Proof. intro H. unfold bind. now rewrite H. Qed.

Lemma bind_lift_ok {St A B} (r : result A) (k : A -> prog St B)
    (w : St * list call) (a : A) :
  r = Ok a -> bind (lift r) k w = k a w.
Proof. intros ->. reflexivity. Qed.

Lemma slice_Forall {A} (P : A -> Prop) (l : list A) (i j : nat) :
  Forall P l -> Forall P (slice l i j).
Proof.
  intro H. unfold slice. rewrite Forall_forall in *. intros x Hx. apply H.
  rewrite <- (firstn_skipn i l). apply in_or_app. right.
  rewrite <- (firstn_skipn (j - i) (skipn i l)). apply in_or_app. now left.
Qed.

Lemma filter_Forall {A} (P : A -> Prop) (q : A -> bool) (l : list A) :
  Forall P l -> Forall P (filter q l).
Proof.
  intro H. rewrite Forall_forall in *. intros x Hx.
  apply filter_In in Hx. now apply H.
Qed.

Lemma filter_not_in_nil (l : list pyval) :
  filter (fun x => negb (py_in x [])) l = l.
Proof. induction l as [|x xs IH]; simpl; [reflexivity | now f_equal]. Qed.

Section InMemoryRuns.
Variable limit : nat.
Variable playlist_id : pyval.

Let sp := mem_client limit.

(** The removal, when there is something to remove. *)
Lemma removal_effect (old : list pyval) (s : store) (log : list call)
    (contents : list pyval) :
  store_lookup playlist_id s = Some contents ->
  exists s' log',
    match old with
    | [] => ret tt
    | _ :: _ => sp_remove sp playlist_id old
    end (s, log) = (Ok tt, (s', log'))
    /\ store_lookup playlist_id s'
       = Some (filter (fun x => negb (py_in x old)) contents)
    /\ (forall k, playlist_id <> k -> store_lookup k s' = store_lookup k s).
Proof.
  intro L. destruct old as [|o old].
  - exists s, log. split; [reflexivity|]. split; [|reflexivity].
    now rewrite filter_not_in_nil.
  - eexists. eexists. unfold sp_remove, issue. simpl. rewrite L.
    split; [reflexivity|]. split.
    + now apply store_lookup_update_same.
    + intros k N. now apply store_lookup_update_other.
Qed.

(** One addition at the head. *)
Lemma addition_effect (ids : list pyval) (s : store) (log : list call)
    (contents : list pyval) :
  store_lookup playlist_id s = Some contents ->
  exists s' log',
    sp_add sp playlist_id ids 0 (s, log) = (Ok tt, (s', log'))
    /\ store_lookup playlist_id s' = Some (ids ++ contents)
    /\ (forall k, playlist_id <> k -> store_lookup k s' = store_lookup k s).
Proof.
  intro L. eexists. eexists. unfold sp_add, issue. simpl. rewrite L.
  split; [reflexivity|]. split.
  - now rewrite (store_lookup_update_same _ _ _ _ L).
  - intros k N. now apply store_lookup_update_other.
Qed.

(** The addition to the recent playlist, when there is something to add. *)
Lemma recent_addition_effect (tracks : list pytuple) (s : store)
    (log : list call) (contents : list pyval) :
  Forall (fun t => t <> []) tracks ->
  store_lookup playlist_id s = Some contents ->
  exists s' log',
    match tracks with
    | [] => ret tt
    | _ :: _ =>
        (ids <- lift (track_ids tracks) ;; sp_add sp playlist_id ids 0)%prog
    end (s, log) = (Ok tt, (s', log'))
    /\ store_lookup playlist_id s' = Some (map (hd PNone) tracks ++ contents)
    /\ (forall k, playlist_id <> k -> store_lookup k s' = store_lookup k s).
Proof.
  intros N L. destruct tracks as [|t ts].
  - exists s, log. now repeat split.
  - rewrite (bind_lift_ok _ _ _ _ (track_ids_total _ N)).
    now apply addition_effect.
Qed.

(** The loop of batched additions. *)
Lemma batched_additions_effect (tracks : list pytuple) (offsets : list nat)
    (s : store) (log : list call) (contents : list pyval) :
  Forall (fun t => t <> []) tracks ->
  store_lookup playlist_id s = Some contents ->
  exists s' log',
    for_each offsets
      (fun i =>
         (ids <- lift (track_ids (slice tracks i (i + BATCH))) ;;
          sp_add sp playlist_id ids 0)%prog) (s, log)
    = (Ok tt, (s', log'))
    /\ store_lookup playlist_id s'
       = Some (List.concat
                 (rev (map (fun i => map (hd PNone) (slice tracks i (i + BATCH)))
                           offsets)) ++ contents)
    /\ (forall k, playlist_id <> k -> store_lookup k s' = store_lookup k s).
Proof.
  intro N. revert s log contents.
  induction offsets as [|i rest IH]; intros s log contents L; simpl for_each.
  - exists s, log. now repeat split.
  - pose proof (track_ids_total _ (slice_Forall _ tracks i (i + BATCH) N)) as T.
    destruct (addition_effect (map (hd PNone) (slice tracks i (i + BATCH)))
                s log contents L) as (s1 & log1 & E1 & L1 & O1).
    destruct (IH s1 log1 _ L1) as (s2 & log2 & E2 & L2 & O2).
    exists s2, log2. split; [|split].
    + erewrite bind_ok; [exact E2|].
      rewrite (bind_lift_ok _ _ _ _ T). exact E1.
    + rewrite L2. simpl. rewrite List.concat_app. simpl.
      now rewrite app_nil_r, <- app_assoc.
    + intros k Hk. now rewrite O2, O1.
Qed.
End InMemoryRuns.

Lemma in_concat_rev {A} (ls : list (list A)) (x : A) :
  In x (List.concat (rev ls)) <-> In x (List.concat ls).
Proof.
  rewrite !in_concat. split; intros [l [Hl Hx]]; exists l;
    (split; [|assumption]); [now apply in_rev | now apply in_rev in Hl].
Qed.

(** The batches hold, together, the ids of all the tracks. *)
Lemma batches_cover (tracks : list pytuple) (x : pyval) :
  In x (List.concat
          (rev (map (fun i => map (hd PNone) (slice tracks i (i + BATCH)))
                    (py_range (List.length tracks) BATCH))))
  <-> In x (map (hd PNone) tracks).
Proof.
  rewrite in_concat_rev.
  rewrite <- (concat_chunks tracks BATCH) at 2 by (unfold BATCH; lia).
  now rewrite concat_map, map_map.
Qed.

(** The additions to the yearly playlist, when there is something to add. *)
Lemma yearly_addition_effect (limit : nat) (playlist_id : pyval)
    (tracks : list pytuple) (s : store) (log : list call)
    (contents : list pyval) :
  Forall (fun t => t <> []) tracks ->
  store_lookup playlist_id s = Some contents ->
  exists s' log' contents',
    match tracks with
    | [] => ret tt
    | _ :: _ =>
        for_each (py_range (List.length tracks) BATCH)
          (fun i =>
             (ids <- lift (track_ids (slice tracks i (i + BATCH))) ;;
              sp_add (mem_client limit) playlist_id ids 0)%prog)
    end (s, log) = (Ok tt, (s', log'))
    /\ store_lookup playlist_id s' = Some contents'
    /\ (forall x, In x contents' <->
                  In x (map (hd PNone) tracks) \/ In x contents)
    /\ (forall k, playlist_id <> k -> store_lookup k s' = store_lookup k s).
Proof.
  intros N L. destruct tracks as [|t ts].
  - exists s, log, contents. repeat split; auto. intros [[]|H]; exact H.
  - destruct (batched_additions_effect limit playlist_id (t :: ts)
                (py_range (List.length (t :: ts)) BATCH) s log contents N L)
      as (s' & log' & E & L' & O).
    exists s', log'. eexists. split; [exact E|]. split; [exact L'|].
    split; [|exact O].
    intro x. rewrite in_app_iff, batches_cover. reflexivity.
Qed.

Section TwoRuns.
Variable limit : nat.
Variable cfg : config.
Variables rr_playlist_tracks all_playlist_tracks : list pytuple.

Hypothesis limit_positive : (0 < limit)%nat.
Hypothesis not_dry : dry_run cfg = false.
Hypothesis all_id_set : truthy (all_playlist_id cfg) = true.
Hypothesis two_playlists : rr_playlist_id cfg <> all_playlist_id cfg.
Hypothesis rr_tuples : Forall (fun t => t <> []) rr_playlist_tracks.
Hypothesis all_tuples : Forall (fun t => t <> []) all_playlist_tracks.

Let desired_ids := map (hd PNone) rr_playlist_tracks.

(** A run on the in-memory provider: what it returns and what it leaves in
    the two playlists. *)
Lemma run_effect (s : store) (recent year : list pyval) :
  store_lookup (rr_playlist_id cfg) s = Some recent ->
  store_lookup (all_playlist_id cfg) s = Some year ->
  let page := firstn limit recent in
  let new_rr := filter (absent_from page) rr_playlist_tracks in
  let new_all := filter (absent_from year) all_playlist_tracks in
  let old := filter (fun id => negb (py_in id desired_ids)) page in
  exists s' log' year',
    run (update_playlists (mem_client limit) cfg rr_playlist_tracks
           all_playlist_tracks) s
    = (Ok (new_rr, new_all), (s', log'))
    /\ store_lookup (rr_playlist_id cfg) s'
       = Some (map (hd PNone) new_rr
               ++ filter (fun x => negb (py_in x old)) recent)
    /\ store_lookup (all_playlist_id cfg) s' = Some year'
    /\ (forall x, In x year' <->
                  In x (map (hd PNone) new_all) \/ In x year).
Proof.
  intros HR HA page new_rr new_all old.
  unfold run, update_playlists.
  assert (P : sp_playlist_tracks (mem_client limit) (rr_playlist_id cfg) (s, [])
              = (Ok (paginate limit recent),
                 (s, [CallPlaylistTracks (rr_playlist_id cfg)]))).
  { unfold sp_playlist_tracks, issue. simpl. now rewrite HR. }
  rewrite (bind_ok _ _ _ _ _ P). cbv beta zeta.
  rewrite (page_items_paginate limit recent limit_positive). fold page.
  assert (G : exists log1,
             get_playlist_tracks (mem_client limit) (all_playlist_id cfg)
               (s, [CallPlaylistTracks (rr_playlist_id cfg)])
             = (Ok year, (s, log1))).
  { rewrite (get_playlist_tracks_spec _ _ _ _ all_id_set). simpl.
    rewrite HA. destruct (paginate_all_items limit year limit_positive) as [E F].
    rewrite F, E. eauto. }
  destruct G as [log1 G]. rewrite (bind_ok _ _ _ _ _ G).
  rewrite (bind_lift_ok _ _ _ _ (new_tracks_filter _ page rr_tuples)).
  rewrite (bind_lift_ok _ _ _ _ (new_tracks_filter _ year all_tuples)).
  fold new_rr new_all. rewrite not_dry.
  rewrite (bind_lift_ok _ _ _ _ (old_track_ids_total page _ rr_tuples)).
  fold desired_ids. fold old.
  destruct (removal_effect limit (rr_playlist_id cfg) old s log1 recent HR)
    as (sa & la & Ea & La & Oa).
  rewrite (bind_ok _ _ _ _ _ Ea).
  destruct (recent_addition_effect limit (rr_playlist_id cfg) new_rr sa la _
              (filter_Forall _ _ _ rr_tuples) La)
    as (sb & lb & Eb & Lb & Ob).
  rewrite (bind_ok _ _ _ _ _ Eb).
  assert (HA' : store_lookup (all_playlist_id cfg) sb = Some year).
  { rewrite (Ob _ two_playlists), (Oa _ two_playlists). exact HA. }
  destruct (yearly_addition_effect limit (all_playlist_id cfg) new_all sb lb
              year (filter_Forall _ _ _ all_tuples) HA')
    as (sc & lc & year' & Ec & Lc & Mc & Oc).
  rewrite (bind_ok _ _ _ _ _ Ec).
  exists sc, lc, year'. split; [reflexivity|]. split; [|split; assumption].
  rewrite (Oc (rr_playlist_id cfg)); [exact Lb | congruence].
Qed.

(** A run that finds nothing to add and nothing to remove only reads. *)
Lemma settled_run_effect (s : store) (recent year : list pyval) :
  store_lookup (rr_playlist_id cfg) s = Some recent ->
  store_lookup (all_playlist_id cfg) s = Some year ->
  filter (absent_from (firstn limit recent)) rr_playlist_tracks = [] ->
  filter (absent_from year) all_playlist_tracks = [] ->
  filter (fun id => negb (py_in id desired_ids)) (firstn limit recent) = [] ->
  exists log',
    run (update_playlists (mem_client limit) cfg rr_playlist_tracks
           all_playlist_tracks) s
    = (Ok ([], []), (s, log'))
    /\ reads_only log'.
Proof.
  intros HR HA Hadd_rr Hadd_all Hold.
  unfold run, update_playlists.
  assert (P : sp_playlist_tracks (mem_client limit) (rr_playlist_id cfg) (s, [])
              = (Ok (paginate limit recent),
                 (s, [CallPlaylistTracks (rr_playlist_id cfg)]))).
  { unfold sp_playlist_tracks, issue. simpl. now rewrite HR. }
  rewrite (bind_ok _ _ _ _ _ P). cbv beta zeta.
  rewrite (page_items_paginate limit recent limit_positive).
  assert (G : get_playlist_tracks (mem_client limit) (all_playlist_id cfg)
                (s, [CallPlaylistTracks (rr_playlist_id cfg)])
              = (Ok year,
                 (s, [CallPlaylistTracks (rr_playlist_id cfg)]
                     ++ CallPlaylistTracks (all_playlist_id cfg)
                        :: repeat CallNext (page_links (paginate limit year))))).
  { rewrite (get_playlist_tracks_spec _ _ _ _ all_id_set). simpl.
    rewrite HA. destruct (paginate_all_items limit year limit_positive) as [E F].
    now rewrite F, E. }
  rewrite (bind_ok _ _ _ _ _ G).
  rewrite (bind_lift_ok _ _ _ _ (new_tracks_filter _ _ rr_tuples)).
  rewrite (bind_lift_ok _ _ _ _ (new_tracks_filter _ _ all_tuples)).
  rewrite not_dry.
  rewrite (bind_lift_ok _ _ _ _ (old_track_ids_total _ _ rr_tuples)).
  fold desired_ids. rewrite Hadd_rr, Hadd_all, Hold.
  eexists. split; [reflexivity|].
  simpl. repeat constructor. apply reads_only_next.
Qed.

Lemma filter_none {A} (f : A -> bool) (l : list A) :
  (forall x, In x l -> f x = false) -> filter f l = [].
Proof.
  induction l as [|x xs IH]; intro H; simpl; [reflexivity|].
  rewrite (H x (or_introl eq_refl)). apply IH. intros y Hy. apply H. now right.
Qed.

(** Two runs in a row are idempotent as long as the recent playlist fits one
    page before and after the first run: the second run finds nothing to add
    to either playlist, nothing to remove, and only reads. *)
Lemma idempotent_within_one_page (s : store) (recent year : list pyval) :
  store_lookup (rr_playlist_id cfg) s = Some recent ->
  store_lookup (all_playlist_id cfg) s = Some year ->
  (List.length recent <= limit)%nat ->
  (forall s1 recent1,
     store_lookup (rr_playlist_id cfg) s1 = Some recent1 ->
     fst (snd (run (update_playlists (mem_client limit) cfg rr_playlist_tracks
                      all_playlist_tracks) s)) = s1 ->
     (List.length recent1 <= limit)%nat) ->
  exists out1 s1 log1 log2 recent1,
    run (update_playlists (mem_client limit) cfg rr_playlist_tracks
           all_playlist_tracks) s
    = (Ok out1, (s1, log1))
    /\ run (update_playlists (mem_client limit) cfg rr_playlist_tracks
              all_playlist_tracks) s1
       = (Ok ([], []), (s1, log2))
    /\ reads_only log2
    /\ store_lookup (rr_playlist_id cfg) s1 = Some recent1
    /\ old_track_ids (firstn limit recent1) rr_playlist_tracks = Ok [].
Proof.
  intros HR HA Hfit Hfit1.
  destruct (run_effect s recent year HR HA)
    as (s1 & log1 & year1 & E1 & R1 & A1 & M1).
  rewrite (firstn_all2 recent Hfit) in E1, R1.
  set (new_rr := filter (absent_from recent) rr_playlist_tracks) in *.
  set (old := filter (fun id => negb (py_in id desired_ids)) recent) in *.
  set (recent1 := map (hd PNone) new_rr
                  ++ filter (fun x => negb (py_in x old)) recent) in *.
  assert (Hfit' : (List.length recent1 <= limit)%nat).
  { apply (Hfit1 s1 recent1 R1). now rewrite E1. }
  assert (Hin : forall t, In t rr_playlist_tracks -> In (hd PNone t) recent1).
  { intros t Ht. unfold recent1. apply in_or_app.
    destruct (py_in (hd PNone t) recent) eqn:I.
    - right. apply filter_In. split; [now apply py_in_In|].
      apply negb_true_iff. destruct (py_in (hd PNone t) old) eqn:O;
        [|reflexivity].
      apply py_in_In in O. unfold old in O. apply filter_In in O.
      destruct O as [_ O]. apply negb_true_iff in O.
      assert (D : py_in (hd PNone t) desired_ids = true).
      { apply py_in_In. unfold desired_ids. now apply in_map. }
      congruence.
    - left. apply in_map. unfold new_rr. apply filter_In.
      split; [assumption|]. unfold absent_from. now rewrite I. }
  assert (Hdes : forall x, In x recent1 -> In x desired_ids).
  { intros x Hx. unfold recent1 in Hx. apply in_app_or in Hx.
    destruct Hx as [Hx|Hx].
    - apply in_map_iff in Hx. destruct Hx as [t [<- Ht]].
      unfold new_rr in Ht. apply filter_In in Ht. unfold desired_ids.
      now apply in_map.
    - apply filter_In in Hx. destruct Hx as [Hx O].
      apply negb_true_iff in O.
      destruct (py_in x desired_ids) eqn:D; [now apply py_in_In|].
      exfalso. assert (O' : py_in x old = true).
      { apply py_in_In. unfold old. apply filter_In. split; [assumption|].
        now rewrite D. }
      congruence. }
  assert (Hold : filter (fun id => negb (py_in id desired_ids))
                   (firstn limit recent1) = []).
  { apply filter_none. intros x Hx. rewrite (firstn_all2 recent1 Hfit') in Hx.
    apply negb_false_iff, py_in_In. now apply Hdes. }
  destruct (settled_run_effect s1 recent1 year1 R1 A1) as (log2 & E2 & RO).
  - apply filter_none. intros t Ht. rewrite (firstn_all2 recent1 Hfit').
    unfold absent_from. apply negb_false_iff, py_in_In. now apply Hin.
  - apply filter_none. intros t Ht. unfold absent_from.
    apply negb_false_iff, py_in_In. apply M1.
    destruct (py_in (hd PNone t) year) eqn:I.
    + right. now apply py_in_In.
    + left. apply in_map. apply filter_In. split; [assumption|].
      unfold absent_from. now rewrite I.
  - exact Hold.
  - exists (new_rr, filter (absent_from year) all_playlist_tracks),
      s1, log1, log2, recent1.
    split; [exact E1|]. split; [exact E2|]. split; [exact RO|].
    split; [exact R1|].
    rewrite (old_track_ids_total _ _ rr_tuples). fold desired_ids.
    now rewrite Hold.
Qed.
End TwoRuns.

(** ** Batches of additions (C1) *)

(** C1, at a failing input.  With 51 tracks to add to an empty recent
    playlist, the run issues one addition that carries the 51 ids.  The same
    51 tracks for the yearly playlist go out as a batch of 50 and a batch
    of 1, the second inserted in front of the first. *)
Theorem recent_addition_exceeds_batch :
  run (update_playlists (mem_client PAGE_LIMIT) (sample_config false)
         (numbered_tracks 1 51) [])
      (sample_store [] [])
  = (Ok (numbered_tracks 1 51, []),
     (sample_store (numbered_ids 1 51) [],
      [CallPlaylistTracks (PStr "recent"); CallPlaylistTracks (PStr "year");
       CallAdd (PStr "recent") (numbered_ids 1 51) 0]))
  /\ ~ within_batch (CallAdd (PStr "recent") (numbered_ids 1 51) 0)
  /\ run (update_playlists (mem_client PAGE_LIMIT) (sample_config false)
            [] (numbered_tracks 1 51))
         (sample_store [] [])
     = (Ok ([], numbered_tracks 1 51),
        (sample_store [] (numbered_ids 51 1 ++ numbered_ids 1 50),
         [CallPlaylistTracks (PStr "recent"); CallPlaylistTracks (PStr "year");
          CallAdd (PStr "year") (numbered_ids 1 50) 0;
          CallAdd (PStr "year") (numbered_ids 51 1) 0])).
Proof.
  split; [vm_compute; reflexivity|]. split; [|vm_compute; reflexivity].
  unfold within_batch, BATCH, numbered_ids.
  rewrite length_map, length_seq. lia.
Qed.

(** ** Reading the recent playlist (C2) *)

(** C2, at a failing input.  The recent playlist holds 101 tracks, one more
    than a page, and all of them are desired.  The diff is computed against
    the first page: track [t101], on the second page, is taken for missing
    and added again.  With 100 of them desired, [t101] should go and is not
    removed.  [get_playlist_tracks] on the same playlist returns the 101
    tracks. *)
Theorem recent_playlist_is_read_one_page :
  run (update_playlists (mem_client PAGE_LIMIT) (sample_config false)
         (numbered_tracks 1 101) [])
      (sample_store (numbered_ids 1 101) [])
  = (Ok ([numbered_track 101], []),
     (sample_store (PStr "t101" :: numbered_ids 1 101) [],
      [CallPlaylistTracks (PStr "recent"); CallPlaylistTracks (PStr "year");
       CallAdd (PStr "recent") [PStr "t101"] 0]))
  /\ In (PStr "t101") (numbered_ids 1 101)
  /\ run (update_playlists (mem_client PAGE_LIMIT) (sample_config false)
            (numbered_tracks 1 100) [])
         (sample_store (numbered_ids 1 101) [])
     = (Ok ([], []),
        (sample_store (numbered_ids 1 101) [],
         [CallPlaylistTracks (PStr "recent"); CallPlaylistTracks (PStr "year")]))
  /\ run (get_playlist_tracks (mem_client PAGE_LIMIT) (PStr "recent"))
         (sample_store (numbered_ids 1 101) [])
     = (Ok (numbered_ids 1 101),
        (sample_store (numbered_ids 1 101) [],
         [CallPlaylistTracks (PStr "recent"); CallNext])).
Proof.
  split; [vm_compute; reflexivity|].
  split; [unfold numbered_ids; apply in_map_iff; exists 101%nat;
          split; [reflexivity | apply in_seq; lia]|].
  split; vm_compute; reflexivity.
Qed.

(** ** Two runs in a row (C8) *)

(** C8, at a failing input.  The recent playlist holds the 100 tracks
    [t001] to [t100], all desired, and one more track, [t000], is desired.
    The first run adds [t000] at the head and removes nothing.  The second
    run, on the playlist the first one left, reads its first page, [t000] to
    [t099], takes [t100] for missing and adds it again. *)
Theorem second_run_adds_again :
  run (update_playlists (mem_client PAGE_LIMIT) (sample_config false)
         (numbered_tracks 0 101) [])
      (sample_store (numbered_ids 1 100) [])
  = (Ok ([numbered_track 0], []),
     (sample_store (numbered_ids 0 101) [],
      [CallPlaylistTracks (PStr "recent"); CallPlaylistTracks (PStr "year");
       CallAdd (PStr "recent") [PStr "t000"] 0]))
  /\ run (update_playlists (mem_client PAGE_LIMIT) (sample_config false)
            (numbered_tracks 0 101) [])
         (sample_store (numbered_ids 0 101) [])
     = (Ok ([numbered_track 100], []),
        (sample_store (PStr "t100" :: numbered_ids 0 101) [],
         [CallPlaylistTracks (PStr "recent"); CallPlaylistTracks (PStr "year");
          CallAdd (PStr "recent") [PStr "t100"] 0])).
Proof.
  split; vm_compute; reflexivity.
Qed.

(* ================================================================== *)
(** * Further properties of the code *)

(** ** The order the sort leaves *)

Lemma string_ltb_asym (x y : string) :
  String.ltb x y = true -> String.ltb y x = false.
Proof.
  intro H. destruct (String.ltb y x) eqn:E; [|reflexivity].
  pose proof (string_ltb_trans _ _ _ H E) as T.
  rewrite string_ltb_irrefl in T. discriminate.
Qed.

Lemma key_before_asym (reverse : bool) (a b : pyval) :
  key_before reverse a b = true -> may_precede reverse a b.
Proof.
  unfold may_precede. destruct a as [|x], b as [|y]; simpl; try discriminate.
  destruct reverse; apply string_ltb_asym.
Qed.

Lemma may_precede_trans (reverse : bool) (x y z : string) :
  may_precede reverse (PStr x) (PStr y) ->
  may_precede reverse (PStr y) (PStr z) ->
  may_precede reverse (PStr x) (PStr z).
Proof.
  unfold may_precede. simpl. destruct reverse; intros H1 H2.
  - destruct (String.ltb x z) eqn:E; [|reflexivity].
    rewrite (string_le_lt_trans y x z H1 E) in H2. discriminate.
  - destruct (String.ltb z x) eqn:E; [|reflexivity].
    rewrite (string_le_lt_trans y z x H2 E) in H1. discriminate.
Qed.

Section SortedKeys.
Variable reverse : bool.

Let before (p q : pyval * pytuple) : Prop := may_precede reverse (fst p) (fst q).
Let keyed (p : pyval * pytuple) : Prop := exists s, fst p = PStr s.

Lemma insert_by_key_sorted (x : pyval * pytuple) (l : list (pyval * pytuple)) :
  keyed x -> Forall keyed l ->
  StronglySorted before l ->
  StronglySorted before (insert_by_key reverse x l).
Proof.
  intros Kx Kl S. induction S as [|y ys S IH Hy]; simpl.
  - constructor; constructor.
  - inversion Kl as [|? ? Ky Kys]; subst.
    destruct (key_before reverse (fst y) (fst x)) eqn:E.
    + constructor; [now apply IH|].
      apply (Permutation_Forall (insert_by_key_perm reverse x ys)).
      constructor; [|exact Hy]. now apply key_before_asym.
    + constructor; [now constructor|].
      constructor; [exact E|].
      rewrite Forall_forall in *. intros z Hz.
      destruct Kx as [sx Ex], Ky as [sy Ey], (Kys z Hz) as [sz Ez].
      specialize (Hy z Hz). unfold before in *.
      rewrite Ex, Ey, Ez in *. unfold may_precede in E.
      now apply may_precede_trans with sy.
Qed.

Lemma insertion_sort_sorted (l : list (pyval * pytuple)) :
  Forall keyed l ->
  StronglySorted before (fold_right (insert_by_key reverse) [] l).
Proof.
  induction 1 as [|x xs Kx Kxs IH]; simpl; [constructor|].
  apply insert_by_key_sorted; [exact Kx | | exact IH].
  now apply (Permutation_Forall (insertion_sort_perm reverse xs)).
Qed.
End SortedKeys.

Lemma sort_keys_are_dates (l : list pytuple) (keys : list pyval) :
  map_result (fun t => tuple_index t 2) l = Ok keys ->
  keys = map track_date l.
Proof.
  revert keys. induction l as [|t ts IH]; simpl; intros keys H.
  - now injection H as <-.
  - unfold tuple_index at 1 in H.
    destruct (nth_error t 2) as [v|] eqn:N; simpl in H; [|discriminate].
    destruct (map_result _ ts) as [ks|]; simpl in H; [|discriminate].
    injection H as <-. f_equal; [|now apply IH].
    unfold track_date. symmetry. now apply nth_error_nth.
Qed.

(** On records that carry a date string, the sort leaves its input in the
    order of the dates. *)
Lemma sort_by_release_date_sorted (reverse : bool) (l l' : list pytuple) :
  Forall has_date_string l ->
  sort_by_release_date reverse l = Ok l' ->
  StronglySorted
    (fun a b => may_precede reverse (track_date a) (track_date b)) l'.
Proof.
  intros Hd H. unfold sort_by_release_date in H.
  destruct (map_result (fun t => tuple_index t 2) l) as [keys|e] eqn:K;
    simpl in H; [|discriminate].
  destruct (_ && _); [discriminate|]. injection H as <-.
  apply sort_keys_are_dates in K. subst keys.
  assert (Hk : Forall (fun p : pyval * pytuple =>
                         (exists s, fst p = PStr s) /\ fst p = track_date (snd p))
                      (combine (map track_date l) l)).
  { clear -Hd. induction Hd as [|t ts [s Hs] _ IH]; simpl; constructor; auto.
    simpl. split; [|reflexivity]. exists s. unfold track_date.
    now apply nth_error_nth. }
  pose proof (Permutation_Forall
                (insertion_sort_perm reverse (combine (map track_date l) l)) Hk)
    as Hk'.
  assert (S : StronglySorted
                (fun p q => may_precede reverse (fst p) (fst q))
                (fold_right (insert_by_key reverse) []
                   (combine (map track_date l) l))).
  { apply insertion_sort_sorted. eapply Forall_impl; [|exact Hk].
    intros p [Hp _]. exact Hp. }
  revert S Hk'.
  generalize (fold_right (insert_by_key reverse) []
                (combine (map track_date l) l)).
  intros ps S. induction S as [|p ps S IH Hp]; intro F; simpl; constructor.
  - apply IH. now inversion F.
  - inversion F as [|? ? [_ Ep] Fps]; subst. apply Forall_map.
    rewrite Forall_forall in *. intros q Hq.
    destruct (Fps q Hq) as [_ Eq]. rewrite <- Ep, <- Eq. now apply Hp.
Qed.

Lemma well_formed_has_date_string (t : pytuple) :
  well_formed t = true -> has_date_string t.
Proof.
  intro W. destruct (well_formed_inv t W) as (i & n & ds & a & b & ->).
  now exists ds.
Qed.

Lemma may_precede_released (a b : pytuple) :
  well_formed a = true -> well_formed b = true ->
  (may_precede false (track_date a) (track_date b) <-> released_no_later a b)
  /\ (may_precede true (track_date a) (track_date b) <-> released_no_later b a).
Proof.
  intros Wa Wb.
  destruct (well_formed_inv a Wa) as (i & n & ds & x & y & ->).
  destruct (well_formed_inv b Wb) as (i' & n' & ds' & x' & y' & ->).
  unfold may_precede, released_no_later, track_date. simpl.
  split; split; intro H; congruence.
Qed.

Lemma StronglySorted_weaken {A} (R R' : A -> A -> Prop) (P : A -> Prop)
    (l : list A) :
  (forall a b, P a -> P b -> R a b -> R' a b) ->
  Forall P l -> StronglySorted R l -> StronglySorted R' l.
Proof.
  intros H F S. induction S as [|x xs S IH Hx]; constructor.
  - apply IH. now inversion F.
  - inversion F as [|? ? Px Pxs]; subst. rewrite Forall_forall in *.
    intros y Hy. apply H; auto.
Qed.

Lemma sort_oldest_first (l l' : list pytuple) :
  Forall (fun t => well_formed t = true) l ->
  sort_by_release_date false l = Ok l' ->
  oldest_first l'.
Proof.
  intros W H.
  assert (W' : Forall (fun t => well_formed t = true) l')
    by exact (Permutation_Forall (sort_by_release_date_perm _ _ _ H) W).
  apply (StronglySorted_weaken
           (fun a b => may_precede false (track_date a) (track_date b))
           _ _ l' (fun a b Wa Wb => proj1 (proj1 (may_precede_released a b Wa Wb))) W').
  apply (sort_by_release_date_sorted false l l'); [|exact H].
  eapply Forall_impl; [|exact W]. apply well_formed_has_date_string.
Qed.

Lemma sort_newest_first (l l' : list pytuple) :
  Forall (fun t => well_formed t = true) l ->
  sort_by_release_date true l = Ok l' ->
  newest_first l'.
Proof.
  intros W H.
  assert (W' : Forall (fun t => well_formed t = true) l')
    by exact (Permutation_Forall (sort_by_release_date_perm _ _ _ H) W).
  apply (StronglySorted_weaken
           (fun a b => may_precede true (track_date a) (track_date b))
           _ _ l' (fun a b Wa Wb => proj1 (proj2 (may_precede_released a b Wa Wb))) W').
  apply (sort_by_release_date_sorted true l l'); [|exact H].
  eapply Forall_impl; [|exact W]. apply well_formed_has_date_string.
Qed.

(** ** More on the release fetcher *)

Lemma albums_split (parse_str : str_parser) (albums : list album) :
  Forall (date_parses_or_is_skipped parse_str) albums
  \/ exists al e,
       In al albums
       /\ parse_release_date parse_str (album_release_date al) = Raise e
       /\ e <> TypeError.
Proof.
  induction albums as [|al rest [IH|(a & e & Hin & Hp & He)]].
  - left. constructor.
  - destruct (parse_release_date parse_str (album_release_date al))
      as [d|e] eqn:P.
    + left. constructor; [|exact IH]. intros e' H.
      unfold date_parses_or_is_skipped in *. congruence.
    + destruct (exn_eqb e TypeError) eqn:E.
      * left. constructor; [|exact IH]. intros e' H.
        assert (e' = e) by congruence. subst e'. now destruct e.
      * right. exists al, e. split; [now left|]. split; [exact P|].
        intros ->. discriminate.
  - right. exists a, e. split; [now right | now split].
Qed.

Lemma emitted_well_formed (parse_str : str_parser) (sp : catalog)
    (art : artist) (today day_n_days_ago beginning_of_year : date)
    (albums : list album) :
  Forall (fun t => well_formed t = true)
    (emitted_tracks parse_str sp art today day_n_days_ago beginning_of_year
       albums).
Proof.
  unfold emitted_tracks. apply Forall_forall. intros t Ht.
  apply in_flat_map in Ht. destruct Ht as [al [_ Ht]].
  unfold release_window, parse_release_date in Ht.
  destruct (album_release_date al) as [|s] eqn:D; simpl in Ht; [contradiction|].
  assert (Hin : In t (release_tracks sp art al)).
  { destruct (parse_str s) as [d|]; [|contradiction].
    destruct (classify today day_n_days_ago beginning_of_year d);
      [assumption | assumption | contradiction]. }
  unfold release_tracks in Hin.
  destruct (album_tracks sp (album_id al)); [|contradiction].
  apply in_map_iff in Hin. destruct Hin as [x [<- _]].
  unfold track_info. now rewrite D.
Qed.

(** What the fetch returns when every release date parses or is [None]. *)
Lemma get_recent_track_returns
    (parse_str : str_parser) (sp : catalog) (today : date) (art : artist)
    (n : Z) (spotify_id : pyval) (albums : list album) (recentStart : date) :
  artist_spotify_id art = Some spotify_id ->
  artist_albums sp spotify_id = Ok albums ->
  date_sub_days today n = Ok recentStart ->
  Forall (date_parses_or_is_skipped parse_str) albums ->
  exists all_tracks,
    get_recent_track parse_str sp today art n
    = Ok (all_tracks,
          hd_error (tracks_in_window Recent parse_str sp art today recentStart
                      (first_day_of_year today) albums))
    /\ Permutation
         (emitted_tracks parse_str sp art today recentStart
            (first_day_of_year today) albums)
         all_tracks
    /\ newest_first all_tracks.
Proof.
  intros Hid Halbums Hsub Hparse.
  unfold get_recent_track. rewrite Hid, Halbums, Hsub. simpl.
  rewrite (albums_loop_ok parse_str sp art today recentStart _ albums Hparse).
  simpl. rewrite first_candidate_none.
  pose proof (emitted_well_formed parse_str sp art today recentStart
                (first_day_of_year today) albums) as W.
  destruct (sort_by_release_date_total true _
              (emitted_has_date_string parse_str sp art today recentStart
                 (first_day_of_year today) albums)) as [sorted Hs].
  exists sorted. rewrite Hs. simpl. split; [reflexivity|]. split.
  - now apply sort_by_release_date_perm in Hs.
  - exact (sort_newest_first _ _ W Hs).
Qed.

(** X1.  [get_recent_track] raises in exactly three cases: the artist has no
    ['spotify_id'] key; the albums were listed and the start of the window
    falls outside the calendar; the albums were listed and the date of one of
    them makes the parser raise something else than [TypeError].  A failure
    to list the albums or the tracks of an album never makes it raise. *)
Theorem get_recent_track_raises_iff
    (parse_str : str_parser) (sp : catalog) (today : date) (art : artist)
    (n : Z) :
  (exists e, get_recent_track parse_str sp today art n = Raise e)
  <-> artist_spotify_id art = None
      \/ exists spotify_id albums,
           artist_spotify_id art = Some spotify_id
           /\ artist_albums sp spotify_id = Ok albums
           /\ (date_sub_days today n = Raise OverflowError
               \/ exists al e,
                    In al albums
                    /\ parse_release_date parse_str (album_release_date al)
                       = Raise e
                    /\ e <> TypeError).
Proof.
  split.
  - intros [e H]. destruct (artist_spotify_id art) as [id|] eqn:Hid;
      [|now left].
    right. exists id.
    destruct (artist_albums sp id) as [albums|e'] eqn:Ha.
    + exists albums. split; [reflexivity|]. split; [reflexivity|].
      destruct (date_sub_days today n) as [dn|e'] eqn:Hs.
      * right. destruct (albums_split parse_str albums) as [F|B]; [|exact B].
        destruct (get_recent_track_returns parse_str sp today art n id albums
                    dn Hid Ha Hs F) as (tr & E & _).
        congruence.
      * left. unfold date_sub_days in Hs.
        destruct (_ && _); [discriminate | congruence].
    + unfold get_recent_track in H. rewrite Hid, Ha in H. discriminate.
  - intros [Hid|(id & albums & Hid & Ha & [Hs|(al & e & Hin & Hp & He)])].
    + exists KeyError. unfold get_recent_track. now rewrite Hid.
    + exists OverflowError. unfold get_recent_track. now rewrite Hid, Ha, Hs.
    + destruct (date_sub_days today n) as [dn|e'] eqn:Hs.
      * exact (unparseable_date_is_fatal parse_str sp today art n id albums dn
                 al e Hid Ha Hs Hin Hp He).
      * exists e'. unfold get_recent_track. now rewrite Hid, Ha, Hs.
Qed.

(** The shape of what the fetch returns. *)
Lemma get_recent_track_shape
    (parse_str : str_parser) (sp : catalog) (today : date) (art : artist)
    (n : Z) (all_tracks : list pytuple) (latest_track : option pytuple) :
  get_recent_track parse_str sp today art n = Ok (all_tracks, latest_track) ->
  Forall (fun t => well_formed t = true) all_tracks
  /\ newest_first all_tracks
  /\ (forall t, latest_track = Some t -> In t all_tracks).
Proof.
  intro H.
  destruct (artist_spotify_id art) as [id|] eqn:Hid;
    [|unfold get_recent_track in H; rewrite Hid in H; discriminate].
  destruct (artist_albums sp id) as [albums|e'] eqn:Ha.
  - destruct (date_sub_days today n) as [dn|e'] eqn:Hs;
      [|unfold get_recent_track in H; rewrite Hid, Ha, Hs in H; discriminate].
    destruct (albums_split parse_str albums) as [F|(al & e & Hin & Hp & He)].
    + destruct (get_recent_track_returns parse_str sp today art n id albums dn
                  Hid Ha Hs F) as (tr & E & P & S).
      rewrite E in H. injection H as <- <-.
      split; [|split; [exact S|]].
      * exact (Permutation_Forall P (emitted_well_formed _ _ _ _ _ _ _)).
      * intros t Ht. apply (Permutation_in _ P). apply emitted_iff. left.
        destruct (tracks_in_window Recent _ _ _ _ _ _ _) as [|t' r];
          [discriminate|]. injection Ht as ->. now left.
    + destruct (unparseable_date_is_fatal parse_str sp today art n id albums dn
                  al e Hid Ha Hs Hin Hp He) as [e' E].
      congruence.
  - unfold get_recent_track in H. rewrite Hid, Ha in H. injection H as <- <-.
    split; [constructor|]. split; [constructor | discriminate].
Qed.

(** X2.  Whatever [get_recent_track] returns, every track of [all_tracks] is
    a tuple of five fields with a date string, [all_tracks] runs from the
    newest release date to the oldest, and [latest_track], when there is one,
    is one of [all_tracks]. *)
Theorem get_recent_track_output_shape
    (parse_str : str_parser) (sp : catalog) (today : date) (art : artist)
    (n : Z) (all_tracks : list pytuple) (latest_track : option pytuple) :
  get_recent_track parse_str sp today art n = Ok (all_tracks, latest_track) ->
  Forall (fun t => well_formed t = true) all_tracks
  /\ newest_first all_tracks
  /\ (forall t, latest_track = Some t -> In t all_tracks).
Proof. apply get_recent_track_shape. Qed.

(** On the sample catalog. *)
Lemma get_recent_track_output_shape_witness :
  exists all_tracks latest_track,
    get_recent_track (dateutil_parse_str sample_today)
      (sample_catalog sample_albums) sample_today sample_artist 13
    = Ok (all_tracks, latest_track)
    /\ Forall (fun t => well_formed t = true) all_tracks
    /\ newest_first all_tracks
    /\ (forall t, latest_track = Some t -> In t all_tracks).
Proof.
  eexists. eexists. split; [vm_compute; reflexivity|].
  apply (get_recent_track_output_shape (dateutil_parse_str sample_today)
           (sample_catalog sample_albums) sample_today sample_artist 13).
  vm_compute. reflexivity.
Defined.

Lemma albums_loop_app (step : fetch_state -> album -> result fetch_state)
    (l1 l2 : list album) (st : fetch_state) :
  albums_loop step (l1 ++ l2) st
  = match albums_loop step l1 st with
    | Ok st' => albums_loop step l2 st'
    | Raise e => Raise e
    end.
Proof.
  revert st. induction l1 as [|a l1 IH]; intro st; simpl; [reflexivity|].
  destruct (step st a); [apply IH | reflexivity].
Qed.

Lemma album_step_silent (parse_str : str_parser) (sp : catalog) (art : artist)
    (today day_n_days_ago beginning_of_year : date) (al : album)
    (st : fetch_state) :
  silent_release parse_str sp today day_n_days_ago beginning_of_year al ->
  album_step parse_str sp art today day_n_days_ago beginning_of_year st al
  = Ok st.
Proof.
  unfold album_step. intros [H|(d & H & [C|[T|[e T]]])]; rewrite H;
    try reflexivity.
  - now rewrite C.
  - rewrite T. now destruct (classify _ _ _ d).
  - rewrite T. now destruct (classify _ _ _ d).
Qed.

(** X3.  A release whose date is [None], or that falls outside both windows,
    or whose track listing fails or is empty, changes nothing: the fetch
    returns, or raises, what it would had the provider not listed it. *)
Theorem silent_release_is_as_if_unlisted
    (parse_str : str_parser) (sp : catalog) (today : date) (art : artist)
    (n : Z) (spotify_id : pyval) (recentStart : date)
    (before : list album) (al : album) (after : list album) :
  artist_spotify_id art = Some spotify_id ->
  artist_albums sp spotify_id = Ok (before ++ al :: after) ->
  date_sub_days today n = Ok recentStart ->
  silent_release parse_str sp today recentStart (first_day_of_year today) al ->
  get_recent_track parse_str sp today art n
  = get_recent_track parse_str (with_albums sp (before ++ after)) today art n.
Proof.
  intros Hid Ha Hs Hq. unfold get_recent_track.
  rewrite Hid, Ha, Hs. simpl.
  change (album_step parse_str (with_albums sp (before ++ after)))
    with (album_step parse_str sp).
  rewrite !albums_loop_app. simpl.
  destruct (albums_loop _ before ([], None)) as [st|e]; [|reflexivity].
  now rewrite (album_step_silent _ _ _ _ _ _ _ st Hq).
Qed.

(** On the sample catalog the release of last year can be left out. *)
Lemma silent_release_is_as_if_unlisted_witness :
  get_recent_track (dateutil_parse_str sample_today)
    (sample_catalog sample_albums) sample_today sample_artist 13
  = get_recent_track (dateutil_parse_str sample_today)
      (with_albums (sample_catalog sample_albums)
         ([sample_album "winter" "2024-02-10";
           sample_album "june-a" "2024-06-10";
           sample_album "june-b" "2024-06-18"] ++ []))
      sample_today sample_artist 13.
Proof.
  apply (silent_release_is_as_if_unlisted (dateutil_parse_str sample_today)
           (sample_catalog sample_albums) sample_today sample_artist 13
           (PStr "artist-1") (ymd2ord 2024 6 7)
           [sample_album "winter" "2024-02-10";
            sample_album "june-a" "2024-06-10";
            sample_album "june-b" "2024-06-18"]
           (sample_album "past" "2023-05-05") []).
  - reflexivity.
  - reflexivity.
  - reflexivity.
  - right. exists (ymd2ord 2023 5 5). split; [reflexivity|]. left. reflexivity.
Defined.

(** ** More on the deduplicator *)

(** What the deduplicator returns on track records. *)
Lemma deduplicate_returns (tracks : list pytuple) :
  Forall (fun t => track_record t = true) tracks ->
  exists out,
    deduplicate_track_list tracks = Ok out
    /\ NoDup (map track_name out)
    /\ Forall (fun t => well_formed t = true) out
    /\ oldest_first out
    /\ (forall r, In r out -> first_latest r tracks)
    /\ (forall t, In t tracks -> well_formed t = true ->
          exists r, In r out /\ track_name r = track_name t).
Proof.
  intro Hall.
  destruct (dedup_loop_invariant tracks [] [] dedup_invariant_empty Hall)
    as (d & Hloop & Hnd & Hent & Hcov).
  simpl in Hent, Hcov.
  assert (Hwf : Forall (fun t => well_formed t = true) (dict_values d)).
  { apply Forall_forall. intros v Hv. unfold dict_values in Hv.
    apply in_map_iff in Hv. destruct Hv as [[k v'] [E Hin]]. simpl in E.
    subst v'. now destruct (Hent k v Hin) as (W & _ & _). }
  destruct (sort_by_release_date_total false (dict_values d)) as [out Hsort].
  { eapply Forall_impl; [|exact Hwf]. apply well_formed_has_date_string. }
  exists out. unfold deduplicate_track_list. rewrite Hloop. simpl.
  split; [assumption|].
  pose proof (sort_by_release_date_perm _ _ _ Hsort) as P.
  assert (Hval : forall r, In r out -> exists k, In (k, r) d).
  { intros r Hr. apply (Permutation_in _ (Permutation_sym P)) in Hr.
    unfold dict_values in Hr. apply in_map_iff in Hr.
    destruct Hr as [[k v] [E Hin]]. simpl in E. subst v. now exists k. }
  split; [|split; [|split; [|split]]].
  - apply (Permutation_NoDup (Permutation_map track_name P)).
    rewrite names_of_values; [assumption|].
    intros k v Hin. now destruct (Hent k v Hin) as (_ & N & _).
  - exact (Permutation_Forall P Hwf).
  - exact (sort_oldest_first _ _ Hwf Hsort).
  - intros r Hr. destruct (Hval r Hr) as [k Hin].
    now destruct (Hent k r Hin) as (_ & _ & F).
  - intros t Ht Wt. specialize (Hcov t Ht Wt).
    apply in_map_iff in Hcov. destruct Hcov as [[k v] [E Hin]]. simpl in E.
    exists v. split.
    + apply (Permutation_in _ P). unfold dict_values.
      apply in_map_iff. now exists (k, v).
    + destruct (Hent k v Hin) as (_ & N & _). congruence.
Qed.

(** X4.  On track records the deduplicator returns its records oldest
    first: each is released no later than every record after it. *)
Theorem deduplicate_output_oldest_first (tracks : list pytuple) :
  Forall (fun t => track_record t = true) tracks ->
  exists out,
    deduplicate_track_list tracks = Ok out
    /\ Forall (fun t => well_formed t = true) out
    /\ oldest_first out.
Proof.
  intro H. destruct (deduplicate_returns tracks H) as (out & E & _ & W & S & _).
  now exists out.
Qed.

Lemma deduplicate_output_oldest_first_witness :
  exists out,
    deduplicate_track_list sample_tracks = Ok out
    /\ Forall (fun t => well_formed t = true) out
    /\ oldest_first out.
Proof.
  apply (deduplicate_output_oldest_first sample_tracks). repeat constructor.
Defined.

Lemma dedup_loop_distinct (l : list pytuple) (d : track_dict) :
  Forall (fun t => well_formed t = true) l ->
  NoDup (map track_name l) ->
  (forall t, In t l -> ~ In (track_name t) (map fst d)) ->
  dedup_loop l d = Ok (d ++ map (fun t => (track_name t, t)) l).
Proof.
  intro W. revert d. induction W as [|t ts Wt _ IH]; intros d Hnd Hfresh; simpl.
  - now rewrite app_nil_r.
  - destruct (well_formed_inv t Wt) as (i & n & ds & a & b & ->).
    unfold dedup_step. simpl List.length. simpl Nat.ltb. cbv iota.
    assert (L : dict_lookup n d = None).
    { apply dict_lookup_none. apply (Hfresh _ (or_introl eq_refl)). }
    rewrite L, (dict_set_new _ _ _ L).
    inversion Hnd as [|? ? Hn Hnd']; subst.
    change (5 <? 5)%nat with false. cbv iota.
    rewrite IH.
    + now rewrite <- app_assoc.
    + exact Hnd'.
    + intros u Hu. rewrite map_app. intro Hin. apply in_app_or in Hin.
      destruct Hin as [Hin|[E|[]]].
      * exact (Hfresh u (or_intror Hu) Hin).
      * simpl in E. apply Hn. change (track_name [i; n; PStr ds; a; b]) with n.
        rewrite E. now apply in_map.
Qed.

Lemma insertion_sort_of_sorted (l : list pytuple) :
  Forall (fun t => well_formed t = true) l ->
  oldest_first l ->
  fold_right (insert_by_key false) [] (combine (map track_date l) l)
  = combine (map track_date l) l.
Proof.
  intros W S. induction S as [|x xs S IH Hx]; simpl; [reflexivity|].
  inversion W as [|? ? Wx Wxs]; subst. rewrite (IH Wxs).
  destruct xs as [|y ys]; simpl; [reflexivity|].
  inversion Hx as [|? ? Hxy _]; subst. inversion Wxs as [|? ? Wy _]; subst.
  apply (may_precede_released x y Wx Wy) in Hxy. unfold may_precede in Hxy.
  now rewrite Hxy.
Qed.

Lemma sort_of_sorted (l : list pytuple) :
  Forall (fun t => well_formed t = true) l ->
  oldest_first l ->
  sort_by_release_date false l = Ok l.
Proof.
  intros W S. unfold sort_by_release_date.
  rewrite (map_result_total _ track_date).
  - simpl.
    assert (E : existsb is_none (map track_date l) = false).
    { clear S. induction W as [|t ts Wt _ IH]; simpl; [reflexivity|].
      destruct (well_formed_inv t Wt) as (i & n & ds & a & b & ->).
      exact IH. }
    rewrite E, andb_false_r, (insertion_sort_of_sorted l W S).
    f_equal. apply map_snd_combine. now rewrite length_map.
  - eapply Forall_impl; [|exact W]. intros t Wt.
    destruct (well_formed_inv t Wt) as (i & n & ds & a & b & ->). reflexivity.
Qed.

(** X5.  Deduplicating twice changes nothing: on what the deduplicator
    returned for a list of track records, it returns the same list. *)
Theorem deduplicate_idempotent (tracks out : list pytuple) :
  Forall (fun t => track_record t = true) tracks ->
  deduplicate_track_list tracks = Ok out ->
  deduplicate_track_list out = Ok out.
Proof.
  intros H E.
  destruct (deduplicate_returns tracks H) as (out' & E' & Hnd & W & S & _).
  assert (out' = out) by congruence. subst out'.
  unfold deduplicate_track_list.
  rewrite (dedup_loop_distinct out [] W Hnd (fun _ _ F => F)). simpl.
  unfold dict_values. rewrite map_map. simpl. rewrite map_id.
  now apply sort_of_sorted.
Qed.

Lemma deduplicate_idempotent_witness :
  deduplicate_track_list
    [sample_track "id4" "Song B" "2024-03-15";
     sample_track "id2" "Song A" "2024-06-01"]
  = Ok [sample_track "id4" "Song B" "2024-03-15";
        sample_track "id2" "Song A" "2024-06-01"].
Proof.
  apply (deduplicate_idempotent sample_tracks).
  - repeat constructor.
  - reflexivity.
Defined.

Lemma dedup_loop_app (l1 l2 : list pytuple) (d : track_dict) :
  dedup_loop (l1 ++ l2) d
  = match dedup_loop l1 d with
    | Ok d' => dedup_loop l2 d'
    | Raise e => Raise e
    end.
Proof.
  revert d. induction l1 as [|t l1 IH]; intro d; simpl; [reflexivity|].
  destruct (dedup_step d t); [apply IH | reflexivity].
Qed.

(** X6.  A tuple of more than five fields that comes after track records
    makes the deduplicator raise [ValueError], whatever follows it. *)
Theorem deduplicate_rejects_long_tuple
    (before : list pytuple) (t : pytuple) (after : list pytuple) :
  Forall (fun t => track_record t = true) before ->
  (5 < List.length t)%nat ->
  deduplicate_track_list (before ++ t :: after) = Raise ValueError.
Proof.
  intros H Hlen.
  destruct (dedup_loop_invariant before [] [] dedup_invariant_empty H)
    as (d & Hloop & _).
  unfold deduplicate_track_list. rewrite dedup_loop_app, Hloop. simpl.
  unfold dedup_step.
  destruct t as [|a [|b [|c [|d0 [|e [|f t]]]]]]; simpl in Hlen; try lia.
  reflexivity.
Qed.

Lemma deduplicate_rejects_long_tuple_witness :
  deduplicate_track_list
    ([sample_track "id1" "Song A" "2024-05-01"]
     ++ (sample_track "id2" "Song A" "2024-06-01" ++ [PStr "extra"])
     :: [sample_track "id3" "Song B" "2024-06-02"])
  = Raise ValueError.
Proof.
  apply (deduplicate_rejects_long_tuple
           [sample_track "id1" "Song A" "2024-05-01"]
           (sample_track "id2" "Song A" "2024-06-01" ++ [PStr "extra"])
           [sample_track "id3" "Song B" "2024-06-02"]).
  - repeat constructor.
  - simpl. lia.
Defined.

(** ** Collecting the tracks of the roster *)

Lemma flat_map_length_le {A B} (f : A -> list B) (l : list A) :
  (forall x, (List.length (f x) <= 1)%nat) ->
  (List.length (flat_map f l) <= List.length l)%nat.
Proof.
  intro H. induction l as [|x xs IH]; simpl; [lia|].
  rewrite length_app. specialize (H x). lia.
Qed.

Section Collect.
Variable parse_str : str_parser.
Variable sp : catalog.
Variable today : date.
Variable n : Z.

Let step := collect_step parse_str sp today n.
Let all_of := collected_all parse_str sp today n.
Let latest_of := collected_latest parse_str sp today n.

Lemma collect_step_effect (all_tracks rr_tracks : list pytuple) (art : artist) :
  step (all_tracks, rr_tracks) art
  = (all_tracks ++ all_of [art], rr_tracks ++ latest_of [art]).
Proof.
  unfold step, collect_step, all_of, latest_of, collected_all,
    collected_latest, fetch_of. simpl.
  destruct (truthy (dict_get (artist_spotify_id art))); simpl;
    [|now rewrite !app_nil_r].
  destruct (get_recent_track parse_str sp today art n) as [[a [t|]]|e];
    simpl; rewrite ?app_nil_r; try reflexivity.
  destruct t; simpl; now rewrite ?app_nil_r.
Qed.

Lemma collect_fold (artists : list artist) (all_tracks rr_tracks : list pytuple) :
  fold_left step artists (all_tracks, rr_tracks)
  = (all_tracks ++ all_of artists, rr_tracks ++ latest_of artists).
Proof.
  revert all_tracks rr_tracks.
  induction artists as [|art rest IH]; intros all_tracks rr_tracks.
  - simpl. now rewrite !app_nil_r.
  - change (fold_left step (art :: rest) (all_tracks, rr_tracks))
      with (fold_left step rest (step (all_tracks, rr_tracks) art)).
    rewrite collect_step_effect, IH, <- !app_assoc.
    unfold all_of, latest_of, collected_all, collected_latest. simpl.
    now rewrite !app_nil_r.
Qed.

Lemma fetch_of_shape (art : artist) (a : list pytuple) (l : option pytuple) :
  fetch_of parse_str sp today n art = Some (a, l) ->
  get_recent_track parse_str sp today art n = Ok (a, l)
  /\ truthy (dict_get (artist_spotify_id art)) = true.
Proof.
  unfold fetch_of.
  destruct (truthy (dict_get (artist_spotify_id art))); [|discriminate].
  destruct (get_recent_track parse_str sp today art n) as [r|e];
    [|discriminate].
  intro H. injection H as ->. now split.
Qed.

Lemma collected_all_well_formed (artists : list artist) :
  Forall (fun t => well_formed t = true) (all_of artists).
Proof.
  unfold all_of, collected_all. apply Forall_forall. intros t Ht.
  apply in_flat_map in Ht. destruct Ht as [art [_ Ht]].
  destruct (fetch_of parse_str sp today n art) as [[a l]|] eqn:F;
    [|contradiction].
  apply fetch_of_shape in F. destruct F as [F _].
  destruct (get_recent_track_shape _ _ _ _ _ _ _ F) as (W & _).
  rewrite Forall_forall in W. now apply W.
Qed.

Lemma collected_latest_iff (artists : list artist) (t : pytuple) :
  In t (latest_of artists)
  <-> exists art a,
        In art artists
        /\ truthy (dict_get (artist_spotify_id art)) = true
        /\ get_recent_track parse_str sp today art n = Ok (a, Some t).
Proof.
  unfold latest_of, collected_latest. rewrite in_flat_map. split.
  - intros [art [Hart Ht]].
    destruct (fetch_of parse_str sp today n art) as [[a [u|]]|] eqn:F;
      try contradiction.
    destruct (truthy_track (Some u)); [|contradiction].
    destruct Ht as [->|[]]. apply fetch_of_shape in F. destruct F as [F T].
    now exists art, a.
  - intros (art & a & Hart & T & F). exists art. split; [exact Hart|].
    unfold fetch_of. rewrite T, F.
    destruct (get_recent_track_shape _ _ _ _ _ _ _ F) as (W & _ & L).
    specialize (L t eq_refl). rewrite Forall_forall in W.
    destruct (well_formed_inv t (W t L)) as (i & nm & ds & x & y & ->).
    now left.
Qed.

Lemma collected_latest_well_formed (artists : list artist) :
  Forall (fun t => well_formed t = true) (latest_of artists).
Proof.
  apply Forall_forall. intros t Ht. apply collected_latest_iff in Ht.
  destruct Ht as (art & a & _ & _ & F).
  destruct (get_recent_track_shape _ _ _ _ _ _ _ F) as (W & _ & L).
  rewrite Forall_forall in W. apply W. now apply L.
Qed.

Lemma collected_latest_length (artists : list artist) :
  (List.length (latest_of artists) <= List.length artists)%nat.
Proof.
  unfold latest_of, collected_latest. apply flat_map_length_le. intro art.
  destruct (fetch_of parse_str sp today n art) as [[a [[|x u]|]]|];
    simpl; lia.
Qed.

(** What [collect_tracks] returns. *)
Lemma collect_tracks_returns (artists : list artist) :
  exists rr_tracks all_tracks,
    collect_tracks parse_str sp today artists n = Ok (rr_tracks, all_tracks)
    /\ Permutation (latest_of artists) rr_tracks
    /\ newest_first rr_tracks
    /\ Forall (fun t => well_formed t = true) rr_tracks
    /\ NoDup (map track_name all_tracks)
    /\ oldest_first all_tracks
    /\ Forall (fun t => well_formed t = true) all_tracks
    /\ (forall r, In r all_tracks -> In r (all_of artists))
    /\ (forall t, In t (all_of artists) ->
          exists r, In r all_tracks /\ track_name r = track_name t).
Proof.
  unfold collect_tracks. fold step. rewrite collect_fold. simpl.
  pose proof (collected_latest_well_formed artists) as Wl.
  pose proof (collected_all_well_formed artists) as Wa.
  destruct (sort_by_release_date_total true (latest_of artists)) as [rr Hrr].
  { eapply Forall_impl; [|exact Wl]. apply well_formed_has_date_string. }
  destruct (sort_by_release_date_total true (all_of artists)) as [sorted Hs].
  { eapply Forall_impl; [|exact Wa]. apply well_formed_has_date_string. }
  pose proof (sort_by_release_date_perm _ _ _ Hrr) as Prr.
  pose proof (sort_by_release_date_perm _ _ _ Hs) as Ps.
  pose proof (Permutation_Forall Ps Wa) as Ws.
  destruct (deduplicate_returns sorted) as (out & E & Hnd & Wo & So & Hf & Hc).
  { eapply Forall_impl; [|exact Ws]. intros t W. unfold track_record.
    rewrite W. apply orb_true_r. }
  exists rr, out. fold all_of latest_of. rewrite Hrr, Hs. simpl. rewrite E. simpl.
  split; [reflexivity|]. split; [exact Prr|].
  split; [exact (sort_newest_first _ _ Wl Hrr)|].
  split; [exact (Permutation_Forall Prr Wl)|].
  split; [exact Hnd|]. split; [exact So|]. split; [exact Wo|]. split.
  - intros r Hr. apply (Permutation_in _ (Permutation_sym Ps)).
    destruct (Hf r Hr) as (l1 & l2 & -> & _). apply in_or_app. right. now left.
  - intros t Ht. apply Hc.
    + now apply (Permutation_in _ Ps).
    + rewrite Forall_forall in Wa. now apply Wa.
Qed.
End Collect.

Lemma collected_all_iff (parse_str : str_parser) (sp : catalog) (today : date)
    (n : Z) (artists : list artist) (t : pytuple) :
  In t (collected_all parse_str sp today n artists)
  <-> exists art a l,
        In art artists
        /\ truthy (dict_get (artist_spotify_id art)) = true
        /\ get_recent_track parse_str sp today art n = Ok (a, l)
        /\ In t a.
Proof.
  unfold collected_all. rewrite in_flat_map. split.
  - intros [art [Hart Ht]].
    destruct (fetch_of parse_str sp today n art) as [[a l]|] eqn:F;
      [|contradiction].
    apply fetch_of_shape in F. destruct F as [F T]. now exists art, a, l.
  - intros (art & a & l & Hart & T & F & Ht). exists art.
    split; [exact Hart|]. unfold fetch_of. now rewrite T, F.
Qed.

Lemma flat_map_filter {A B} (f : A -> list B) (c : A -> bool) (l : list A) :
  (forall x, c x = false -> f x = []) ->
  flat_map f (filter c l) = flat_map f l.
Proof.
  intro H. induction l as [|x xs IH]; simpl; [reflexivity|].
  destruct (c x) eqn:C; simpl; [now rewrite IH|].
  now rewrite (H x C), IH.
Qed.

(** X7.  [collect_tracks] never raises, whatever the provider and the parser
    do and whatever the roster holds, and every track it returns, in either
    list, is a tuple of five fields with a date string. *)
Theorem collect_tracks_never_raises
    (parse_str : str_parser) (sp : catalog) (today : date)
    (artists : list artist) (n : Z) :
  exists rr_tracks all_tracks,
    collect_tracks parse_str sp today artists n = Ok (rr_tracks, all_tracks)
    /\ Forall (fun t => well_formed t = true) rr_tracks
    /\ Forall (fun t => well_formed t = true) all_tracks.
Proof.
  destruct (collect_tracks_returns parse_str sp today n artists)
    as (rr & al & E & _ & _ & Wr & _ & _ & Wa & _).
  now exists rr, al.
Qed.

(** X8.  An artist without a usable ['spotify_id'] (absent, [None] or
    empty), or whose fetch raises, brings nothing and stops nothing:
    [collect_tracks] returns what it returns on the roster without these
    artists. *)
Theorem failing_artist_is_as_if_absent
    (parse_str : str_parser) (sp : catalog) (today : date)
    (artists : list artist) (n : Z) :
  collect_tracks parse_str sp today artists n
  = collect_tracks parse_str sp today
      (filter (contributes parse_str sp today n) artists) n.
Proof.
  unfold collect_tracks. rewrite !collect_fold. simpl.
  unfold collected_all, collected_latest.
  rewrite !(flat_map_filter _ (contributes parse_str sp today n)); try reflexivity;
    intros art C; unfold contributes in C;
    destruct (fetch_of parse_str sp today n art); (discriminate || reflexivity).
Qed.

(** X9.  The recent list [collect_tracks] returns holds exactly the latest
    tracks of the artists that have a usable id and whose fetch returns one;
    it has at most one track per artist of the roster and runs from the
    newest release date to the oldest. *)
Theorem collect_tracks_recent_list
    (parse_str : str_parser) (sp : catalog) (today : date)
    (artists : list artist) (n : Z) :
  exists rr_tracks all_tracks,
    collect_tracks parse_str sp today artists n = Ok (rr_tracks, all_tracks)
    /\ (forall t, In t rr_tracks <->
          exists art a,
            In art artists
            /\ truthy (dict_get (artist_spotify_id art)) = true
            /\ get_recent_track parse_str sp today art n = Ok (a, Some t))
    /\ (List.length rr_tracks <= List.length artists)%nat
    /\ newest_first rr_tracks.
Proof.
  destruct (collect_tracks_returns parse_str sp today n artists)
    as (rr & al & E & P & S & _).
  exists rr, al. split; [exact E|]. split; [|split; [|exact S]].
  - intro t. rewrite <- collected_latest_iff. split; intro H.
    + exact (Permutation_in _ (Permutation_sym P) H).
    + exact (Permutation_in _ P H).
  - rewrite <- (Permutation_length P). apply collected_latest_length.
Qed.

(** X10.  The yearly list [collect_tracks] returns has no two tracks of the
    same name and runs from the oldest release date to the newest, the sort
    from the newest made before the deduplication notwithstanding; each of
    its tracks was returned by the fetch of an artist of the roster, and
    every name fetched is the name of one of its tracks. *)
Theorem collect_tracks_yearly_list
    (parse_str : str_parser) (sp : catalog) (today : date)
    (artists : list artist) (n : Z) :
  exists rr_tracks all_tracks,
    collect_tracks parse_str sp today artists n = Ok (rr_tracks, all_tracks)
    /\ NoDup (map track_name all_tracks)
    /\ oldest_first all_tracks
    /\ (forall r, In r all_tracks ->
          exists art a l,
            In art artists
            /\ truthy (dict_get (artist_spotify_id art)) = true
            /\ get_recent_track parse_str sp today art n = Ok (a, l)
            /\ In r a)
    /\ (forall art a l t,
          In art artists ->
          truthy (dict_get (artist_spotify_id art)) = true ->
          get_recent_track parse_str sp today art n = Ok (a, l) ->
          In t a ->
          exists r, In r all_tracks /\ track_name r = track_name t).
Proof.
  destruct (collect_tracks_returns parse_str sp today n artists)
    as (rr & al & E & _ & _ & _ & Hnd & S & _ & Hin & Hcov).
  exists rr, al. split; [exact E|]. split; [exact Hnd|]. split; [exact S|].
  split.
  - intros r Hr. apply collected_all_iff. now apply Hin.
  - intros art a l t Hart T F Ht. apply Hcov. apply collected_all_iff.
    now exists art, a, l.
Qed.

(** ** Configuration and roster *)

(** The value of [DAYS_LOOKBACK] as [get_config] reads it. *)
Lemma get_config_cases (int_of_str : string -> result Z) (env : environ)
    (dry : bool) (n : Z) :
  match env "DAYS_LOOKBACK" with
  | Some s => int_of_str s
  | None => Ok 13
  end = Ok n ->
  (env "SPOTIFY_CLIENT_ID" = None \/ env "SPOTIFY_CLIENT_SECRET" = None
   \/ env "SPOTIFY_RR_PLAYLIST_ID" = None
   \/ env "SPOTIFY_ALL_PLAYLIST_ID" = None)
  /\ get_config int_of_str env dry = Exit 1
  \/ exists cid secret rr al,
       env "SPOTIFY_CLIENT_ID" = Some cid
       /\ env "SPOTIFY_CLIENT_SECRET" = Some secret
       /\ env "SPOTIFY_RR_PLAYLIST_ID" = Some rr
       /\ env "SPOTIFY_ALL_PLAYLIST_ID" = Some al
       /\ get_config int_of_str env dry
          = Started {|
              client_id := PStr cid;
              client_secret := PStr secret;
              n_days_ago := n;
              artists_file :=
                match env "ARTISTS_FILE" with
                | Some s => s
                | None => "artists.json"
                end;
              exclude_ai :=
                match env "EXCLUDE_AI" with
                | Some s => FlagStr s
                | None => FlagTrue
                end;
              playlists := {| rr_playlist_id := PStr rr;
                              all_playlist_id := PStr al;
                              dry_run := dry |}
            |}.
Proof.
  intro H. unfold get_config, environ_get. rewrite H.
  destruct (env "SPOTIFY_CLIENT_ID") as [cid|] eqn:E1;
    destruct (env "SPOTIFY_CLIENT_SECRET") as [secret|] eqn:E2;
    destruct (env "SPOTIFY_RR_PLAYLIST_ID") as [rr|] eqn:E3;
    destruct (env "SPOTIFY_ALL_PLAYLIST_ID") as [al|] eqn:E4;
    simpl;
    try (left; split; [tauto | reflexivity]).
  right. exists cid, secret, rr, al. now repeat split.
Qed.

(** X11.  When [DAYS_LOOKBACK] is unset or denotes a number, [get_config]
    ends the process with [exit(1)] exactly when one of the client id, the
    client secret and the two playlist ids is not set; a variable set to the
    empty string is not missing, and no other variable can make it exit.
    Otherwise it returns, with the lookback read and the playlist ids as
    set. *)
Theorem get_config_exits_iff (int_of_str : string -> result Z) (env : environ)
    (dry : bool) (n : Z) :
  match env "DAYS_LOOKBACK" with
  | Some s => int_of_str s
  | None => Ok 13
  end = Ok n ->
  (get_config int_of_str env dry = Exit 1
   <-> env "SPOTIFY_CLIENT_ID" = None \/ env "SPOTIFY_CLIENT_SECRET" = None
       \/ env "SPOTIFY_RR_PLAYLIST_ID" = None
       \/ env "SPOTIFY_ALL_PLAYLIST_ID" = None)
  /\ (get_config int_of_str env dry <> Exit 1 ->
      exists cfg,
        get_config int_of_str env dry = Started cfg
        /\ n_days_ago cfg = n
        /\ dry_run (playlists cfg) = dry
        /\ rr_playlist_id (playlists cfg)
           = environ_get env "SPOTIFY_RR_PLAYLIST_ID"
        /\ all_playlist_id (playlists cfg)
           = environ_get env "SPOTIFY_ALL_PLAYLIST_ID").
Proof.
  intro H.
  destruct (get_config_cases int_of_str env dry n H)
    as [[U E]|(cid & secret & rr & al & E1 & E2 & E3 & E4 & E)].
  - split; [now split|]. intro N. contradiction.
  - split.
    + rewrite E. split; [discriminate|].
      intros [U|[U|[U|U]]]; congruence.
    + intros _. eexists. split; [exact E|]. unfold environ_get.
      rewrite E3, E4. now repeat split.
Qed.

(** With [DAYS_LOOKBACK] unset the lookback is 13 days. *)
Lemma get_config_exits_iff_witness :
  exists cfg,
    get_config sample_int sample_environ true = Started cfg
    /\ n_days_ago cfg = 13
    /\ dry_run (playlists cfg) = true
    /\ rr_playlist_id (playlists cfg)
       = environ_get sample_environ "SPOTIFY_RR_PLAYLIST_ID"
    /\ all_playlist_id (playlists cfg)
       = environ_get sample_environ "SPOTIFY_ALL_PLAYLIST_ID".
Proof.
  apply (proj2 (get_config_exits_iff sample_int sample_environ true 13
                  eq_refl)).
  vm_compute. discriminate.
Defined.

Lemma light_ai_iff (e : roster_entry) :
  light_ai e = true <-> dict_get (ai_usage e) <> PStr "heavy".
Proof.
  unfold light_ai. destruct (dict_get (ai_usage e)) as [|s]; simpl.
  - split; [discriminate | reflexivity].
  - destruct (String.eqb s "heavy") eqn:E.
    + apply String.eqb_eq in E. subst s. simpl. split; [discriminate|].
      intro H. now contradiction H.
    + apply String.eqb_neq in E. rewrite orb_true_r.
      split; [congruence | reflexivity].
Qed.

(** X12.  When the file decodes and ['exclude_ai'] is true, [load_artists]
    returns the entries of the file in their order, those whose
    ['ai_usage'] is ['heavy'] left out; an entry without ['ai_usage'], or
    with [None], the empty string or any other text, is kept. *)
Theorem load_artists_drops_heavy (read_json : string -> file_outcome)
    (file_path : string) (exclude : flag) (artists : list roster_entry) :
  read_json file_path = JsonList artists ->
  truthy_flag exclude = true ->
  load_artists read_json file_path exclude
  = Started (filter
               (fun e => negb (pyval_eqb (dict_get (ai_usage e)) (PStr "heavy")))
               artists)
  /\ forall e out,
       load_artists read_json file_path exclude = Started out ->
       (In e out <-> In e artists /\ dict_get (ai_usage e) <> PStr "heavy").
Proof.
  intros R T. unfold load_artists. rewrite R, T. split.
  - f_equal. apply filter_ext. intro e.
    destruct (light_ai e) eqn:L.
    + apply light_ai_iff in L. symmetry. apply negb_true_iff.
      now apply pyval_eqb_neq.
    + symmetry. apply negb_false_iff. apply pyval_eqb_eq.
      destruct (pyval_eqb (dict_get (ai_usage e)) (PStr "heavy")) eqn:P.
      * now apply pyval_eqb_eq.
      * apply pyval_eqb_neq in P. apply light_ai_iff in P. congruence.
  - intros e out H. injection H as <-. rewrite filter_In, light_ai_iff.
    reflexivity.
Qed.

Lemma load_artists_drops_heavy_witness :
  load_artists (fun _ => JsonList sample_roster) "artists.json" FlagTrue
  = Started [sample_entry "a" None;
             sample_entry "c" (Some (PStr "light"));
             sample_entry "d" (Some PNone);
             sample_entry "e" (Some (PStr ""))].
Proof.
  apply (proj1 (load_artists_drops_heavy (fun _ => JsonList sample_roster)
                  "artists.json" FlagTrue sample_roster eq_refl eq_refl)).
Defined.

(** X13.  Whatever non-empty text [EXCLUDE_AI] is set to, ["false"]
    included, the configuration makes [load_artists] leave out the artists of
    heavy AI usage, as when the variable is not set; only the empty string
    keeps them. *)
Theorem exclude_ai_text_is_true (int_of_str : string -> result Z)
    (env : environ) (dry : bool) (cfg : settings)
    (read_json : string -> file_outcome) (file_path : string) :
  get_config int_of_str env dry = Started cfg ->
  env "EXCLUDE_AI" <> Some EmptyString ->
  load_artists read_json file_path (exclude_ai cfg)
  = load_artists read_json file_path FlagTrue.
Proof.
  intros H N. unfold get_config in H.
  destruct (match env "DAYS_LOOKBACK" with
            | Some s => int_of_str s
            | None => Ok 13
            end) as [n|e]; [|discriminate].
  match type of H with
  | match ?m with [] => _ | _ => _ end = _ => destruct m; [|discriminate]
  end.
  injection H as <-. simpl.
  destruct (env "EXCLUDE_AI") as [[|c s]|]; try reflexivity.
  now contradiction N.
Qed.

Lemma exclude_ai_text_is_true_witness :
  exists cfg,
    get_config sample_int sample_environ false = Started cfg
    /\ exclude_ai cfg = FlagStr "false"
    /\ load_artists (fun _ => JsonList sample_roster) "artists.json"
         (exclude_ai cfg)
       = load_artists (fun _ => JsonList sample_roster) "artists.json" FlagTrue.
Proof.
  eexists. split; [vm_compute; reflexivity|]. split; [reflexivity|].
  apply (exclude_ai_text_is_true sample_int sample_environ false _
           (fun _ => JsonList sample_roster) "artists.json").
  - vm_compute. reflexivity.
  - vm_compute. discriminate.
Defined.

(** ** The order of the calls of a run *)

Lemma emits_quiet {St A} (P : list call -> Prop) (m : prog St A) :
  (forall w, snd (m w) = w) -> P [] -> emits P m.
Proof.
  intros H HP s log. exists []. rewrite H. simpl.
  now rewrite app_nil_r.
Qed.

Lemma emits_issue {St A} (P : list call -> Prop) (c : call)
    (op : St -> result A * St) :
  P [c] -> emits P (issue c op).
Proof.
  intros HP s log. exists [c]. unfold issue. destruct (op s) as [r s'].
  now split.
Qed.

Lemma emits_weaken {St A} (P P' : list call -> Prop) (m : prog St A) :
  (forall l, P l -> P' l) -> emits P m -> emits P' m.
Proof.
  intros H Hm s log. destruct (Hm s log) as (extra & E & HP).
  exists extra. split; [exact E | now apply H].
Qed.

(** The calls of [m ;; k] are those of [m] followed by those of [k], which
    are none when [m] raises. *)
Lemma emits_bind {St A B} (P1 P2 : list call -> Prop) (m : prog St A)
    (k : A -> prog St B) :
  emits P1 m -> (forall a, emits P2 (k a)) -> P2 [] ->
  emits (fun l => exists l1 l2, l = l1 ++ l2 /\ P1 l1 /\ P2 l2) (bind m k).
Proof.
  intros Hm Hk H0 s log. unfold bind.
  destruct (Hm s log) as (e1 & E1 & Q1).
  destruct (m (s, log)) as [[a|e] [s' log']]; simpl in E1; subst log'.
  - destruct (Hk a s' (log ++ e1)) as (e2 & E2 & Q2).
    exists (e1 ++ e2). rewrite E2, app_assoc. split; [reflexivity|].
    now exists e1, e2.
  - exists e1. split; [reflexivity|]. exists e1, []. now rewrite app_nil_r.
Qed.

(** A step that issues no call leaves the calls to what follows it. *)
Lemma emits_after_quiet {St A B} (P : list call -> Prop) (m : prog St A)
    (k : A -> prog St B) :
  (forall w, snd (m w) = w) -> (forall a, emits P (k a)) -> P [] ->
  emits P (bind m k).
Proof.
  intros Hm Hk H0.
  apply (emits_weaken
           (fun l => exists l1 l2, l = l1 ++ l2 /\ l1 = [] /\ P l2)).
  - intros l (l1 & l2 & -> & -> & H). exact H.
  - apply emits_bind; [|exact Hk | exact H0].
    now apply emits_quiet.
Qed.

Lemma emits_reads_get_playlist_tracks {St} (sp : client St)
    (playlist_id : pyval) :
  emits reads_only (get_playlist_tracks sp playlist_id).
Proof.
  intros s log. apply get_playlist_tracks_reads.
Qed.

Section CallOrder.
Context {St : Type}.
Variable sp : client St.
Variable cfg : config.

Let rr := rr_playlist_id cfg.
Let yearly := all_playlist_id cfg.

Lemma emits_batches (tracks : list pytuple) (offsets : list nat) :
  emits (Forall (batch_to yearly))
    (for_each offsets
       (fun i =>
          (ids <- lift (track_ids (slice tracks i (i + BATCH))) ;;
           sp_add sp yearly ids 0)%prog)).
Proof.
  apply (issues_for_each (batch_to yearly)). intros i s log.
  unfold bind, lift.
  destruct (track_ids (slice tracks i (i + BATCH))) as [ids|e] eqn:E.
  - apply (issues_issue (batch_to yearly)). exists ids.
    split; [reflexivity|].
    rewrite (track_ids_length _ _ E). apply slice_length.
  - exists []. simpl. now rewrite app_nil_r.
Qed.

(** The three mutating steps, from the last to the first. *)
Lemma emits_yearly_step (new_all : list pytuple) :
  emits (Forall (batch_to yearly))
    match new_all with
    | [] => ret tt
    | _ :: _ =>
        for_each (py_range (List.length new_all) BATCH)
          (fun i =>
             (ids <- lift (track_ids (slice new_all i (i + BATCH))) ;;
              sp_add sp yearly ids 0)%prog)
    end.
Proof.
  destruct new_all; [|apply emits_batches].
  apply emits_quiet; [reflexivity | constructor].
Qed.

Lemma emits_recent_step (new_rr : list pytuple) :
  emits (at_most_one (addition_to rr))
    match new_rr with
    | [] => ret tt
    | _ :: _ => (ids <- lift (track_ids new_rr) ;; sp_add sp rr ids 0)%prog
    end.
Proof.
  destruct new_rr as [|t ts].
  - apply emits_quiet; [reflexivity | now left].
  - apply emits_after_quiet; [reflexivity | | now left].
    intro ids. apply emits_issue. right. eexists. split; [reflexivity|].
    now exists ids.
Qed.

Lemma emits_removal_step (old : list pyval) :
  emits (at_most_one (removal_from rr))
    match old with
    | [] => ret tt
    | _ :: _ => sp_remove sp rr old
    end.
Proof.
  destruct old as [|o os].
  - apply emits_quiet; [reflexivity | now left].
  - apply emits_issue. right. eexists. split; [reflexivity|].
    now eexists.
Qed.

Lemma run_log_nil : run_log cfg [].
Proof.
  exists [], [], [], []. split; [reflexivity|].
  split; [constructor|]. split; [now left|]. split; [now left | constructor].
Qed.

Lemma emits_run_log (rr_playlist_tracks all_playlist_tracks : list pytuple) :
  emits (run_log cfg)
    (update_playlists sp cfg rr_playlist_tracks all_playlist_tracks).
Proof.
  unfold update_playlists.
  (* the calls after the reads *)
  assert (Hmut : forall (results : paging) (new_rr new_all : list pytuple),
             emits (fun l => exists removal recent_addition batches,
                       l = removal ++ recent_addition ++ batches
                       /\ at_most_one (removal_from rr) removal
                       /\ at_most_one (addition_to rr) recent_addition
                       /\ Forall (batch_to yearly) batches)
               (if dry_run cfg then ret (new_rr, new_all)
                else
                  (old_rr_track_ids <-
                     lift (old_track_ids (page_items results)
                             rr_playlist_tracks) ;;
                   match old_rr_track_ids with
                   | [] => ret tt
                   | _ :: _ => sp_remove sp (rr_playlist_id cfg) old_rr_track_ids
                   end ;;
                   match new_rr with
                   | [] => ret tt
                   | _ :: _ =>
                       ids <- lift (track_ids new_rr) ;;
                       sp_add sp (rr_playlist_id cfg) ids 0
                   end ;;
                   match new_all with
                   | [] => ret tt
                   | _ :: _ =>
                       for_each (py_range (List.length new_all) BATCH)
                         (fun i =>
                            ids <- lift (track_ids
                                           (slice new_all i (i + BATCH))) ;;
                            sp_add sp (all_playlist_id cfg) ids 0)
                   end ;;
                   ret (new_rr, new_all))%prog)).
  { intros results new_rr new_all.
    assert (H0 : exists removal recent_addition batches : list call,
               [] = removal ++ recent_addition ++ batches
               /\ at_most_one (removal_from rr) removal
               /\ at_most_one (addition_to rr) recent_addition
               /\ Forall (batch_to yearly) batches).
    { exists [], [], []. split; [reflexivity|]. split; [now left|].
      split; [now left | constructor]. }
    destruct (dry_run cfg); [apply emits_quiet; [reflexivity | exact H0]|].
    apply emits_after_quiet; [reflexivity | | exact H0]. intro old.
    eapply emits_weaken;
      [|apply (emits_bind (at_most_one (removal_from rr))
                 (fun l => exists a b, l = a ++ b
                                       /\ at_most_one (addition_to rr) a
                                       /\ Forall (batch_to yearly) b));
        [apply emits_removal_step | | exists [], []; split; [reflexivity|];
                                       split; [now left | constructor]]].
    - intros l (l1 & l2 & -> & H1 & (a & b & -> & Ha & Hb)).
      now exists l1, a, b.
    - intros _.
      apply (emits_bind (at_most_one (addition_to rr))
               (Forall (batch_to yearly)));
        [apply emits_recent_step | | constructor].
      intros _.
      eapply emits_weaken;
        [|apply (emits_bind (Forall (batch_to yearly)) (fun l => l = []));
          [apply emits_yearly_step | | reflexivity]].
      + intros l (l1 & l2 & -> & H1 & ->). now rewrite app_nil_r.
      + intros _. apply emits_quiet; reflexivity. }
  eapply emits_weaken;
    [|apply (emits_bind reads_only
               (fun l => exists r t, l = r ++ t /\ reads_only r
                  /\ exists removal recent_addition batches,
                       t = removal ++ recent_addition ++ batches
                       /\ at_most_one (removal_from rr) removal
                       /\ at_most_one (addition_to rr) recent_addition
                       /\ Forall (batch_to yearly) batches))].
  - intros l (r1 & l2 & -> & R1 & (r2 & t & -> & R2 & (m & a & b & -> & Hm & Ha & Hb))).
    exists (r1 ++ r2), m, a, b. rewrite <- app_assoc.
    split; [reflexivity|]. split; [now apply Forall_app|]. now repeat split.
  - apply emits_issue. now repeat constructor.
  - intro results. cbv zeta.
    apply (emits_bind reads_only); [apply emits_reads_get_playlist_tracks| |].
    + intro existing_all.
      apply emits_after_quiet; [reflexivity| |].
      * intro new_rr. apply emits_after_quiet; [reflexivity| |].
        -- intro new_all. apply Hmut.
        -- exists [], [], []. split; [reflexivity|]. split; [now left|].
           split; [now left | constructor].
      * exists [], [], []. split; [reflexivity|]. split; [now left|].
        split; [now left | constructor].
    + exists [], [], []. split; [reflexivity|]. split; [now left|].
      split; [now left | constructor].
  - exists [], []. split; [reflexivity|]. split; [constructor|].
    exists [], [], []. split; [reflexivity|]. split; [now left|].
    split; [now left | constructor].
Qed.
End CallOrder.

(** In a log of the shape of a run every removal names the recent
    playlist. *)
Lemma run_log_removals (cfg : config) (log : list call)
    (playlist_id : pyval) (ids : list pyval) :
  run_log cfg log ->
  In (CallRemove playlist_id ids) log ->
  playlist_id = rr_playlist_id cfg.
Proof.
  intros (reads & removal & recent_addition & batches & -> & R & M & A & B) H.
  rewrite !in_app_iff in H. destruct H as [H | [H | [H | H]]].
  - unfold reads_only in R. rewrite Forall_forall in R.
    specialize (R _ H). discriminate.
  - destruct M as [-> | (c & -> & ids' & ->)]; [contradiction|].
    destruct H as [H | []]. now injection H as <- _.
  - destruct A as [-> | (c & -> & ids' & ->)]; [contradiction|].
    destruct H as [H | []]. discriminate.
  - rewrite Forall_forall in B. destruct (B _ H) as (ids' & E & _).
    discriminate.
Qed.

(** X14.  Whatever the provider does, the calls of a run come in this order:
    the reads; then at most one removal, which names the recent playlist id;
    then at most one addition to the recent playlist id; then additions to
    the yearly playlist id of at most 50 ids each.  Every addition is at
    position 0.  Every removal of the run names the recent playlist id, so
    when the two ids of the configuration differ no removal names the yearly
    playlist; nothing is claimed of the yearly playlist when the two ids are
    the same. *)
Theorem update_playlists_call_order {St} (sp : client St) (cfg : config)
    (rr_playlist_tracks all_playlist_tracks : list pytuple) (s : St) :
  let log := snd (snd (run (update_playlists sp cfg rr_playlist_tracks
                              all_playlist_tracks) s)) in
  run_log cfg log
  /\ (forall playlist_id ids,
        In (CallRemove playlist_id ids) log ->
        playlist_id = rr_playlist_id cfg)
  /\ (rr_playlist_id cfg <> all_playlist_id cfg ->
      forall ids, ~ In (CallRemove (all_playlist_id cfg) ids) log).
Proof.
  intro log.
  assert (L : run_log cfg log).
  { destruct (emits_run_log sp cfg rr_playlist_tracks all_playlist_tracks s [])
      as (extra & E & H).
    subst log. unfold run. now rewrite E. }
  split; [exact L|]. split.
  - intros playlist_id ids H. exact (run_log_removals cfg log _ _ L H).
  - intros D ids H. apply D. symmetry.
    exact (run_log_removals cfg log _ _ L H).
Qed.

(** With the recent playlist holding [t001] to [t003] and [t002], [t004]
    desired, the one removal of the run names ["recent"], and none names
    ["year"]. *)
Lemma update_playlists_call_order_witness :
  In (CallRemove (PStr "recent") [PStr "t001"; PStr "t003"])
     (snd (snd (run (update_playlists (mem_client PAGE_LIMIT)
                       (sample_config false)
                       [numbered_track 2; numbered_track 4]
                       (numbered_tracks 1 4))
                    (sample_store (numbered_ids 1 3) []))))
  /\ forall ids,
       ~ In (CallRemove (PStr "year") ids)
            (snd (snd (run (update_playlists (mem_client PAGE_LIMIT)
                              (sample_config false)
                              [numbered_track 2; numbered_track 4]
                              (numbered_tracks 1 4))
                           (sample_store (numbered_ids 1 3) [])))).
Proof.
  split.
  - vm_compute. tauto.
  - apply (proj2 (proj2 (update_playlists_call_order (mem_client PAGE_LIMIT)
                           (sample_config false)
                           [numbered_track 2; numbered_track 4]
                           (numbered_tracks 1 4)
                           (sample_store (numbered_ids 1 3) [])))).
    discriminate.
Defined.

(** ** Failures and edge cases of a run *)

(** X15.  A removal that fails ends the run: the exception of the provider
    leaves [update_playlists], the removal is the last call issued, and no
    addition is made to either playlist. *)
Theorem failed_removal_stops_run {St} (sp : client St) (cfg : config)
    (rr_playlist_tracks all_playlist_tracks : list pytuple) (s s1 s2 s3 : St)
    (results : paging) (existing_all : list pyval) (log2 : list call)
    (e : exn) :
  dry_run cfg = false ->
  Forall (fun t => t <> []) rr_playlist_tracks ->
  Forall (fun t => t <> []) all_playlist_tracks ->
  playlist_tracks sp (rr_playlist_id cfg) s = (Ok results, s1) ->
  get_playlist_tracks sp (all_playlist_id cfg)
    (s1, [CallPlaylistTracks (rr_playlist_id cfg)])
  = (Ok existing_all, (s2, log2)) ->
  let old :=
    filter (fun id => negb (py_in id (map (hd PNone) rr_playlist_tracks)))
           (page_items results) in
  old <> [] ->
  playlist_remove_all_occurrences_of_items sp (rr_playlist_id cfg) old s2
  = (Raise e, s3) ->
  run (update_playlists sp cfg rr_playlist_tracks all_playlist_tracks) s
  = (Raise e, (s3, log2 ++ [CallRemove (rr_playlist_id cfg) old])).
Proof.
  intros Hdry Nrr Nall P G old Hold R.
  unfold run, update_playlists.
  assert (P' : sp_playlist_tracks sp (rr_playlist_id cfg) (s, [])
               = (Ok results, (s1, [CallPlaylistTracks (rr_playlist_id cfg)]))).
  { unfold sp_playlist_tracks, issue. now rewrite P. }
  rewrite (bind_ok _ _ _ _ _ P'). cbv beta zeta.
  rewrite (bind_ok _ _ _ _ _ G).
  rewrite (bind_lift_ok _ _ _ _ (new_tracks_filter _ _ Nrr)).
  rewrite (bind_lift_ok _ _ _ _ (new_tracks_filter _ _ Nall)).
  rewrite Hdry.
  rewrite (bind_lift_ok _ _ _ _ (old_track_ids_total _ _ Nrr)).
  fold old. destruct old as [|o os]; [contradiction|].
  unfold bind at 1. unfold sp_remove, issue. now rewrite R.
Qed.

(** With a client that may not write, the run ends on the removal. *)
Lemma failed_removal_stops_run_witness :
  run (update_playlists (read_only_client PAGE_LIMIT) (sample_config false)
         (numbered_tracks 2 2) (numbered_tracks 1 3))
      (sample_store (numbered_ids 1 2) [])
  = (Raise SpotifyException,
     (sample_store (numbered_ids 1 2) [],
      [CallPlaylistTracks (PStr "recent"); CallPlaylistTracks (PStr "year")]
      ++ [CallRemove (PStr "recent") [PStr "t001"]])).
Proof.
  apply (failed_removal_stops_run (read_only_client PAGE_LIMIT)
           (sample_config false) (numbered_tracks 2 2) (numbered_tracks 1 3)
           (sample_store (numbered_ids 1 2) [])
           (sample_store (numbered_ids 1 2) [])
           (sample_store (numbered_ids 1 2) [])
           (sample_store (numbered_ids 1 2) [])
           (paginate PAGE_LIMIT (numbered_ids 1 2)) []).
  - reflexivity.
  - repeat constructor; discriminate.
  - repeat constructor; discriminate.
  - reflexivity.
  - reflexivity.
  - vm_compute. discriminate.
  - reflexivity.
Defined.

(** X16.  A yearly playlist id set to the empty string passes [get_config],
    and the run then raises [ValueError] after the read of the recent
    playlist, before any other call. *)
Theorem empty_yearly_id_raises_after_one_read
    (int_of_str : string -> result Z) (env : environ) (dry : bool)
    (cfg : settings) {St} (sp : client St)
    (rr_playlist_tracks all_playlist_tracks : list pytuple) (s s1 : St)
    (results : paging) :
  get_config int_of_str env dry = Started cfg ->
  env "SPOTIFY_ALL_PLAYLIST_ID" = Some EmptyString ->
  playlist_tracks sp (rr_playlist_id (playlists cfg)) s = (Ok results, s1) ->
  run (update_playlists sp (playlists cfg) rr_playlist_tracks
         all_playlist_tracks) s
  = (Raise ValueError,
     (s1, [CallPlaylistTracks (rr_playlist_id (playlists cfg))])).
Proof.
  intros H E P.
  assert (A : all_playlist_id (playlists cfg) = PStr EmptyString).
  { unfold get_config in H.
    destruct (match env "DAYS_LOOKBACK" with
              | Some s => int_of_str s
              | None => Ok 13
              end) as [n|e]; [|discriminate].
    match type of H with
    | match ?m with [] => _ | _ => _ end = _ => destruct m; [|discriminate]
    end.
    injection H as <-. simpl. unfold environ_get. now rewrite E. }
  unfold run, update_playlists.
  assert (P' : sp_playlist_tracks sp (rr_playlist_id (playlists cfg)) (s, [])
               = (Ok results,
                  (s1, [CallPlaylistTracks (rr_playlist_id (playlists cfg))]))).
  { unfold sp_playlist_tracks, issue. now rewrite P. }
  rewrite (bind_ok _ _ _ _ _ P'). cbv beta zeta.
  unfold bind at 1. unfold get_playlist_tracks. now rewrite A.
Qed.

Lemma empty_yearly_id_raises_after_one_read_witness :
  exists cfg,
    get_config sample_int
      (environ_of
         [("SPOTIFY_CLIENT_ID", "client"); ("SPOTIFY_CLIENT_SECRET", "secret");
          ("SPOTIFY_RR_PLAYLIST_ID", "recent");
          ("SPOTIFY_ALL_PLAYLIST_ID", "")]) false
    = Started cfg
    /\ run (update_playlists (mem_client PAGE_LIMIT) (playlists cfg)
              (numbered_tracks 1 2) (numbered_tracks 1 2))
           (sample_store [] [])
       = (Raise ValueError,
          (sample_store [] [],
           [CallPlaylistTracks (rr_playlist_id (playlists cfg))])).
Proof.
  eexists. split; [vm_compute; reflexivity|].
  apply (empty_yearly_id_raises_after_one_read sample_int
           (environ_of
              [("SPOTIFY_CLIENT_ID", "client");
               ("SPOTIFY_CLIENT_SECRET", "secret");
               ("SPOTIFY_RR_PLAYLIST_ID", "recent");
               ("SPOTIFY_ALL_PLAYLIST_ID", "")]) false _
           (mem_client PAGE_LIMIT) (numbered_tracks 1 2) (numbered_tracks 1 2)
           (sample_store [] []) (sample_store [] [])
           (paginate PAGE_LIMIT [])).
  - vm_compute. reflexivity.
  - reflexivity.
  - reflexivity.
Defined.

(** ** More on reading a playlist *)

(** X17.  With an id that is neither [None] nor empty, and a first page that
    the provider answers, [get_playlist_tracks] issues one call for the first
    page and one [next] call per link; it returns the items of all the pages
    in their order, or raises the exception of the first link that fails;
    the provider state is the one the first call left. *)
Theorem get_playlist_tracks_drains_pages {St} (sp : client St)
    (playlist_id : pyval) (s s1 : St) (results : paging) :
  truthy playlist_id = true ->
  playlist_tracks sp playlist_id s = (Ok results, s1) ->
  run (get_playlist_tracks sp playlist_id) s
  = (match page_failure results with
     | None => Ok (all_items results)
     | Some e => Raise e
     end,
     (s1, CallPlaylistTracks playlist_id
            :: repeat CallNext (page_links results))).
Proof.
  intros T P. unfold run.
  now rewrite (get_playlist_tracks_spec sp playlist_id s [] T), P.
Qed.

(** Three tracks in pages of two. *)
Lemma get_playlist_tracks_drains_pages_witness :
  run (get_playlist_tracks (mem_client 2) (PStr "year"))
      (sample_store [] (numbered_ids 1 3))
  = (Ok (numbered_ids 1 3),
     (sample_store [] (numbered_ids 1 3),
      [CallPlaylistTracks (PStr "year"); CallNext])).
Proof.
  apply (get_playlist_tracks_drains_pages (mem_client 2) (PStr "year")
           (sample_store [] (numbered_ids 1 3))
           (sample_store [] (numbered_ids 1 3))
           (paginate 2 (numbered_ids 1 3)) eq_refl eq_refl).
Defined.

(** X18.  On the in-memory provider, whatever the page size,
    [get_playlist_tracks] returns the whole playlist in its order and leaves
    the provider as it was, having issued reads only. *)
Theorem get_playlist_tracks_returns_whole_playlist (limit : nat)
    (playlist_id : pyval) (s : store) (l : list pyval) :
  (0 < limit)%nat ->
  truthy playlist_id = true ->
  store_lookup playlist_id s = Some l ->
  exists log,
    run (get_playlist_tracks (mem_client limit) playlist_id) s
    = (Ok l, (s, log))
    /\ reads_only log.
Proof.
  intros Hl T L. unfold run.
  rewrite (get_playlist_tracks_spec _ _ _ _ T). simpl. rewrite L.
  destruct (paginate_all_items limit l Hl) as [E F]. rewrite F, E.
  eexists. split; [reflexivity|].
  constructor; [reflexivity | apply reads_only_next].
Qed.

Lemma get_playlist_tracks_returns_whole_playlist_witness :
  exists log,
    run (get_playlist_tracks (mem_client 2) (PStr "year"))
        (sample_store [] (numbered_ids 1 5))
    = (Ok (numbered_ids 1 5), (sample_store [] (numbered_ids 1 5), log))
    /\ reads_only log.
Proof.
  apply (get_playlist_tracks_returns_whole_playlist 2 (PStr "year")
           (sample_store [] (numbered_ids 1 5)) (numbered_ids 1 5)).
  - lia.
  - reflexivity.
  - reflexivity.
Defined.

(** ** What a run leaves in the playlists *)

Lemma slice_map {A B} (f : A -> B) (l : list A) (i j : nat) :
  slice (map f l) i j = map f (slice l i j).
Proof. unfold slice. now rewrite skipn_map, firstn_map. Qed.

Lemma batches_map {A B} (f : A -> B) (l : list A) :
  batches (map f l) = map (map f) (batches l).
Proof.
  unfold batches. rewrite length_map, map_map. apply map_ext.
  intro i. apply slice_map.
Qed.

Lemma batches_short {A} (l : list A) :
  (List.length l <= BATCH)%nat -> List.concat (rev (batches l)) = l.
Proof.
  intro H. unfold batches, py_range.
  destruct l as [|x l]; [reflexivity|].
  replace ((List.length (x :: l) + BATCH - 1) / BATCH)%nat with 1%nat.
  - change (seq 0 1) with [0%nat]. cbn [map rev List.concat app].
    rewrite app_nil_r. unfold slice.
    change (0 * BATCH)%nat with 0%nat. rewrite skipn_0, Nat.add_0_l, Nat.sub_0_r.
    now apply firstn_all2.
  - apply Nat.div_unique with (r := List.length l);
      unfold BATCH in *; cbn [List.length] in *; lia.
Qed.

Section RunOutcome.
Variable limit : nat.
Variable cfg : config.
Variables rr_playlist_tracks all_playlist_tracks : list pytuple.

Hypothesis limit_positive : (0 < limit)%nat.
Hypothesis not_dry : dry_run cfg = false.
Hypothesis all_id_set : truthy (all_playlist_id cfg) = true.
Hypothesis two_playlists : rr_playlist_id cfg <> all_playlist_id cfg.
Hypothesis rr_tuples : Forall (fun t => t <> []) rr_playlist_tracks.
Hypothesis all_tuples : Forall (fun t => t <> []) all_playlist_tracks.

Let desired_ids := map (hd PNone) rr_playlist_tracks.

(** The yearly playlist after a run, batch by batch. *)
Lemma run_effect_exact (s : store) (recent year : list pyval) :
  store_lookup (rr_playlist_id cfg) s = Some recent ->
  store_lookup (all_playlist_id cfg) s = Some year ->
  exists s' log',
    run (update_playlists (mem_client limit) cfg rr_playlist_tracks
           all_playlist_tracks) s
    = (Ok (filter (absent_from (firstn limit recent)) rr_playlist_tracks,
           filter (absent_from year) all_playlist_tracks), (s', log'))
    /\ store_lookup (all_playlist_id cfg) s'
       = Some (List.concat
                 (rev (batches
                         (map (hd PNone)
                              (filter (absent_from year) all_playlist_tracks))))
               ++ year).
Proof.
  intros HR HA.
  set (page := firstn limit recent).
  set (new_rr := filter (absent_from page) rr_playlist_tracks).
  set (new_all := filter (absent_from year) all_playlist_tracks).
  set (old := filter (fun id => negb (py_in id desired_ids)) page).
  unfold run, update_playlists.
  assert (P : sp_playlist_tracks (mem_client limit) (rr_playlist_id cfg) (s, [])
              = (Ok (paginate limit recent),
                 (s, [CallPlaylistTracks (rr_playlist_id cfg)]))).
  { unfold sp_playlist_tracks, issue. simpl. now rewrite HR. }
  rewrite (bind_ok _ _ _ _ _ P). cbv beta zeta.
  rewrite (page_items_paginate limit recent limit_positive). fold page.
  assert (G : exists log1,
             get_playlist_tracks (mem_client limit) (all_playlist_id cfg)
               (s, [CallPlaylistTracks (rr_playlist_id cfg)])
             = (Ok year, (s, log1))).
  { rewrite (get_playlist_tracks_spec _ _ _ _ all_id_set). simpl.
    rewrite HA. destruct (paginate_all_items limit year limit_positive) as [E F].
    rewrite F, E. eauto. }
  destruct G as [log1 G]. rewrite (bind_ok _ _ _ _ _ G).
  rewrite (bind_lift_ok _ _ _ _ (new_tracks_filter _ page rr_tuples)).
  rewrite (bind_lift_ok _ _ _ _ (new_tracks_filter _ year all_tuples)).
  fold new_rr new_all. rewrite not_dry.
  rewrite (bind_lift_ok _ _ _ _ (old_track_ids_total page _ rr_tuples)).
  fold desired_ids. fold old.
  destruct (removal_effect limit (rr_playlist_id cfg) old s log1 recent HR)
    as (sa & la & Ea & La & Oa).
  rewrite (bind_ok _ _ _ _ _ Ea).
  destruct (recent_addition_effect limit (rr_playlist_id cfg) new_rr sa la _
              (filter_Forall _ _ _ rr_tuples) La)
    as (sb & lb & Eb & Lb & Ob).
  rewrite (bind_ok _ _ _ _ _ Eb).
  assert (HA' : store_lookup (all_playlist_id cfg) sb = Some year).
  { rewrite (Ob _ two_playlists), (Oa _ two_playlists). exact HA. }
  destruct new_all as [|t ts] eqn:N.
  - exists sb, lb. split; [reflexivity|]. exact HA'.
  - destruct (batched_additions_effect limit (all_playlist_id cfg) (t :: ts)
                (py_range (List.length (t :: ts)) BATCH) sb lb year)
      as (sc & lc & Ec & Lc & _).
    { rewrite <- N. apply filter_Forall. exact all_tuples. }
    { exact HA'. }
    rewrite (bind_ok _ _ _ _ _ Ec).
    exists sc, lc. split; [reflexivity|].
    rewrite Lc, batches_map. unfold batches. now rewrite map_map.
Qed.

(** The recent playlist after a run that read all of it. *)
Lemma recent_after_run (recent : list pyval) (x : pyval) :
  In x (map (hd PNone) (filter (absent_from recent) rr_playlist_tracks)
        ++ filter
             (fun y =>
                negb (py_in y
                        (filter (fun id => negb (py_in id desired_ids)) recent)))
             recent)
  <-> In x desired_ids.
Proof.
  rewrite in_app_iff, in_map_iff, filter_In. split.
  - intros [(t & <- & Ht)|[Hx O]].
    + apply filter_In in Ht. unfold desired_ids. now apply in_map.
    + apply negb_true_iff in O.
      destruct (py_in x desired_ids) eqn:D; [now apply py_in_In|].
      exfalso. assert (O' : py_in x (filter (fun id => negb (py_in id desired_ids))
                                        recent) = true).
      { apply py_in_In, filter_In. split; [assumption | now rewrite D]. }
      congruence.
  - intro Hx. unfold desired_ids in Hx. apply in_map_iff in Hx.
    destruct Hx as (t & <- & Ht).
    destruct (py_in (hd PNone t) recent) eqn:I.
    + right. split; [now apply py_in_In|]. apply negb_true_iff.
      destruct (py_in (hd PNone t)
                  (filter (fun id => negb (py_in id desired_ids)) recent))
        eqn:O; [|reflexivity].
      apply py_in_In, filter_In in O. destruct O as [_ O].
      apply negb_true_iff in O.
      assert (D : py_in (hd PNone t) desired_ids = true)
        by (apply py_in_In; unfold desired_ids; now apply in_map).
      congruence.
    + left. exists t. split; [reflexivity|]. apply filter_In.
      split; [assumption|]. unfold absent_from. now rewrite I.
Qed.

Lemma windowed_replace_effect (s : store) (recent year : list pyval) :
  store_lookup (rr_playlist_id cfg) s = Some recent ->
  store_lookup (all_playlist_id cfg) s = Some year ->
  (List.length recent <= limit)%nat ->
  exists out s' log' recent',
    run (update_playlists (mem_client limit) cfg rr_playlist_tracks
           all_playlist_tracks) s
    = (Ok out, (s', log'))
    /\ store_lookup (rr_playlist_id cfg) s' = Some recent'
    /\ (forall x, In x recent' <-> In x desired_ids)
    /\ (List.length recent'
        <= List.length recent + List.length rr_playlist_tracks)%nat.
Proof.
  intros HR HA Hfit.
  destruct (run_effect limit cfg rr_playlist_tracks all_playlist_tracks
              limit_positive not_dry all_id_set two_playlists rr_tuples
              all_tuples s recent year HR HA)
    as (s' & log' & year' & E & R & _).
  rewrite (firstn_all2 recent Hfit) in E, R.
  do 4 eexists. split; [exact E|]. split; [exact R|]. split.
  - intro x. apply recent_after_run.
  - rewrite length_app, length_map, (Nat.add_comm (List.length recent)).
    apply Nat.add_le_mono; apply filter_length_le.
Qed.

Lemma yearly_after_run (s : store) (recent year : list pyval) :
  store_lookup (rr_playlist_id cfg) s = Some recent ->
  store_lookup (all_playlist_id cfg) s = Some year ->
  exists out s' log' year',
    run (update_playlists (mem_client limit) cfg rr_playlist_tracks
           all_playlist_tracks) s
    = (Ok out, (s', log'))
    /\ store_lookup (all_playlist_id cfg) s' = Some year'
    /\ (forall x, In x year' <->
                  In x (map (hd PNone) all_playlist_tracks) \/ In x year).
Proof.
  intros HR HA.
  destruct (run_effect limit cfg rr_playlist_tracks all_playlist_tracks
              limit_positive not_dry all_id_set two_playlists rr_tuples
              all_tuples s recent year HR HA)
    as (s' & log' & year' & E & _ & A & M).
  do 4 eexists. split; [exact E|]. split; [exact A|].
  intro x. rewrite M. split.
  - intros [H|H]; [left | now right].
    apply in_map_iff in H. destruct H as (t & <- & Ht).
    apply filter_In in Ht. now apply in_map.
  - intros [H|H]; [|now right].
    apply in_map_iff in H. destruct H as (t & <- & Ht).
    destruct (py_in (hd PNone t) year) eqn:I.
    + right. now apply py_in_In.
    + left. apply in_map. apply filter_In. split; [assumption|].
      unfold absent_from. now rewrite I.
Qed.
End RunOutcome.

(** X19.  On the in-memory provider, when the recent playlist fits one page,
    a run leaves in it exactly the ids of the desired recent tracks: every
    desired id is in the playlist and every id of the playlist is desired. *)
Theorem windowed_replace_completeness (limit : nat) (cfg : config)
    (rr_playlist_tracks all_playlist_tracks : list pytuple)
    (s : store) (recent year : list pyval) :
  (0 < limit)%nat ->
  dry_run cfg = false ->
  truthy (all_playlist_id cfg) = true ->
  rr_playlist_id cfg <> all_playlist_id cfg ->
  Forall (fun t => t <> []) rr_playlist_tracks ->
  Forall (fun t => t <> []) all_playlist_tracks ->
  store_lookup (rr_playlist_id cfg) s = Some recent ->
  store_lookup (all_playlist_id cfg) s = Some year ->
  (List.length recent <= limit)%nat ->
  exists out s' log' recent',
    run (update_playlists (mem_client limit) cfg rr_playlist_tracks
           all_playlist_tracks) s
    = (Ok out, (s', log'))
    /\ store_lookup (rr_playlist_id cfg) s' = Some recent'
    /\ (forall x, In x recent' <-> In x (map (hd PNone) rr_playlist_tracks)).
Proof.
  intros H1 H2 H3 H4 H5 H6 HR HA Hfit.
  destruct (windowed_replace_effect limit cfg rr_playlist_tracks
              all_playlist_tracks H1 H2 H3 H4 H5 H6 s recent year HR HA Hfit)
    as (out & s' & log' & recent' & E & R & M & _).
  now exists out, s', log', recent'.
Qed.

(** The example of the specification: the playlist holds [t001], [t002] and
    [t003], and [t002] and [t004] are desired. *)
Lemma windowed_replace_completeness_witness :
  exists out s' log' recent',
    run (update_playlists (mem_client PAGE_LIMIT) (sample_config false)
           [numbered_track 2; numbered_track 4] [])
        (sample_store (numbered_ids 1 3) [])
    = (Ok out, (s', log'))
    /\ store_lookup (PStr "recent") s' = Some recent'
    /\ (forall x, In x recent' <-> In x [PStr "t002"; PStr "t004"]).
Proof.
  apply (windowed_replace_completeness PAGE_LIMIT (sample_config false)
           [numbered_track 2; numbered_track 4] []
           (sample_store (numbered_ids 1 3) []) (numbered_ids 1 3) []).
  - unfold PAGE_LIMIT. lia.
  - reflexivity.
  - reflexivity.
  - discriminate.
  - repeat constructor; discriminate.
  - constructor.
  - reflexivity.
  - reflexivity.
  - unfold PAGE_LIMIT. simpl. lia.
Defined.

(** X20.  On the in-memory provider a run only adds to the yearly playlist:
    afterwards it holds the ids it held and the ids of all the desired
    yearly tracks, and no other id, whatever the number of its pages. *)
Theorem yearly_playlist_only_grows (limit : nat) (cfg : config)
    (rr_playlist_tracks all_playlist_tracks : list pytuple)
    (s : store) (recent year : list pyval) :
  (0 < limit)%nat ->
  dry_run cfg = false ->
  truthy (all_playlist_id cfg) = true ->
  rr_playlist_id cfg <> all_playlist_id cfg ->
  Forall (fun t => t <> []) rr_playlist_tracks ->
  Forall (fun t => t <> []) all_playlist_tracks ->
  store_lookup (rr_playlist_id cfg) s = Some recent ->
  store_lookup (all_playlist_id cfg) s = Some year ->
  exists out s' log' year',
    run (update_playlists (mem_client limit) cfg rr_playlist_tracks
           all_playlist_tracks) s
    = (Ok out, (s', log'))
    /\ store_lookup (all_playlist_id cfg) s' = Some year'
    /\ (forall x, In x year' <->
                  In x (map (hd PNone) all_playlist_tracks) \/ In x year).
Proof.
  intros H1 H2 H3 H4 H5 H6 HR HA.
  exact (yearly_after_run limit cfg rr_playlist_tracks all_playlist_tracks
           H1 H2 H3 H4 H5 H6 s recent year HR HA).
Qed.

(** Pages of two: the yearly playlist holds three tracks, two of them and
    two new ones are desired. *)
Lemma yearly_playlist_only_grows_witness :
  exists out s' log' year',
    run (update_playlists (mem_client 2) (sample_config false)
           [] (numbered_tracks 2 4))
        (sample_store [] (numbered_ids 1 3))
    = (Ok out, (s', log'))
    /\ store_lookup (PStr "year") s' = Some year'
    /\ (forall x, In x year' <->
                  In x (map (hd PNone) (numbered_tracks 2 4))
                  \/ In x (numbered_ids 1 3)).
Proof.
  apply (yearly_playlist_only_grows 2 (sample_config false)
           [] (numbered_tracks 2 4)
           (sample_store [] (numbered_ids 1 3)) [] (numbered_ids 1 3)).
  - lia.
  - reflexivity.
  - reflexivity.
  - discriminate.
  - constructor.
  - repeat constructor; discriminate.
  - reflexivity.
  - reflexivity.
Defined.

(** X21.  On the in-memory provider a run puts the ids of the new yearly
    tracks in front of the yearly playlist batch by batch, each batch in
    front of the one before it: the playlist becomes the batches in reverse,
    each in its own order, followed by what it held.  With at most 50 new
    tracks their ids stand at the head in the order of the list. *)
Theorem yearly_batches_are_stacked (limit : nat) (cfg : config)
    (rr_playlist_tracks all_playlist_tracks : list pytuple)
    (s : store) (recent year : list pyval) :
  (0 < limit)%nat ->
  dry_run cfg = false ->
  truthy (all_playlist_id cfg) = true ->
  rr_playlist_id cfg <> all_playlist_id cfg ->
  Forall (fun t => t <> []) rr_playlist_tracks ->
  Forall (fun t => t <> []) all_playlist_tracks ->
  store_lookup (rr_playlist_id cfg) s = Some recent ->
  store_lookup (all_playlist_id cfg) s = Some year ->
  let new_ids :=
    map (hd PNone) (filter (absent_from year) all_playlist_tracks) in
  exists out s' log',
    run (update_playlists (mem_client limit) cfg rr_playlist_tracks
           all_playlist_tracks) s
    = (Ok out, (s', log'))
    /\ store_lookup (all_playlist_id cfg) s'
       = Some (List.concat (rev (batches new_ids)) ++ year)
    /\ ((List.length new_ids <= BATCH)%nat ->
        store_lookup (all_playlist_id cfg) s' = Some (new_ids ++ year)).
Proof.
  intros H1 H2 H3 H4 H5 H6 HR HA new_ids.
  destruct (run_effect_exact limit cfg rr_playlist_tracks all_playlist_tracks
              H1 H2 H3 H4 H5 H6 s recent year HR HA) as (s' & log' & E & Y).
  do 3 eexists. split; [exact E|]. split; [exact Y|].
  intro Hlen. rewrite Y. fold new_ids. now rewrite (batches_short new_ids Hlen).
Qed.

(** 51 new tracks: [t051] ends in front of [t001] to [t050]. *)
Lemma yearly_batches_are_stacked_witness :
  exists out s' log',
    run (update_playlists (mem_client PAGE_LIMIT) (sample_config false)
           [] (numbered_tracks 1 51))
        (sample_store [] [PStr "t000"])
    = (Ok out, (s', log'))
    /\ store_lookup (PStr "year") s'
       = Some (numbered_ids 51 1 ++ numbered_ids 1 50 ++ [PStr "t000"]).
Proof.
  assert (N : Forall (fun t : pytuple => t <> []) (numbered_tracks 1 51)).
  { unfold numbered_tracks. apply Forall_forall. intros t Ht.
    apply in_map_iff in Ht. destruct Ht as [k [<- _]]. discriminate. }
  assert (P : (0 < PAGE_LIMIT)%nat) by (unfold PAGE_LIMIT; lia).
  assert (D : PStr "recent" <> PStr "year") by discriminate.
  destruct (yearly_batches_are_stacked PAGE_LIMIT (sample_config false)
              [] (numbered_tracks 1 51) (sample_store [] [PStr "t000"])
              [] [PStr "t000"] P eq_refl eq_refl D (Forall_nil _) N
              eq_refl eq_refl)
    as (out & s' & log' & E & Y & _).
  exists out, s', log'. split; [exact E|].
  etransitivity; [exact Y|]. vm_compute. reflexivity.
Defined.

(** X22.  On the in-memory provider two runs in a row are idempotent when
    the recent playlist and the desired recent tracks fit one page together:
    the second run finds nothing to add to either playlist, issues reads
    only and leaves the provider as the first run left it. *)
Theorem second_run_is_settled (limit : nat) (cfg : config)
    (rr_playlist_tracks all_playlist_tracks : list pytuple)
    (s : store) (recent year : list pyval) :
  (0 < limit)%nat ->
  dry_run cfg = false ->
  truthy (all_playlist_id cfg) = true ->
  rr_playlist_id cfg <> all_playlist_id cfg ->
  Forall (fun t => t <> []) rr_playlist_tracks ->
  Forall (fun t => t <> []) all_playlist_tracks ->
  store_lookup (rr_playlist_id cfg) s = Some recent ->
  store_lookup (all_playlist_id cfg) s = Some year ->
  (List.length recent + List.length rr_playlist_tracks <= limit)%nat ->
  exists out1 s1 log1 log2,
    run (update_playlists (mem_client limit) cfg rr_playlist_tracks
           all_playlist_tracks) s
    = (Ok out1, (s1, log1))
    /\ run (update_playlists (mem_client limit) cfg rr_playlist_tracks
              all_playlist_tracks) s1
       = (Ok ([], []), (s1, log2))
    /\ reads_only log2.
Proof.
  intros H1 H2 H3 H4 H5 H6 HR HA Hfit.
  assert (Hfit0 : (List.length recent <= limit)%nat) by lia.
  destruct (windowed_replace_effect limit cfg rr_playlist_tracks
              all_playlist_tracks H1 H2 H3 H4 H5 H6 s recent year HR HA Hfit0)
    as (out & s' & log' & recent' & E & R & _ & Hlen).
  destruct (idempotent_within_one_page limit cfg rr_playlist_tracks
              all_playlist_tracks H1 H2 H3 H4 H5 H6 s recent year HR HA Hfit0)
    as (out1 & s1 & log1 & log2 & recent1 & E1 & E2 & RO & _).
  - intros s1 recent1 L1 Hs1. rewrite E in Hs1. simpl in Hs1. subst s1.
    rewrite R in L1. injection L1 as <-. lia.
  - now exists out1, s1, log1, log2.
Qed.

Lemma second_run_is_settled_witness :
  exists out1 s1 log1 log2,
    run (update_playlists (mem_client PAGE_LIMIT) (sample_config false)
           [numbered_track 2; numbered_track 4] (numbered_tracks 1 4))
        (sample_store (numbered_ids 1 3) [])
    = (Ok out1, (s1, log1))
    /\ run (update_playlists (mem_client PAGE_LIMIT) (sample_config false)
              [numbered_track 2; numbered_track 4] (numbered_tracks 1 4)) s1
       = (Ok ([], []), (s1, log2))
    /\ reads_only log2.
Proof.
  apply (second_run_is_settled PAGE_LIMIT (sample_config false)
           [numbered_track 2; numbered_track 4] (numbered_tracks 1 4)
           (sample_store (numbered_ids 1 3) []) (numbered_ids 1 3) []).
  - unfold PAGE_LIMIT. lia.
  - reflexivity.
  - reflexivity.
  - discriminate.
  - repeat constructor; discriminate.
  - repeat constructor; discriminate.
  - reflexivity.
  - reflexivity.
  - unfold PAGE_LIMIT. simpl. lia.
Defined.

(** X23.  On the in-memory provider a dry run returns what the run proper
    returns, the tracks to add to each playlist, and leaves the provider
    untouched. *)
Theorem dry_run_predicts_run (limit : nat) (cfg : config)
    (rr_playlist_tracks all_playlist_tracks : list pytuple)
    (s : store) (recent year : list pyval) :
  (0 < limit)%nat ->
  dry_run cfg = false ->
  truthy (all_playlist_id cfg) = true ->
  rr_playlist_id cfg <> all_playlist_id cfg ->
  Forall (fun t => t <> []) rr_playlist_tracks ->
  Forall (fun t => t <> []) all_playlist_tracks ->
  store_lookup (rr_playlist_id cfg) s = Some recent ->
  store_lookup (all_playlist_id cfg) s = Some year ->
  exists out log s' log',
    run (update_playlists (mem_client limit)
           {| rr_playlist_id := rr_playlist_id cfg;
              all_playlist_id := all_playlist_id cfg;
              dry_run := true |}
           rr_playlist_tracks all_playlist_tracks) s
    = (Ok out, (s, log))
    /\ run (update_playlists (mem_client limit) cfg rr_playlist_tracks
              all_playlist_tracks) s
       = (Ok out, (s', log')).
Proof.
  intros H1 H2 H3 H4 H5 H6 HR HA.
  destruct (run_effect_exact limit cfg rr_playlist_tracks all_playlist_tracks
              H1 H2 H3 H4 H5 H6 s recent year HR HA) as (s' & log' & E & _).
  set (dry := {| rr_playlist_id := rr_playlist_id cfg;
                 all_playlist_id := all_playlist_id cfg;
                 dry_run := true |}).
  unfold run at 1.
  rewrite (update_playlists_dry_run (mem_client limit) dry _ _ s []
             eq_refl H5 H6).
  subst dry. simpl. rewrite HR.
  rewrite (get_playlist_tracks_spec _ _ _ _ H3). simpl. rewrite HA.
  destruct (paginate_all_items limit year H1) as [Ey Fy]. rewrite Fy, Ey.
  rewrite (page_items_paginate limit recent H1).
  do 4 eexists. split; [reflexivity | exact E].
Qed.

Lemma dry_run_predicts_run_witness :
  exists out log s' log',
    run (update_playlists (mem_client PAGE_LIMIT) (sample_config true)
           [numbered_track 2; numbered_track 4] (numbered_tracks 1 4))
        (sample_store (numbered_ids 1 3) [])
    = (Ok out, (sample_store (numbered_ids 1 3) [], log))
    /\ run (update_playlists (mem_client PAGE_LIMIT) (sample_config false)
              [numbered_track 2; numbered_track 4] (numbered_tracks 1 4))
           (sample_store (numbered_ids 1 3) [])
       = (Ok out, (s', log')).
Proof.
  apply (dry_run_predicts_run PAGE_LIMIT (sample_config false)
           [numbered_track 2; numbered_track 4] (numbered_tracks 1 4)
           (sample_store (numbered_ids 1 3) []) (numbered_ids 1 3) []).
  - unfold PAGE_LIMIT. lia.
  - reflexivity.
  - reflexivity.
  - discriminate.
  - repeat constructor; discriminate.
  - repeat constructor; discriminate.
  - reflexivity.
  - reflexivity.
Defined.
